(** * Verification of the upload token signer

    A shallow embedding of [generate_upload_signature]
    (src/examples/python_signature_generator.py) together with the parts of
    the Python standard library it calls: [json.dumps] with
    [separators=(',', ':')], [str.encode], [bytes.decode], [str.rstrip],
    [base64.urlsafe_b64encode], [hmac.new(...).digest()] and SHA-256.

    Python objects live on a heap: lists, tuples and mappings are reached
    through references, so a payload may alias or contain itself.  Texts and
    byte strings are lists of code points and of bytes, both as [Z]. *)

From Stdlib Require Import String Ascii ZArith List Bool Lia.
From Stdlib Require DecimalZ DecimalPos DecimalFacts.
From coqutil Require Import Z.bitblast.
Import ListNotations.
Local Open Scope Z_scope.
Set Warnings "-register-all".

Definition bytes := list Z.
Definition pystr := list Z.

Definition lit (s : string) : list Z :=
  map (fun c => Z.of_N (N_of_ascii c)) (list_ascii_of_string s).

Module SHA256.

Definition mask32 : Z := 0xFFFFFFFF.
Definition add32 (x y : Z) : Z := Z.land (x + y) mask32.
Definition rotr (n x : Z) : Z :=
  Z.land (Z.lor (Z.shiftr x n) (Z.shiftl x (32 - n))) mask32.
Definition shr (n x : Z) : Z := Z.shiftr x n.

Definition Ch (x y z : Z) : Z :=
  Z.lxor (Z.land x y) (Z.land (Z.lxor x mask32) z).
Definition Maj (x y z : Z) : Z :=
  Z.lxor (Z.lxor (Z.land x y) (Z.land x z)) (Z.land y z).
Definition Sigma0 (x : Z) : Z := Z.lxor (Z.lxor (rotr 2 x) (rotr 13 x)) (rotr 22 x).
Definition Sigma1 (x : Z) : Z := Z.lxor (Z.lxor (rotr 6 x) (rotr 11 x)) (rotr 25 x).
Definition sigma0 (x : Z) : Z := Z.lxor (Z.lxor (rotr 7 x) (rotr 18 x)) (shr 3 x).
Definition sigma1 (x : Z) : Z := Z.lxor (Z.lxor (rotr 17 x) (rotr 19 x)) (shr 10 x).

Definition K : list Z :=
  concat
    [ [0x428a2f98; 0x71374491; 0xb5c0fbcf; 0xe9b5dba5; 0x3956c25b; 0x59f111f1; 0x923f82a4; 0xab1c5ed5];
      [0xd807aa98; 0x12835b01; 0x243185be; 0x550c7dc3; 0x72be5d74; 0x80deb1fe; 0x9bdc06a7; 0xc19bf174];
      [0xe49b69c1; 0xefbe4786; 0x0fc19dc6; 0x240ca1cc; 0x2de92c6f; 0x4a7484aa; 0x5cb0a9dc; 0x76f988da];
      [0x983e5152; 0xa831c66d; 0xb00327c8; 0xbf597fc7; 0xc6e00bf3; 0xd5a79147; 0x06ca6351; 0x14292967];
      [0x27b70a85; 0x2e1b2138; 0x4d2c6dfc; 0x53380d13; 0x650a7354; 0x766a0abb; 0x81c2c92e; 0x92722c85];
      [0xa2bfe8a1; 0xa81a664b; 0xc24b8b70; 0xc76c51a3; 0xd192e819; 0xd6990624; 0xf40e3585; 0x106aa070];
      [0x19a4c116; 0x1e376c08; 0x2748774c; 0x34b0bcb5; 0x391c0cb3; 0x4ed8aa4a; 0x5b9cca4f; 0x682e6ff3];
      [0x748f82ee; 0x78a5636f; 0x84c87814; 0x8cc70208; 0x90befffa; 0xa4506ceb; 0xbef9a3f7; 0xc67178f2] ].

Definition state : Type := (Z * Z * Z * Z * Z * Z * Z * Z)%type.

Definition H0 : state :=
  (0x6a09e667, 0xbb67ae85, 0x3c6ef372, 0xa54ff53a,
   0x510e527f, 0x9b05688c, 0x1f83d9ab, 0x5be0cd19).

Definition word_of_bytes (b0 b1 b2 b3 : Z) : Z :=
  Z.lor (Z.lor (Z.shiftl b0 24) (Z.shiftl b1 16)) (Z.lor (Z.shiftl b2 8) b3).

Definition bytes_of_word (w : Z) : bytes :=
  [ Z.land (Z.shiftr w 24) 255; Z.land (Z.shiftr w 16) 255;
    Z.land (Z.shiftr w 8) 255; Z.land w 255 ].

Fixpoint words_of_bytes (bs : bytes) : list Z :=
  match bs with
  | b0 :: b1 :: b2 :: b3 :: rest => word_of_bytes b0 b1 b2 b3 :: words_of_bytes rest
  | _ => []
  end.

Definition next_word (win : list Z) : Z :=
  add32 (add32 (sigma1 (nth 14 win 0)) (nth 9 win 0))
        (add32 (sigma0 (nth 1 win 0)) (nth 0 win 0)).

Definition round (acc : state * list Z) (k : Z) : state * list Z :=
  let '((a, b, c, d, e, f, g, h), win) := acc in
  let w := nth 0 win 0 in
  let t1 := add32 (add32 (add32 h (Sigma1 e)) (add32 (Ch e f g) k)) w in
  let t2 := add32 (Sigma0 a) (Maj a b c) in
  ((add32 t1 t2, a, b, c, add32 d t1, e, f, g), tl win ++ [next_word win]).

Definition compress (st : state) (block : bytes) : state :=
  let '(a, b, c, d, e, f, g, h) := st in
  let '((a', b', c', d', e', f', g', h'), _) :=
    fold_left round K (st, words_of_bytes block) in
  (add32 a a', add32 b b', add32 c c', add32 d d',
   add32 e e', add32 f f', add32 g g', add32 h h').

Definition be64 (n : Z) : bytes :=
  bytes_of_word (Z.land (Z.shiftr n 32) mask32) ++ bytes_of_word (Z.land n mask32).

Definition pad (msg : bytes) : bytes :=
  let len := Z.of_nat (length msg) in
  msg ++ [0x80] ++ repeat 0 (Z.to_nat ((55 - len) mod 64)) ++ be64 (8 * len).

Fixpoint absorb (n : nat) (st : state) (bs : bytes) : state :=
  match n with
  | O => st
  | S n' => absorb n' (compress st (firstn 64 bs)) (skipn 64 bs)
  end.

Definition digest_of_state (st : state) : bytes :=
  let '(a, b, c, d, e, f, g, h) := st in
  bytes_of_word a ++ bytes_of_word b ++ bytes_of_word c ++ bytes_of_word d ++
  bytes_of_word e ++ bytes_of_word f ++ bytes_of_word g ++ bytes_of_word h.

Definition sha256 (msg : bytes) : bytes :=
  let p := pad msg in
  digest_of_state (absorb (length p / 64) H0 p).

End SHA256.

(** ** hmac.new(key, msg, hashlib.sha256).digest() *)

Definition block_size : nat := 64.

Definition ljust (width : nat) (fill : Z) (b : bytes) : bytes :=
  b ++ repeat fill (width - length b).

Definition translate_xor (x : Z) (b : bytes) : bytes := map (Z.lxor x) b.

Definition hmac_digest (key msg : bytes) : bytes :=
  let key := if (block_size <? length key)%nat then SHA256.sha256 key else key in
  let key := ljust block_size 0 key in
  let inner := SHA256.sha256 (translate_xor 0x36 key ++ msg) in
  SHA256.sha256 (translate_xor 0x5C key ++ inner).

(** The two intermediate values of [hmac_digest]: the key brought to the
    block size ([_init_old]: hashed when longer than a block, then padded
    with NUL bytes), and the input of the outer hash. *)
Definition key_block (key : bytes) : bytes :=
  ljust block_size 0 (if (block_size <? length key)%nat then SHA256.sha256 key else key).

Definition outer_input (key msg : bytes) : bytes :=
  translate_xor 0x5C (key_block key)
  ++ SHA256.sha256 (translate_xor 0x36 (key_block key) ++ msg).

(** ** Exceptions *)

Inductive pyexn : Type :=
| TypeError | ValueError | UnicodeEncodeError | UnicodeDecodeError
| SystemError | RecursionError.

Inductive result (A : Type) : Type :=
| Ok (a : A)
| Raise (e : pyexn).
Arguments Ok {A} a.
Arguments Raise {A} e.

Definition bind {A B : Type} (c : result A) (k : A -> result B) : result B :=
  match c with
  | Ok a => k a
  | Raise e => Raise e
  end.

Notation "x <- c ;; k" := (bind c (fun x => k))
  (at level 61, c at next level, right associativity).

(** ** str.encode() and bytes.decode(): strict UTF-8 *)

Definition is_surrogate (c : Z) : bool := (0xD800 <=? c) && (c <=? 0xDFFF).

Definition utf8_char (c : Z) : result bytes :=
  if c <? 0x80 then Ok [c]
  else if c <? 0x800 then
    Ok [Z.lor 0xC0 (Z.shiftr c 6); Z.lor 0x80 (Z.land c 0x3F)]
  else if is_surrogate c then Raise UnicodeEncodeError
  else if c <? 0x10000 then
    Ok [Z.lor 0xE0 (Z.shiftr c 12); Z.lor 0x80 (Z.land (Z.shiftr c 6) 0x3F);
        Z.lor 0x80 (Z.land c 0x3F)]
  else
    Ok [Z.lor 0xF0 (Z.shiftr c 18); Z.lor 0x80 (Z.land (Z.shiftr c 12) 0x3F);
        Z.lor 0x80 (Z.land (Z.shiftr c 6) 0x3F); Z.lor 0x80 (Z.land c 0x3F)].

Fixpoint str_encode (s : pystr) : result bytes :=
  match s with
  | [] => Ok []
  | c :: rest =>
    b <- utf8_char c ;;
    bs <- str_encode rest ;;
    Ok (b ++ bs)
  end.

Definition is_cont (b : Z) : bool := Z.land b 0xC0 =? 0x80.

Fixpoint bytes_decode (b : bytes) : result pystr :=
  match b with
  | [] => Ok []
  | b0 :: rest =>
    if b0 <? 0x80 then
      s <- bytes_decode rest ;; Ok (b0 :: s)
    else if (0xC2 <=? b0) && (b0 <=? 0xDF) then
      match rest with
      | b1 :: rest' =>
        if is_cont b1 then
          s <- bytes_decode rest' ;;
          Ok (Z.lor (Z.shiftl (Z.land b0 0x1F) 6) (Z.land b1 0x3F) :: s)
        else Raise UnicodeDecodeError
      | _ => Raise UnicodeDecodeError
      end
    else if (0xE0 <=? b0) && (b0 <=? 0xEF) then
      match rest with
      | b1 :: b2 :: rest' =>
        let c := Z.lor (Z.shiftl (Z.land b0 0x0F) 12)
                   (Z.lor (Z.shiftl (Z.land b1 0x3F) 6) (Z.land b2 0x3F)) in
        if is_cont b1 && is_cont b2 && (0x800 <=? c) && negb (is_surrogate c) then
          s <- bytes_decode rest' ;; Ok (c :: s)
        else Raise UnicodeDecodeError
      | _ => Raise UnicodeDecodeError
      end
    else if (0xF0 <=? b0) && (b0 <=? 0xF4) then
      match rest with
      | b1 :: b2 :: b3 :: rest' =>
        let c := Z.lor (Z.shiftl (Z.land b0 0x07) 18)
                   (Z.lor (Z.shiftl (Z.land b1 0x3F) 12)
                      (Z.lor (Z.shiftl (Z.land b2 0x3F) 6) (Z.land b3 0x3F))) in
        if is_cont b1 && is_cont b2 && is_cont b3 && (0x10000 <=? c) && (c <=? 0x10FFFF) then
          s <- bytes_decode rest' ;; Ok (c :: s)
        else Raise UnicodeDecodeError
      | _ => Raise UnicodeDecodeError
      end
    else Raise UnicodeDecodeError
  end.

(** ** str.rstrip(chars) *)

Definition char_in (chars : pystr) (c : Z) : bool := existsb (Z.eqb c) chars.

Fixpoint lstrip (chars : pystr) (s : pystr) : pystr :=
  match s with
  | c :: rest => if char_in chars c then lstrip chars rest else s
  | [] => []
  end.

Definition rstrip (chars : pystr) (s : pystr) : pystr :=
  rev (lstrip chars (rev s)).

(** ** base64.urlsafe_b64encode *)

Definition table_b2a_base64 : list Z :=
  lit "ABCDEFGHIJKLMNOPQRSTUVWXYZabcdefghijklmnopqrstuvwxyz0123456789+/".

Definition BASE64_PAD : Z := 61.

Definition b2a (i : Z) : Z := nth (Z.to_nat (Z.land i 0x3f)) table_b2a_base64 0.

Fixpoint b2a_base64 (data : bytes) : bytes :=
  match data with
  | [] => []
  | [a] =>
    [b2a (Z.shiftr a 2); b2a (Z.shiftl (Z.land a 3) 4); BASE64_PAD; BASE64_PAD]
  | [a; b] =>
    [b2a (Z.shiftr a 2);
     b2a (Z.lor (Z.shiftl (Z.land a 3) 4) (Z.shiftr b 4));
     b2a (Z.shiftl (Z.land b 0xf) 2); BASE64_PAD]
  | a :: b :: c :: rest =>
    b2a (Z.shiftr a 2)
    :: b2a (Z.lor (Z.shiftl (Z.land a 3) 4) (Z.shiftr b 4))
    :: b2a (Z.lor (Z.shiftl (Z.land b 0xf) 2) (Z.shiftr c 6))
    :: b2a c
    :: b2a_base64 rest
  end.

Definition b64encode (s : bytes) : bytes := b2a_base64 s.

Definition urlsafe_encode_translation (c : Z) : Z :=
  if c =? 43 then 45 else if c =? 47 then 95 else c.

Definition urlsafe_b64encode (s : bytes) : bytes :=
  map urlsafe_encode_translation (b64encode s).

(** * Python values reachable from a payload *)

Inductive float_char : Type :=
| F0 | F1 | F2 | F3 | F4 | F5 | F6 | F7 | F8 | F9
| FMinus | FPlus | FDot | FExp.

Inductive pyfloat : Type :=
| FNaN | FInf | FNegInf
| FFinite (repr : list float_char).

Inductive atom : Type :=
| PyNone
| PyBool (b : bool)
| PyInt (n : Z)
| PyFloat (x : pyfloat)
| PyStr (s : pystr)
| PyBytes (b : bytes).

Inductive pyval : Type :=
| Atom (a : atom)
| Ref (addr : nat).

Inductive pyobj : Type :=
| PyList (items : list pyval)
| PyTuple (items : list pyval)
| PyDict (items : list (atom * pyval)).

Definition heap : Type := list pyobj.

(** * json.dumps *)

Definition hex_digit (n : Z) : Z :=
  let d := Z.land n 15 in if d <? 10 then 48 + d else 87 + d.

Definition format_04x (n : Z) : pystr :=
  [hex_digit (Z.shiftr n 12); hex_digit (Z.shiftr n 8);
   hex_digit (Z.shiftr n 4); hex_digit n].

Definition backslash_u : pystr := [92; 117].

Definition ESCAPE_DCT (c : Z) : option pystr :=
  if c =? 92 then Some [92; 92]
  else if c =? 34 then Some [92; 34]
  else if c =? 8 then Some [92; 98]
  else if c =? 12 then Some [92; 102]
  else if c =? 10 then Some [92; 110]
  else if c =? 13 then Some [92; 114]
  else if c =? 9 then Some [92; 116]
  else if (0 <=? c) && (c <? 0x20) then Some (backslash_u ++ format_04x c)
  else None.

Definition ESCAPE_ASCII (c : Z) : bool :=
  (c =? 92) || (c =? 34) || negb ((32 <=? c) && (c <=? 126)).

Definition replace (c : Z) : pystr :=
  match ESCAPE_DCT c with
  | Some s => s
  | None =>
    if c <? 0x10000 then backslash_u ++ format_04x c
    else
      let n := c - 0x10000 in
      let s1 := Z.lor 0xd800 (Z.land (Z.shiftr n 10) 0x3ff) in
      let s2 := Z.lor 0xdc00 (Z.land n 0x3ff) in
      backslash_u ++ format_04x s1 ++ backslash_u ++ format_04x s2
  end.

Definition encode_basestring_ascii (s : pystr) : pystr :=
  [34] ++ flat_map (fun c => if ESCAPE_ASCII c then replace c else [c]) s ++ [34].

Fixpoint uint_chars (d : Decimal.uint) : pystr :=
  match d with
  | Decimal.Nil => []
  | Decimal.D0 r => 48 :: uint_chars r
  | Decimal.D1 r => 49 :: uint_chars r
  | Decimal.D2 r => 50 :: uint_chars r
  | Decimal.D3 r => 51 :: uint_chars r
  | Decimal.D4 r => 52 :: uint_chars r
  | Decimal.D5 r => 53 :: uint_chars r
  | Decimal.D6 r => 54 :: uint_chars r
  | Decimal.D7 r => 55 :: uint_chars r
  | Decimal.D8 r => 56 :: uint_chars r
  | Decimal.D9 r => 57 :: uint_chars r
  end.

Definition int_text (n : Z) : pystr :=
  match Z.to_int n with
  | Decimal.Pos d => uint_chars d
  | Decimal.Neg d => 45 :: uint_chars d
  end.

Definition int_digits (n : Z) : nat :=
  match Z.to_int n with
  | Decimal.Pos d | Decimal.Neg d => length (uint_chars d)
  end.

(** [sys.int_info.default_max_str_digits]: converting an int of more
    decimal digits to text raises ValueError. *)
Definition max_str_digits : nat := 4300.

Definition int_repr (n : Z) : result pystr :=
  if (max_str_digits <? int_digits n)%nat then Raise ValueError
  else Ok (int_text n).

Definition float_char_code (c : float_char) : Z :=
  match c with
  | F0 => 48 | F1 => 49 | F2 => 50 | F3 => 51 | F4 => 52
  | F5 => 53 | F6 => 54 | F7 => 55 | F8 => 56 | F9 => 57
  | FMinus => 45 | FPlus => 43 | FDot => 46 | FExp => 101
  end.

Definition float_repr (x : pyfloat) : pystr :=
  match x with
  | FNaN => lit "nan"
  | FInf => lit "inf"
  | FNegInf => lit "-inf"
  | FFinite repr => map float_char_code repr
  end.

Section Encoder.

Variable allow_nan : bool.
Variables item_separator key_separator : pystr.
Variable h : heap.

Definition floatstr (o : pyfloat) : result pystr :=
  match o with
  | FFinite _ => Ok (float_repr o)
  | _ =>
    let text := match o with
                | FNaN => lit "NaN"
                | FInf => lit "Infinity"
                | _ => lit "-Infinity"
                end in
    if allow_nan then Ok text else Raise ValueError
  end.

Definition encode_atom (o : atom) : result pystr :=
  match o with
  | PyStr s => Ok (encode_basestring_ascii s)
  | PyNone => Ok (lit "null")
  | PyBool true => Ok (lit "true")
  | PyBool false => Ok (lit "false")
  | PyInt n => int_repr n
  | PyFloat x => floatstr x
  | PyBytes _ => Raise TypeError
  end.

Definition key_text (key : atom) : result pystr :=
  match key with
  | PyStr s => Ok s
  | PyFloat x => floatstr x
  | PyBool true => Ok (lit "true")
  | PyBool false => Ok (lit "false")
  | PyNone => Ok (lit "null")
  | PyInt n => int_repr n
  | PyBytes _ => Raise TypeError
  end.

Fixpoint iterencode_list (enc : pyval -> result pystr) (first : bool)
    (lst : list pyval) : result pystr :=
  match lst with
  | [] => Ok []
  | value :: rest =>
    chunk <- enc value ;;
    more <- iterencode_list enc false rest ;;
    Ok ((if first then [] else item_separator) ++ chunk ++ more)
  end.

Fixpoint iterencode_dict (enc : pyval -> result pystr) (first : bool)
    (items : list (atom * pyval)) : result pystr :=
  match items with
  | [] => Ok []
  | (key, value) :: rest =>
    k <- key_text key ;;
    chunk <- enc value ;;
    more <- iterencode_dict enc false rest ;;
    Ok ((if first then [] else item_separator)
        ++ encode_basestring_ascii k ++ key_separator ++ chunk ++ more)
  end.

Definition in_markers (markers : list nat) (markerid : nat) : bool :=
  existsb (Nat.eqb markerid) markers.

(** [depth] is the number of nested containers the interpreter can still
    enter: every list, tuple and mapping is entered through a recursive call
    of the encoder, which raises RecursionError once the recursion limit is
    reached.  [markers] holds the containers being encoded. *)
Fixpoint iterencode (depth : nat) (markers : list nat) (o : pyval) : result pystr :=
  match o with
  | Atom a => encode_atom a
  | Ref markerid =>
    match nth_error h markerid with
    | None => Raise SystemError
    | Some container =>
      match depth with
      | O => Raise RecursionError
      | S depth' =>
        match container with
        | PyList lst | PyTuple lst =>
          match lst with
          | [] => Ok (lit "[]")
          | _ =>
            if in_markers markers markerid then Raise ValueError
            else
              body <- iterencode_list (iterencode depth' (markerid :: markers)) true lst ;;
              Ok (lit "[" ++ body ++ lit "]")
          end
        | PyDict dct =>
          match dct with
          | [] => Ok (lit "{}")
          | _ =>
            if in_markers markers markerid then Raise ValueError
            else
              body <- iterencode_dict (iterencode depth' (markerid :: markers)) true dct ;;
              Ok (lit "{" ++ body ++ lit "}")
          end
        end
      end
    end
  end.

End Encoder.

(** [json.dumps(obj, separators=separators)], all other options at their
    defaults (allow_nan=True, ensure_ascii=True, check_circular=True,
    skipkeys=False, sort_keys=False).  [depth_left] is how many levels of
    containers below [obj] itself the recursion limit of the interpreter
    (sys.getrecursionlimit(), less the frames already on the stack) still
    allows the encoder to enter. *)
Definition json_dumps (depth_left : nat) (h : heap) (obj : pyval) (separators : pystr * pystr)
  : result pystr :=
  iterencode true (fst separators) (snd separators) h (S depth_left) [] obj.

(** * The signer *)

Definition generate_upload_signature (depth_left : nat) (h : heap)
    (payload : pyval) (secret_key : pystr) : result pystr :=
  payload_json <- json_dumps depth_left h payload (lit ",", lit ":") ;;
  payload_utf8 <- str_encode payload_json ;;
  payload_b64 <- bytes_decode (urlsafe_b64encode payload_utf8) ;;
  let payload_base64 := rstrip (lit "=") payload_b64 in
  key <- str_encode secret_key ;;
  msg <- str_encode payload_base64 ;;
  let signature := hmac_digest key msg in
  signature_b64 <- bytes_decode (urlsafe_b64encode signature) ;;
  let signature_base64 := rstrip (lit "=") signature_b64 in
  Ok (payload_base64 ++ lit "." ++ signature_base64).

(** * Specification-side definitions *)

(** ** Payload content: the finite tree a heap value unfolds to *)

Inductive pytree : Type :=
| TAtom (a : atom)
| TList (items : list pytree)
| TTuple (items : list pytree)
| TDict (items : list (atom * pytree)).

Inductive unfolds (h : heap) : pyval -> pytree -> Prop :=
| unfolds_atom a : unfolds h (Atom a) (TAtom a)
| unfolds_list addr items ts :
    nth_error h addr = Some (PyList items) ->
    Forall2 (unfolds h) items ts ->
    unfolds h (Ref addr) (TList ts)
| unfolds_tuple addr items ts :
    nth_error h addr = Some (PyTuple items) ->
    Forall2 (unfolds h) items ts ->
    unfolds h (Ref addr) (TTuple ts)
| unfolds_dict addr items ts :
    nth_error h addr = Some (PyDict items) ->
    Forall2 (fun kv kt => fst kv = fst kt /\ unfolds h (snd kv) (snd kt)) items ts ->
    unfolds h (Ref addr) (TDict ts).

Fixpoint tree_size (t : pytree) : nat :=
  match t with
  | TAtom _ => 1
  | TList items | TTuple items =>
    S (fold_right (fun c n => S (tree_size c + n)) O items)
  | TDict items =>
    S (fold_right (fun kv n => S (tree_size (snd kv) + n)) O items)
  end.

Fixpoint tree_depth (t : pytree) : nat :=
  match t with
  | TAtom _ => 0
  | TList items | TTuple items => S (fold_right (fun c n => Nat.max (tree_depth c) n) O items)
  | TDict items => S (fold_right (fun kv n => Nat.max (tree_depth (snd kv)) n) O items)
  end.

(** Values, and mapping keys, that the encoder has a text for: everything
    but bytes, and ints within the digit limit. *)
Definition supported_value (a : atom) : bool :=
  match a with
  | PyBytes _ => false
  | PyInt n => (int_digits n <=? max_str_digits)%nat
  | _ => true
  end.

Fixpoint supported (t : pytree) : bool :=
  match t with
  | TAtom a => supported_value a
  | TList items | TTuple items => forallb supported items
  | TDict items => forallb (fun kv => supported_value (fst kv) && supported (snd kv)) items
  end.

(** A payload is serializable when it is acyclic (it unfolds to a finite
    tree), holds only supported values and keys, and nests no deeper than the
    interpreter can recurse. *)
Definition serializable (depth_left : nat) (h : heap) (v : pyval) : Prop :=
  exists t, unfolds h v t /\ supported t = true /\ (tree_depth t <= S depth_left)%nat.

Definition val_closed (h : heap) (v : pyval) : Prop :=
  match v with
  | Atom _ => True
  | Ref a => (a < length h)%nat
  end.

Definition obj_closed (h : heap) (o : pyobj) : Prop :=
  match o with
  | PyList items | PyTuple items => Forall (val_closed h) items
  | PyDict items => Forall (fun kv => val_closed h (snd kv)) items
  end.

Definition heap_closed (h : heap) : Prop := Forall (obj_closed h) h.

Definition is_serialization_error (e : pyexn) : bool :=
  match e with
  | TypeError | ValueError | RecursionError => true
  | _ => false
  end.

Definition nonfinite (a : atom) : bool :=
  match a with
  | PyFloat FNaN | PyFloat FInf | PyFloat FNegInf => true
  | _ => false
  end.

(** The JavaScript names under which the non-finite floats are written. *)
Definition nonfinite_text (a : atom) : pystr :=
  match a with
  | PyFloat FNaN => lit "NaN"
  | PyFloat FInf => lit "Infinity"
  | PyFloat FNegInf => lit "-Infinity"
  | _ => []
  end.

(** ** Canonical JSON text of a payload tree *)

Fixpoint intercalate (sep : pystr) (parts : list pystr) : pystr :=
  match parts with
  | [] => []
  | p :: rest =>
    match rest with
    | [] => p
    | _ => p ++ sep ++ intercalate sep rest
    end
  end.

Fixpoint sequence {A : Type} (l : list (result A)) : result (list A) :=
  match l with
  | [] => Ok []
  | c :: rest =>
    x <- c ;;
    xs <- sequence rest ;;
    Ok (x :: xs)
  end.

Fixpoint canonicalJSON (t : pytree) : result pystr :=
  match t with
  | TAtom a => encode_atom true a
  | TList items | TTuple items =>
    parts <- sequence (map canonicalJSON items) ;;
    Ok (lit "[" ++ intercalate (lit ",") parts ++ lit "]")
  | TDict items =>
    parts <- sequence (map (fun kv =>
               k <- key_text true (fst kv) ;;
               v <- canonicalJSON (snd kv) ;;
               Ok (encode_basestring_ascii k ++ lit ":" ++ v)) items) ;;
    Ok (lit "{" ++ intercalate (lit ",") parts ++ lit "}")
  end.

(** Whitespace that is not part of a string literal. *)

Definition is_ws (c : Z) : bool := (c =? 32) || (c =? 9) || (c =? 10) || (c =? 13).

Fixpoint insignificant_ws (in_string escaped : bool) (s : pystr) : bool :=
  match s with
  | [] => false
  | c :: r =>
    if in_string then
      if escaped then insignificant_ws true false r
      else if c =? 92 then insignificant_ws true true r
      else if c =? 34 then insignificant_ws false false r
      else insignificant_ws true false r
    else
      if is_ws c then true
      else if c =? 34 then insignificant_ws true false r
      else insignificant_ws false false r
  end.

(** ** URL-safe base64 without padding (RFC 4648, section 5) *)

Definition base64url_alphabet : list Z :=
  lit "ABCDEFGHIJKLMNOPQRSTUVWXYZabcdefghijklmnopqrstuvwxyz0123456789-_".

Definition sextet_char (i : Z) : Z := nth (Z.to_nat i) base64url_alphabet 0.

Fixpoint BASE64URL_NOPAD (data : bytes) : pystr :=
  match data with
  | [] => []
  | [a] =>
    let n := a * 16 in
    [sextet_char (n / 64); sextet_char (n mod 64)]
  | [a; b] =>
    let n := (a * 256 + b) * 4 in
    [sextet_char (n / 4096); sextet_char (n / 64 mod 64); sextet_char (n mod 64)]
  | a :: b :: c :: rest =>
    let n := a * 65536 + b * 256 + c in
    sextet_char (n / 262144) :: sextet_char (n / 4096 mod 64)
    :: sextet_char (n / 64 mod 64) :: sextet_char (n mod 64)
    :: BASE64URL_NOPAD rest
  end.

(** ** HMAC-SHA256 (RFC 2104 with H = SHA-256, B = 64) *)

Definition xor_bytes (a b : bytes) : bytes :=
  map (fun xy => Z.lxor (fst xy) (snd xy)) (combine a b).

Definition ipad : bytes := repeat 0x36 64.
Definition opad : bytes := repeat 0x5C 64.

Definition HMAC_SHA256 (key text : bytes) : bytes :=
  let k := if (64 <? length key)%nat then SHA256.sha256 key else key in
  let k0 := k ++ repeat 0 (64 - length k) in
  SHA256.sha256 (xor_bytes k0 opad ++ SHA256.sha256 (xor_bytes k0 ipad ++ text)).

(** The bytes of an ASCII text: every character is its own byte. *)
Definition ascii_bytes (s : pystr) : bytes := s.

(** The token format of the specification. *)
Definition token_format (json : pystr) (key : bytes) : pystr :=
  let encodedPayload := BASE64URL_NOPAD (ascii_bytes json) in
  let encodedSignature := BASE64URL_NOPAD (HMAC_SHA256 key (ascii_bytes encodedPayload)) in
  encodedPayload ++ lit "." ++ encodedSignature.

Definition is_byte (b : Z) : bool := (0 <=? b) && (b <? 256).
Definition is_ascii (c : Z) : bool := (0 <=? c) && (c <? 128).
Definition is_code_point (c : Z) : bool := (0 <=? c) && (c <=? 0x10FFFF).

(** ** The verifier side: splitting, decoding, parsing *)

Fixpoint split_on (sep : Z) (s : pystr) : list pystr :=
  match s with
  | [] => [[]]
  | c :: r =>
    if c =? sep then [] :: split_on sep r
    else
      match split_on sep r with
      | seg :: segs => (c :: seg) :: segs
      | [] => [[c]]
      end
  end.

Definition token_alphabet (c : Z) : bool :=
  ((65 <=? c) && (c <=? 90)) || ((97 <=? c) && (c <=? 122))
  || ((48 <=? c) && (c <=? 57)) || (c =? 95) || (c =? 46) || (c =? 45).

Definition restore_padding (s : pystr) : pystr :=
  s ++ repeat 61 ((4 - length s mod 4) mod 4).

Definition sextet_of_char (c : Z) : option Z :=
  if (65 <=? c) && (c <=? 90) then Some (c - 65)
  else if (97 <=? c) && (c <=? 122) then Some (c - 71)
  else if (48 <=? c) && (c <=? 57) then Some (c + 4)
  else if c =? 45 then Some 62
  else if c =? 95 then Some 63
  else None.

Definition omap2 {A B C : Type} (f : A -> B -> C) (x : option A) (y : option B) : option C :=
  match x, y with
  | Some a, Some b => Some (f a b)
  | _, _ => None
  end.

Fixpoint urlsafe_b64decode (s : pystr) : option bytes :=
  match s with
  | [] => Some []
  | c0 :: c1 :: c2 :: c3 :: rest =>
    match sextet_of_char c0, sextet_of_char c1 with
    | Some s0, Some s1 =>
      let b0 := Z.lor (Z.shiftl s0 2) (Z.shiftr s1 4) in
      if c3 =? 61 then
        match rest with
        | [] =>
          if c2 =? 61 then Some [b0]
          else
            match sextet_of_char c2 with
            | Some s2 =>
              Some [b0; Z.lor (Z.shiftl (Z.land s1 15) 4) (Z.shiftr s2 2)]
            | None => None
            end
        | _ => None
        end
      else
        match sextet_of_char c2, sextet_of_char c3, urlsafe_b64decode rest with
        | Some s2, Some s3, Some more =>
          Some (b0 :: Z.lor (Z.shiftl (Z.land s1 15) 4) (Z.shiftr s2 2)
                   :: Z.lor (Z.shiftl (Z.land s2 3) 6) s3 :: more)
        | _, _, _ => None
        end
    | _, _ => None
    end
  | _ => None
  end.

(** ** A JSON reader (RFC 8259) producing payload trees *)

Definition is_digit (c : Z) : bool := (48 <=? c) && (c <=? 57).

Definition hex_value (c : Z) : option Z :=
  if is_digit c then Some (c - 48)
  else if (97 <=? c) && (c <=? 102) then Some (c - 87)
  else if (65 <=? c) && (c <=? 70) then Some (c - 55)
  else None.

Definition hex4 (a b c d : Z) : option Z :=
  match hex_value a, hex_value b, hex_value c, hex_value d with
  | Some x3, Some x2, Some x1, Some x0 => Some (x3 * 4096 + x2 * 256 + x1 * 16 + x0)
  | _, _, _, _ => None
  end.

Definition is_high_surrogate (u : Z) : bool := (0xD800 <=? u) && (u <=? 0xDBFF).
Definition is_low_surrogate (u : Z) : bool := (0xDC00 <=? u) && (u <=? 0xDFFF).
Definition combine_surrogates (hi lo : Z) : Z :=
  0x10000 + (hi - 0xD800) * 1024 + (lo - 0xDC00).

Definition simple_escape (e : Z) : option Z :=
  if e =? 34 then Some 34
  else if e =? 92 then Some 92
  else if e =? 47 then Some 47
  else if e =? 98 then Some 8
  else if e =? 102 then Some 12
  else if e =? 110 then Some 10
  else if e =? 114 then Some 13
  else if e =? 116 then Some 9
  else None.

Definition push_char (c : Z) (r : option (pystr * pystr)) : option (pystr * pystr) :=
  match r with
  | Some (s, rest) => Some (c :: s, rest)
  | None => None
  end.

(** [scan_string s] reads a string literal whose opening quote has been
    consumed; it returns the decoded characters and the text after the
    closing quote. *)
Fixpoint scan_string (s : pystr) : option (pystr * pystr) :=
  match s with
  | [] => None
  | c :: r =>
    if c =? 34 then Some ([], r)
    else if c =? 92 then
      match r with
      | [] => None
      | e :: r1 =>
        if e =? 117 then
          match r1 with
          | g0 :: g1 :: g2 :: g3 :: r2 =>
            match hex4 g0 g1 g2 g3 with
            | None => None
            | Some u =>
              if is_high_surrogate u then
                match r2 with
                | bs :: uu :: k0 :: k1 :: k2 :: k3 :: r3 =>
                  match (if (bs =? 92) && (uu =? 117) then hex4 k0 k1 k2 k3 else None) with
                  | Some u2 =>
                    if is_low_surrogate u2
                    then push_char (combine_surrogates u u2) (scan_string r3)
                    else push_char u (scan_string r2)
                  | None => push_char u (scan_string r2)
                  end
                | _ => push_char u (scan_string r2)
                end
              else push_char u (scan_string r2)
            end
          | _ => None
          end
        else
          match simple_escape e with
          | Some x => push_char x (scan_string r1)
          | None => None
          end
      end
    else if c <? 32 then None
    else push_char c (scan_string r)
  end.

Fixpoint span (p : Z -> bool) (s : pystr) : pystr * pystr :=
  match s with
  | [] => ([], [])
  | c :: r =>
    if p c then let (a, b) := span p r in (c :: a, b)
    else ([], s)
  end.

Definition is_number_char (c : Z) : bool :=
  is_digit c || (c =? 45) || (c =? 43) || (c =? 46) || (c =? 101) || (c =? 69).

Definition strip_minus (s : pystr) : pystr :=
  match s with
  | c :: r => if c =? 45 then r else s
  | [] => []
  end.

Definition is_nil {A : Type} (l : list A) : bool :=
  match l with
  | [] => true
  | _ => false
  end.

Definition int_part_ok (ds : pystr) : bool :=
  match ds with
  | [] => false
  | d :: r => forallb is_digit ds && (negb (d =? 48) || is_nil r)
  end.

Definition exponent_ok (s : pystr) : bool :=
  match s with
  | e :: r =>
    ((e =? 101) || (e =? 69)) &&
    let ds := match r with
              | sg :: r' => if (sg =? 43) || (sg =? 45) then r' else r
              | [] => []
              end in
    negb (is_nil ds) && forallb is_digit ds
  | [] => false
  end.

Definition is_int_text (s : pystr) : bool := int_part_ok (strip_minus s).

Definition is_float_text (s : pystr) : bool :=
  let (ip, r1) := span is_digit (strip_minus s) in
  int_part_ok ip &&
  match r1 with
  | [] => false
  | c :: r2 =>
    if c =? 46 then
      let (fd, r3) := span is_digit r2 in
      negb (is_nil fd) && (is_nil r3 || exponent_ok r3)
    else exponent_ok r1
  end.

Fixpoint chars_uint (ds : pystr) : Decimal.uint :=
  match ds with
  | [] => Decimal.Nil
  | d :: r =>
    let u := chars_uint r in
    if d =? 48 then Decimal.D0 u else if d =? 49 then Decimal.D1 u
    else if d =? 50 then Decimal.D2 u else if d =? 51 then Decimal.D3 u
    else if d =? 52 then Decimal.D4 u else if d =? 53 then Decimal.D5 u
    else if d =? 54 then Decimal.D6 u else if d =? 55 then Decimal.D7 u
    else if d =? 56 then Decimal.D8 u else Decimal.D9 u
  end.

Definition int_value (s : pystr) : Z :=
  match s with
  | c :: r =>
    if c =? 45 then Z.of_int (Decimal.Neg (chars_uint r))
    else Z.of_int (Decimal.Pos (chars_uint s))
  | [] => 0
  end.

Definition float_char_of_code (c : Z) : float_char :=
  if c =? 48 then F0 else if c =? 49 then F1 else if c =? 50 then F2
  else if c =? 51 then F3 else if c =? 52 then F4 else if c =? 53 then F5
  else if c =? 54 then F6 else if c =? 55 then F7 else if c =? 56 then F8
  else if c =? 57 then F9 else if c =? 45 then FMinus else if c =? 43 then FPlus
  else if c =? 46 then FDot else FExp.

(** [int] refuses a literal of more than 4300 digits; a float is kept as
    the text that denotes it. *)
Definition number_of_text (s : pystr) : option atom :=
  if is_int_text s then
    if (max_str_digits <? length (strip_minus s))%nat then None
    else Some (PyInt (int_value s))
  else if is_float_text s then Some (PyFloat (FFinite (map float_char_of_code s)))
  else None.

Fixpoint strip_prefix (p s : pystr) : option pystr :=
  match p with
  | [] => Some s
  | x :: p' =>
    match s with
    | c :: r => if c =? x then strip_prefix p' r else None
    | [] => None
    end
  end.

Definition skip_ws (s : pystr) : pystr := lstrip [32; 9; 10; 13] s.

(** The members of a parsed object are stored into a dict one after the
    other: a name seen before keeps its place and takes the later value. *)
Fixpoint text_eqb (a b : pystr) : bool :=
  match a, b with
  | [], [] => true
  | x :: a', y :: b' => (x =? y) && text_eqb a' b'
  | _, _ => false
  end.

Fixpoint dict_set (k : pystr) (v : pytree) (d : list (pystr * pytree))
  : list (pystr * pytree) :=
  match d with
  | [] => [(k, v)]
  | (k', v') :: r => if text_eqb k k' then (k', v) :: r else (k', v') :: dict_set k v r
  end.

Definition dict_of_pairs (pairs : list (pystr * pytree)) : list (pystr * pytree) :=
  fold_left (fun d kv => dict_set (fst kv) (snd kv) d) pairs [].

Definition str_keys (d : list (pystr * pytree)) : list (atom * pytree) :=
  map (fun kv => (PyStr (fst kv), snd kv)) d.

(** The constants of the reader: the three JSON literals and the three
    names of the non-finite floats. *)
Definition constants : list (pystr * atom) :=
  [(lit "null", PyNone); (lit "true", PyBool true); (lit "false", PyBool false);
   (lit "NaN", PyFloat FNaN); (lit "Infinity", PyFloat FInf);
   (lit "-Infinity", PyFloat FNegInf)].

Fixpoint match_constant (cs : list (pystr * atom)) (s : pystr) : option (atom * pystr) :=
  match cs with
  | [] => None
  | (name, a) :: cs' =>
    match strip_prefix name s with
    | Some r => Some (a, r)
    | None => match_constant cs' s
    end
  end.

(** [parse_value fuel depth s] reads one value from the front of [s].
    [depth] is the number of nested arrays and objects the reader may still
    enter; [fuel] bounds the work and is never the reason of a failure when
    it is the length of the text.  [None] stands for the exception of the
    reader (JSONDecodeError, or RecursionError when [depth] runs out). *)
Fixpoint parse_value (fuel depth : nat) (s : pystr) {struct fuel}
  : option (pytree * pystr) :=
  match fuel with
  | O => None
  | S f =>
    match skip_ws s with
    | [] => None
    | c :: r =>
      if c =? 34 then
        match scan_string r with
        | Some (str, r') => Some (TAtom (PyStr str), r')
        | None => None
        end
      else if c =? 91 then
        match depth with
        | O => None
        | S d =>
          match skip_ws r with
          | c2 :: r2 =>
            if c2 =? 93 then Some (TList [], r2)
            else
              match parse_elements f d r with
              | Some (vs, r') => Some (TList vs, r')
              | None => None
              end
          | [] => None
          end
        end
      else if c =? 123 then
        match depth with
        | O => None
        | S d =>
          match skip_ws r with
          | c2 :: r2 =>
            if c2 =? 125 then Some (TDict [], r2)
            else
              match parse_members f d r with
              | Some (kvs, r') => Some (TDict (str_keys (dict_of_pairs kvs)), r')
              | None => None
              end
          | [] => None
          end
        end
      else
        match match_constant constants (c :: r) with
        | Some (a, r') => Some (TAtom a, r')
        | None =>
          let (text, r') := span is_number_char (c :: r) in
          match number_of_text text with
          | Some a => Some (TAtom a, r')
          | None => None
          end
        end
    end
  end

with parse_elements (fuel depth : nat) (s : pystr) {struct fuel}
  : option (list pytree * pystr) :=
  match fuel with
  | O => None
  | S f =>
    match parse_value f depth s with
    | None => None
    | Some (v, r) =>
      match skip_ws r with
      | c :: r' =>
        if c =? 44 then
          match parse_elements f depth r' with
          | Some (vs, r'') => Some (v :: vs, r'')
          | None => None
          end
        else if c =? 93 then Some ([v], r')
        else None
      | [] => None
      end
    end
  end

with parse_members (fuel depth : nat) (s : pystr) {struct fuel}
  : option (list (pystr * pytree) * pystr) :=
  match fuel with
  | O => None
  | S f =>
    match skip_ws s with
    | q :: r0 =>
      if q =? 34 then
        match scan_string r0 with
        | None => None
        | Some (key, r1) =>
          match skip_ws r1 with
          | colon :: r2 =>
            if colon =? 58 then
              match parse_value f depth r2 with
              | None => None
              | Some (v, r3) =>
                match skip_ws r3 with
                | c :: r4 =>
                  if c =? 44 then
                    match parse_members f depth r4 with
                    | Some (kvs, r5) => Some ((key, v) :: kvs, r5)
                    | None => None
                    end
                  else if c =? 125 then Some ([(key, v)], r4)
                  else None
                | [] => None
                end
              end
            else None
          | [] => None
          end
        end
      else None
    | [] => None
    end
  end.

(** [json.loads(s)] with room for [S depth_left] nested containers. *)
Definition json_loads (depth_left : nat) (s : pystr) : option pytree :=
  match parse_value (length s) (S depth_left) s with
  | Some (t, r) => if is_nil (skip_ws r) then Some t else None
  | None => None
  end.

(** ** JSON type fidelity *)

Definition key_view (k : atom) : atom :=
  match key_text true k with
  | Ok s => PyStr s
  | Raise _ => k
  end.

Fixpoint json_view (t : pytree) : pytree :=
  match t with
  | TAtom a => TAtom a
  | TList items | TTuple items => TList (map json_view items)
  | TDict items => TDict (map (fun kv => (key_view (fst kv), json_view (snd kv))) items)
  end.

(** A str that a reader gives back unchanged: nowhere a high surrogate is
    directly followed by a low surrogate (the two would be read as one
    supplementary character). *)
Fixpoint text_ok (s : pystr) : bool :=
  match s with
  | [] => true
  | c :: r =>
    is_code_point c
    && negb (is_high_surrogate c
             && match r with
                | c' :: _ => is_low_surrogate c'
                | [] => false
                end)
    && text_ok r
  end.

(** Values that are read back equal: everything but NaN (which equals
    nothing), bytes, and a str with a surrogate pair.  A finite float is
    given by its repr, which is a JSON number with a fraction or an
    exponent. *)
Definition atom_faithful (a : atom) : bool :=
  match a with
  | PyNone | PyBool _ | PyInt _ => true
  | PyFloat (FFinite repr) => is_float_text (map float_char_code repr)
  | PyFloat FNaN => false
  | PyFloat _ => true
  | PyStr s => text_ok s
  | PyBytes _ => false
  end.

(** Keys are read back as the str they were written as. *)
Definition key_faithful (k : atom) : bool :=
  match k with
  | PyStr s => text_ok s
  | PyBytes _ => false
  | _ => true
  end.

Fixpoint json_faithful (t : pytree) : bool :=
  match t with
  | TAtom a => atom_faithful a
  | TList items | TTuple items => forallb json_faithful items
  | TDict items => forallb (fun kv => key_faithful (fst kv) && json_faithful (snd kv)) items
  end.

(** The name under which a key is written, and payloads whose mappings
    have no two keys written under one name. *)
Definition key_name (k : atom) : pystr :=
  match key_text true k with
  | Ok s => s
  | Raise _ => []
  end.

Fixpoint distinct (names : list pystr) : bool :=
  match names with
  | [] => true
  | n :: r => negb (existsb (text_eqb n) r) && distinct r
  end.

Fixpoint distinct_keys (t : pytree) : bool :=
  match t with
  | TAtom _ => true
  | TList items | TTuple items => forallb distinct_keys items
  | TDict items =>
    distinct (map (fun kv => key_name (fst kv)) items)
    && forallb (fun kv => distinct_keys (snd kv)) items
  end.

Fixpoint json_native (t : pytree) : bool :=
  match t with
  | TAtom _ => true
  | TList items => forallb json_native items
  | TTuple _ => false
  | TDict items =>
    forallb (fun kv => match fst kv with PyStr _ => json_native (snd kv) | _ => false end) items
  end.

(** * Concrete payloads *)

(** The regression vector of the specification:
    payload [{"user_id": 42, "action": "upload"}], secret ["test-secret"]. *)
Definition example_items : list (atom * pyval) :=
  [(PyStr (lit "user_id"), Atom (PyInt 42));
   (PyStr (lit "action"), Atom (PyStr (lit "upload")))].
Definition example_heap : heap := [PyDict example_items].
Definition example_payload : pyval := Ref 0.
Definition example_tree : pytree :=
  TDict [(PyStr (lit "user_id"), TAtom (PyInt 42));
         (PyStr (lit "action"), TAtom (PyStr (lit "upload")))].
Definition example_secret : pystr := lit "test-secret".
Definition example_token : pystr :=
  lit "eyJ1c2VyX2lkIjo0MiwiYWN0aW9uIjoidXBsb2FkIn0.xAo4AJggBRgq-ru5P8TqLCDTQOhibLMJt9X1WsFTZEA".

(** The same mapping stored at another address of another heap. *)
Definition moved_heap : heap := [PyList []; PyDict example_items].
Definition moved_payload : pyval := Ref 1.

(** [{"x": float("nan")}] *)
Definition nan_heap : heap := [PyDict [(PyStr (lit "x"), Atom (PyFloat FNaN))]].
Definition nan_token : pystr :=
  lit "eyJ4IjpOYU59.2JbUtUrIjjd5Uv5lBKa24i3cOqsiqD_U4UbsWIGzdcc".

(** [{}] *)
Definition empty_heap : heap := [PyDict []].
Definition empty_token : pystr :=
  lit "e30.AQO4M4Bos06UKl4BSYyK-290sGk8_YP6QPZUd_SW1SE".

(** A list that contains itself: [l = []; l.append(l)]. *)
Definition cyclic_heap : heap := [PyList [Ref 0]].

(** A secret with a lone surrogate, and two secrets that differ by a NUL. *)
Definition surrogate_secret : pystr := [0xD800].
Definition secret_a : pystr := [97].
Definition secret_a_nul : pystr := [97; 0].

(** A recursion budget for the examples: the default limit of 1000 frames
    less a few frames of the caller. *)
Definition example_depth : nat := 990.

(** Three lists nested in each other: [[[[]]]]. *)
Definition nested_heap : heap := [PyList [Ref 1]; PyList [Ref 2]; PyList []].

(** [{"n": 10 ** 4300}], an int of 4301 digits. *)
Definition big_int : Z := 10 ^ 4300.
Definition big_int_heap : heap := [PyDict [(PyStr (lit "n"), Atom (PyInt big_int))]].

(** [{"b": b"\x01"}] *)
Definition bytes_heap : heap := [PyDict [(PyStr (lit "b"), Atom (PyBytes [1]))]].


(** [(1, 2)] and [[1, 2]] *)
Definition tuple_heap : heap := [PyTuple [Atom (PyInt 1); Atom (PyInt 2)]].
Definition list_heap : heap := [PyList [Atom (PyInt 1); Atom (PyInt 2)]].

(** [d = {}; [d, d]]: one mapping held twice by a list. *)
Definition shared_heap : heap := [PyList [Ref 1; Ref 1]; PyDict []].

(** [{"k": "\ud83d\ude00"}]: a str of two code points, a high and a low
    surrogate; and what a reader makes of its serialization. *)
Definition pair_heap : heap := [PyDict [(PyStr (lit "k"), Atom (PyStr [0xD83D; 0xDE00]))]].
Definition pair_tree : pytree := TDict [(PyStr (lit "k"), TAtom (PyStr [0xD83D; 0xDE00]))].
Definition pair_read : pytree := TDict [(PyStr (lit "k"), TAtom (PyStr [0x1F600]))].
Definition pair_token : pystr :=
  lit "eyJrIjoiXHVkODNkXHVkZTAwIn0.tX9nBGb6DXkJ84qxhbeQ5duQYsvKHWpcNMMPACzmMRQ".

(** The token of [{}] under the empty secret. *)
Definition empty_secret_token : pystr :=
  lit "e30.jo-YjqF6MDmLc9AbGPCMTOYoRLSwiiHOU-a2rq9BYng".

(** * Auxiliary definitions used in the proofs *)

Section PytreeInduction.

Variable P : pytree -> Prop.
Hypothesis P_atom : forall a, P (TAtom a).
Hypothesis P_list : forall items, Forall P items -> P (TList items).
Hypothesis P_tuple : forall items, Forall P items -> P (TTuple items).
Hypothesis P_dict : forall items, Forall (fun kv => P (snd kv)) items -> P (TDict items).

Fixpoint pytree_induction (t : pytree) : P t :=
  match t with
  | TAtom a => P_atom a
  | TList items =>
    P_list items
      ((fix go (l : list pytree) : Forall P l :=
          match l with
          | [] => Forall_nil P
          | x :: r => Forall_cons x (pytree_induction x) (go r)
          end) items)
  | TTuple items =>
    P_tuple items
      ((fix go (l : list pytree) : Forall P l :=
          match l with
          | [] => Forall_nil P
          | x :: r => Forall_cons x (pytree_induction x) (go r)
          end) items)
  | TDict items =>
    P_dict items
      ((fix go (l : list (atom * pytree)) : Forall (fun kv => P (snd kv)) l :=
          match l with
          | [] => Forall_nil _
          | (k, v) :: r =>
            Forall_cons (P := fun kv => P (snd kv)) (k, v) (pytree_induction v) (go r)
          end) items)
  end.

End PytreeInduction.

Definition joined (first : bool) (sep : pystr) (parts : list pystr) : pystr :=
  match parts with
  | [] => []
  | _ => (if first then @nil Z else sep) ++ intercalate sep parts
  end.

(** One member of an object, its value encoded by [f]. *)
Definition member_with (f : pytree -> result pystr) (kv : atom * pytree) : result pystr :=
  k <- key_text true (fst kv) ;;
  v <- f (snd kv) ;;
  Ok (encode_basestring_ascii k ++ lit ":" ++ v).

Definition member_text (kv : atom * pytree) : result pystr := member_with canonicalJSON kv.

(** The encoder on trees: [iterencode] without the heap. *)
Fixpoint encode_tree (depth : nat) (t : pytree) : result pystr :=
  match t with
  | TAtom a => encode_atom true a
  | TList items | TTuple items =>
    match depth with
    | O => Raise RecursionError
    | S depth' =>
      parts <- sequence (map (encode_tree depth') items) ;;
      Ok (lit "[" ++ intercalate (lit ",") parts ++ lit "]")
    end
  | TDict items =>
    match depth with
    | O => Raise RecursionError
    | S depth' =>
      parts <- sequence (map (fun kv =>
                 k <- key_text true (fst kv) ;;
                 v <- encode_tree depth' (snd kv) ;;
                 Ok (encode_basestring_ascii k ++ lit ":" ++ v)) items) ;;
      Ok (lit "{" ++ intercalate (lit ",") parts ++ lit "}")
    end
  end.

Definition above (h : heap) (markers : list nat) (t : pytree) : Prop :=
  forall m tm, In m markers -> unfolds h (Ref m) tm -> (tree_size t < tree_size tm)%nat.

(** What may follow a value inside a JSON text: nothing, or one of the
    delimiters [,], []] and [}]. *)
Definition stops (rest : pystr) : bool :=
  match rest with
  | [] => true
  | c :: _ => (c =? 44) || (c =? 93) || (c =? 125)
  end.

Definition kibi_range : list Z := map Z.of_nat (seq 0 1024).

(** The text ahead starts with the escape of a low surrogate. *)
Definition low_escape_ahead (x : pystr) : bool :=
  match x with
  | bs :: uu :: k0 :: k1 :: k2 :: k3 :: _ =>
    match (if (bs =? 92) && (uu =? 117) then hex4 k0 k1 k2 k3 else None) with
    | Some u2 => is_low_surrogate u2
    | None => false
    end
  | _ => false
  end.

Definition escaped (s : pystr) : pystr :=
  flat_map (fun c => if ESCAPE_ASCII c then replace c else [c]) s.

(** A number text starts with a digit, or with a minus sign and a digit. *)
Definition number_head (s : pystr) : bool :=
  match s with
  | [] => false
  | c :: r =>
    is_digit c
    || ((c =? 45) && match r with
                     | d :: _ => is_digit d
                     | [] => false
                     end)
  end.

(** The reader, given enough fuel, reads the text of [t] back as
    [json_view t] and stops where the text ends. *)
Definition reads_back (t : pytree) : Prop :=
  forall json, canonicalJSON t = Ok json ->
  json_faithful t = true -> distinct_keys t = true ->
  forall fuel depth rest,
    (tree_size t <= fuel)%nat -> (tree_depth t <= depth)%nat -> stops rest = true ->
    parse_value fuel depth (json ++ rest) = Some (json_view t, rest).

Definition member_view (kv : atom * pytree) : pystr * pytree :=
  (key_name (fst kv), json_view (snd kv)).

(** A payload tree with every tuple replaced by the list of its items. *)
Fixpoint listify (t : pytree) : pytree :=
  match t with
  | TAtom a => TAtom a
  | TList items | TTuple items => TList (map listify items)
  | TDict items => TDict (map (fun kv => (fst kv, listify (snd kv))) items)
  end.

Definition printable (c : Z) : bool := (32 <=? c) && (c <=? 126).

(** Characters that are no whitespace and do not open a string literal. *)
Definition bare (c : Z) : bool := negb (is_ws c) && negb (c =? 34).

Definition byte_range : list Z := map Z.of_nat (seq 0 256).

Definition sextet_range : list Z := map Z.of_nat (seq 0 64).

Definition b64url_char (c : Z) : bool :=
  ((65 <=? c) && (c <=? 90)) || ((97 <=? c) && (c <=? 122))
  || ((48 <=? c) && (c <=? 57)) || (c =? 95) || (c =? 45).

Definition q0 (a : Z) : Z := a / 4.

Definition q1 (a b : Z) : Z := a mod 4 * 16 + b / 16.

Definition q2 (b c : Z) : Z := b mod 16 * 4 + c / 64.

Definition q3 (c : Z) : Z := c mod 64.

Fixpoint padding (data : bytes) : pystr :=
  match data with
  | [] => []
  | [_] => [61; 61]
  | [_; _] => [61]
  | _ :: _ :: _ :: rest => padding rest
  end.

Fixpoint nopad_length (n : nat) : nat :=
  match n with
  | 0 => 0
  | 1 => 2
  | 2 => 3
  | S (S (S m)) => 4 + nopad_length m
  end%nat.

Record token_shape (token payload_segment signature_segment : pystr) : Prop := {
  shape_eq : token = payload_segment ++ lit "." ++ signature_segment;
  shape_payload : forallb b64url_char payload_segment = true;
  shape_signature : forallb b64url_char signature_segment = true;
  shape_signature_length : length signature_segment = 43%nat
}.

(** * Results *)

(** ** Induction over payload trees *)


(** ** The exception monad *)

Lemma bind_Ok {A B : Type} (c : result A) (k : A -> result B) (b : B) :
  bind c k = Ok b -> exists a, c = Ok a /\ k a = Ok b.
Proof.
  destruct c as [a|e]; simpl; intros H; [exists a; auto | discriminate].
Qed.

Lemma bind_Raise {A B : Type} (c : result A) (k : A -> result B) (e : pyexn) :
  bind c k = Raise e -> c = Raise e \/ exists a, c = Ok a /\ k a = Raise e.
Proof.
  destruct c as [a|e']; simpl; intros H; [right; exists a; auto | left; congruence].
Qed.

Ltac inv H := inversion H; subst; clear H.

Ltac bind_inv H :=
  let a := fresh "x" in
  let Ha := fresh "Hx" in
  apply bind_Ok in H; destruct H as (a & Ha & H).

(** ** Sizes of payload trees *)

Lemma tree_size_pos t : (0 < tree_size t)%nat.
Proof. destruct t; simpl; lia. Qed.

Lemma tree_size_child t items :
  In t items ->
  (tree_size t < S (fold_right (fun c n => S (tree_size c + n)) O items))%nat.
Proof.
  induction items as [|x r IH]; simpl; [tauto|].
  intros [->|Hin]; [lia | specialize (IH Hin); lia].
Qed.

Lemma tree_size_member (kv : atom * pytree) items :
  In kv items ->
  (tree_size (snd kv) < S (fold_right (fun kv n => S (tree_size (snd kv) + n)) O items))%nat.
Proof.
  induction items as [|x r IH]; simpl; [tauto|].
  intros [->|Hin]; [lia | specialize (IH Hin); lia].
Qed.

(** ** A heap value unfolds to at most one tree *)

Lemma Forall2_functional {A B : Type} (R : A -> B -> Prop) (l : list A) (l1 l2 : list B) :
  Forall (fun b => forall a b', R a b -> R a b' -> b = b') l1 ->
  Forall2 R l l1 -> Forall2 R l l2 -> l1 = l2.
Proof.
  intros HF H1. revert l2 HF.
  induction H1 as [|a b l l1 Hab H1 IH]; intros l2 HF H2; inv H2; [reflexivity|].
  inv HF. f_equal; eauto.
Qed.

Lemma unfolds_functional h t : forall v t', unfolds h v t -> unfolds h v t' -> t = t'.
Proof.
  induction t as [a|items IH|items IH|items IH] using pytree_induction;
    intros v t' H1 H2; inv H1; inv H2; try congruence.
  - f_equal. assert (items0 = items1) by congruence. subst items1.
    eapply Forall2_functional; eauto.
  - f_equal. assert (items0 = items1) by congruence. subst items1.
    eapply Forall2_functional; eauto.
  - f_equal. assert (items0 = items1) by congruence. subst items1.
    eapply Forall2_functional; [|eassumption|eassumption].
    eapply Forall_impl; [|exact IH].
    intros [k t] IHt [k0 v0] [k' t'] [Hk Hv] [Hk' Hv']; simpl in *.
    f_equal; [congruence | eauto].
Qed.

(** ** Sequencing results over a list *)

Lemma sequence_Ok {A B : Type} (f : A -> result B) (l : list A) :
  Forall (fun x => exists y, f x = Ok y) l -> exists ys, sequence (map f l) = Ok ys.
Proof.
  induction 1 as [|x l [y Hy] _ [ys IH]]; simpl; [eauto|].
  rewrite Hy, IH. simpl. eauto.
Qed.

Lemma sequence_Ok_inv {A B : Type} (f : A -> result B) (l : list A) : forall ys,
  sequence (map f l) = Ok ys -> Forall2 (fun x y => f x = Ok y) l ys.
Proof.
  induction l as [|x l IH]; intros ys H; simpl in H.
  - inv H. constructor.
  - bind_inv H. bind_inv H. inv H. constructor; auto.
Qed.

Lemma sequence_Forall2 {A B : Type} (f : A -> result B) (l : list A) (ys : list B) :
  Forall2 (fun x y => f x = Ok y) l ys -> sequence (map f l) = Ok ys.
Proof.
  induction 1 as [|x y l ys Hxy _ IH]; simpl; [reflexivity|]. now rewrite Hxy, IH.
Qed.

Lemma sequence_map_ext {A B : Type} (f g : A -> result B) (l : list A) :
  Forall (fun x => f x = g x) l -> sequence (map f l) = sequence (map g l).
Proof.
  induction 1 as [|x l Hx _ IH]; simpl; [reflexivity|]. now rewrite Hx, IH.
Qed.

Lemma Forall2_In_l {A B : Type} (R : A -> B -> Prop) (l : list A) (l' : list B) (x : A) :
  Forall2 R l l' -> In x l -> exists y, In y l' /\ R x y.
Proof.
  induction 1 as [|a b l l' Hab _ IH]; intros Hin; [destruct Hin|].
  destruct Hin as [<-|Hin].
  - exists b. split; [now left | assumption].
  - destruct (IH Hin) as (y & Hy & Hxy). exists y. split; [now right | assumption].
Qed.

Lemma Forall2_impl_In {A B : Type} (R R' : A -> B -> Prop) (l1 : list A) (l2 : list B) :
  Forall2 R l1 l2 ->
  (forall a b, In b l2 -> R a b -> R' a b) ->
  Forall2 R' l1 l2.
Proof.
  induction 1 as [|a b l1 l2 Hab _ IH]; intros Himp; constructor.
  - apply Himp; [now left | assumption].
  - apply IH. intros a' b' Hin. apply Himp. now right.
Qed.

Lemma Forall2_impl_In_l {A B : Type} (R R' : A -> B -> Prop) (l1 : list A) (l2 : list B) :
  Forall2 R l1 l2 ->
  (forall a b, In a l1 -> R a b -> R' a b) ->
  Forall2 R' l1 l2.
Proof.
  induction 1 as [|a b l1 l2 Hab _ IH]; intros Himp; constructor.
  - apply Himp; [now left | assumption].
  - apply IH. intros a' b' Hin. apply Himp. now right.
Qed.

(** ** The encoder loops against the joined form *)

Arguments joined : simpl never.

Lemma joined_cons (first : bool) (sep chunk : pystr) (parts : list pystr) :
  (if first then @nil Z else sep) ++ chunk ++ joined false sep parts
  = joined first sep (chunk :: parts).
Proof.
  unfold joined. destruct parts as [|p ps]; simpl; [now rewrite app_nil_r | reflexivity].
Qed.

Lemma joined_first sep parts : joined true sep parts = intercalate sep parts.
Proof. destruct parts; reflexivity. Qed.

Lemma iterencode_list_joined (f : pytree -> result pystr) sep enc items ts :
  Forall2 (fun v t => enc v = f t) items ts ->
  forall first,
  iterencode_list sep enc first items
  = (parts <- sequence (map f ts) ;; Ok (joined first sep parts)).
Proof.
  induction 1 as [|v t items ts Hv _ IH]; intros first; simpl; [reflexivity|].
  rewrite Hv. destruct (f t) as [chunk|e]; simpl; [|reflexivity].
  rewrite IH. destruct (sequence (map f ts)) as [parts|e]; simpl; [|reflexivity].
  now rewrite joined_cons.
Qed.

Lemma iterencode_dict_joined (f : pytree -> result pystr) sep enc items ts :
  Forall2 (fun kv kt => fst kv = fst kt /\ enc (snd kv) = f (snd kt)) items ts ->
  forall first,
  iterencode_dict true sep (lit ":") enc first items
  = (parts <- sequence (map (member_with f) ts) ;; Ok (joined first sep parts)).
Proof.
  induction 1 as [|[k v] [k' t] items ts [Hk Hv] _ IH]; intros first; simpl in *; [reflexivity|].
  subst k'. unfold member_with at 1; simpl.
  destruct (key_text true k) as [kt|e]; simpl; [|reflexivity].
  rewrite Hv. destruct (f t) as [chunk|e]; simpl; [|reflexivity].
  rewrite IH. destruct (sequence (map (member_with f) ts)) as [parts|e]; simpl; [|reflexivity].
  rewrite <- joined_cons. do 2 f_equal. simpl. now rewrite <- !app_assoc.
Qed.

Lemma canonicalJSON_list items :
  canonicalJSON (TList items)
  = (parts <- sequence (map canonicalJSON items) ;;
     Ok (lit "[" ++ intercalate (lit ",") parts ++ lit "]")).
Proof. reflexivity. Qed.

Lemma canonicalJSON_tuple items :
  canonicalJSON (TTuple items)
  = (parts <- sequence (map canonicalJSON items) ;;
     Ok (lit "[" ++ intercalate (lit ",") parts ++ lit "]")).
Proof. reflexivity. Qed.

Lemma canonicalJSON_dict items :
  canonicalJSON (TDict items)
  = (parts <- sequence (map member_text items) ;;
     Ok (lit "{" ++ intercalate (lit ",") parts ++ lit "}")).
Proof. reflexivity. Qed.

Lemma encode_tree_list depth items :
  encode_tree (S depth) (TList items)
  = (parts <- sequence (map (encode_tree depth) items) ;;
     Ok (lit "[" ++ intercalate (lit ",") parts ++ lit "]")).
Proof. reflexivity. Qed.

Lemma encode_tree_tuple depth items :
  encode_tree (S depth) (TTuple items)
  = (parts <- sequence (map (encode_tree depth) items) ;;
     Ok (lit "[" ++ intercalate (lit ",") parts ++ lit "]")).
Proof. reflexivity. Qed.

Lemma encode_tree_dict depth items :
  encode_tree (S depth) (TDict items)
  = (parts <- sequence (map (member_with (encode_tree depth)) items) ;;
     Ok (lit "{" ++ intercalate (lit ",") parts ++ lit "}")).
Proof. reflexivity. Qed.

(** ** Markers: the containers being encoded *)

Lemma in_markers_In markers a : in_markers markers a = true <-> In a markers.
Proof.
  unfold in_markers. rewrite existsb_exists. split.
  - intros (x & Hin & Heq). apply Nat.eqb_eq in Heq. now subst.
  - intros Hin. exists a. split; [assumption | apply Nat.eqb_refl].
Qed.

Lemma above_fresh h markers a t :
  above h markers t -> unfolds h (Ref a) t -> ~ In a markers.
Proof. intros Hab Hu Hin. specialize (Hab a t Hin Hu). lia. Qed.

Lemma above_child h markers a t c :
  above h markers t -> unfolds h (Ref a) t ->
  (tree_size c < tree_size t)%nat ->
  above h (a :: markers) c.
Proof.
  intros Hab Hu Hlt m tm [<-|Hin] Hm.
  - rewrite <- (unfolds_functional _ _ _ _ Hu Hm). assumption.
  - specialize (Hab m tm Hin Hm). lia.
Qed.

(** ** On an acyclic payload the heap encoder is the tree encoder *)

Lemma iterencode_tree h t :
  forall v depth markers,
  unfolds h v t ->
  above h markers t ->
  iterencode true (lit ",") (lit ":") h depth markers v = encode_tree depth t.
Proof.
  induction t as [a|items IH|items IH|items IH] using pytree_induction;
    intros v depth markers Hu Hab;
    pose proof Hu as Hu'; inv Hu';
    try match goal with
        | Hn : nth_error h ?addr = Some _, HF : Forall2 _ ?its _ |- _ =>
          destruct depth as [|depth]; [simpl; rewrite Hn; reflexivity|];
          simpl iterencode; rewrite Hn;
          destruct its as [|v0 rest]; [inv HF; reflexivity|];
          pose proof (above_fresh _ _ _ _ Hab Hu) as Hfresh;
          destruct (in_markers markers addr) eqn:Hin;
            [apply in_markers_In in Hin; tauto|]
        end.
  - destruct depth; reflexivity.
  - rewrite encode_tree_list.
    rewrite (iterencode_list_joined (encode_tree depth) _ _ (v0 :: rest) items).
    + destruct (sequence (map (encode_tree depth) items)); simpl; [|reflexivity].
      now rewrite joined_first.
    + eapply Forall2_impl_In; [eassumption|].
      intros v t Hint Hv. rewrite Forall_forall in IH.
      apply IH; [assumption..|].
      eapply above_child; eauto. simpl. now apply tree_size_child.
  - rewrite encode_tree_tuple.
    rewrite (iterencode_list_joined (encode_tree depth) _ _ (v0 :: rest) items).
    + destruct (sequence (map (encode_tree depth) items)); simpl; [|reflexivity].
      now rewrite joined_first.
    + eapply Forall2_impl_In; [eassumption|].
      intros v t Hint Hv. rewrite Forall_forall in IH.
      apply IH; [assumption..|].
      eapply above_child; eauto. simpl. now apply tree_size_child.
  - rewrite encode_tree_dict.
    rewrite (iterencode_dict_joined (encode_tree depth) _ _ (v0 :: rest) items).
    + destruct (sequence (map (member_with (encode_tree depth)) items)); simpl; [|reflexivity].
      now rewrite joined_first.
    + eapply Forall2_impl_In; [eassumption|].
      intros kv kt Hint [Hk Hv]. split; [assumption|]. rewrite Forall_forall in IH.
      apply IH; [assumption..|].
      eapply above_child; eauto. simpl. now apply tree_size_member.
Qed.

Theorem json_dumps_encode_tree depth_left h v t :
  unfolds h v t ->
  json_dumps depth_left h v (lit ",", lit ":") = encode_tree (S depth_left) t.
Proof.
  intros Hu. unfold json_dumps. simpl fst; simpl snd.
  apply iterencode_tree; [assumption|]. intros m tm [].
Qed.

(** ** The tree encoder against the canonical text *)

Lemma depth_children (items : list pytree) d :
  (fold_right (fun c n => Nat.max (tree_depth c) n) O items <= d)%nat
  <-> Forall (fun t => (tree_depth t <= d)%nat) items.
Proof.
  induction items as [|t items IH]; simpl.
  - split; [constructor | lia].
  - split.
    + intros H. constructor; [lia | apply IH; lia].
    + intros H. inv H. apply IH in H3. lia.
Qed.

Lemma depth_members (items : list (atom * pytree)) d :
  (fold_right (fun kv n => Nat.max (tree_depth (snd kv)) n) O items <= d)%nat
  <-> Forall (fun kv => (tree_depth (snd kv) <= d)%nat) items.
Proof.
  induction items as [|t items IH]; simpl.
  - split; [constructor | lia].
  - split.
    + intros H. constructor; [lia | apply IH; lia].
    + intros H. inv H. apply IH in H3. lia.
Qed.

Lemma encode_tree_within t : forall depth,
  (tree_depth t <= depth)%nat -> encode_tree depth t = canonicalJSON t.
Proof.
  induction t as [a|items IH|items IH|items IH] using pytree_induction; intros depth Hd.
  - destruct depth; reflexivity.
  - destruct depth as [|depth]; [simpl in Hd; lia|].
    rewrite encode_tree_list, canonicalJSON_list.
    simpl in Hd. apply le_S_n in Hd. apply depth_children in Hd.
    rewrite (sequence_map_ext (encode_tree depth) canonicalJSON); [reflexivity|].
    rewrite Forall_forall in *. auto.
  - destruct depth as [|depth]; [simpl in Hd; lia|].
    rewrite encode_tree_tuple, canonicalJSON_tuple.
    simpl in Hd. apply le_S_n in Hd. apply depth_children in Hd.
    rewrite (sequence_map_ext (encode_tree depth) canonicalJSON); [reflexivity|].
    rewrite Forall_forall in *. auto.
  - destruct depth as [|depth]; [simpl in Hd; lia|].
    rewrite encode_tree_dict, canonicalJSON_dict.
    simpl in Hd. apply le_S_n in Hd. apply depth_members in Hd.
    rewrite (sequence_map_ext (member_with (encode_tree depth)) member_text); [reflexivity|].
    rewrite Forall_forall in *. intros kv Hin. unfold member_text, member_with.
    now rewrite (IH kv Hin depth (Hd kv Hin)).
Qed.

Lemma encode_tree_Ok t : forall depth s,
  encode_tree depth t = Ok s -> (tree_depth t <= depth)%nat.
Proof.
  induction t as [a|items IH|items IH|items IH] using pytree_induction; intros depth s H.
  - simpl. lia.
  - destruct depth as [|depth]; [discriminate|].
    rewrite encode_tree_list in H. bind_inv H. apply sequence_Ok_inv in Hx.
    simpl. apply le_n_S. apply depth_children. rewrite Forall_forall in *.
    intros t Hin. destruct (Forall2_In_l _ _ _ _ Hx Hin) as (y & _ & Hy). eauto.
  - destruct depth as [|depth]; [discriminate|].
    rewrite encode_tree_tuple in H. bind_inv H. apply sequence_Ok_inv in Hx.
    simpl. apply le_n_S. apply depth_children. rewrite Forall_forall in *.
    intros t Hin. destruct (Forall2_In_l _ _ _ _ Hx Hin) as (y & _ & Hy). eauto.
  - destruct depth as [|depth]; [discriminate|].
    rewrite encode_tree_dict in H. bind_inv H. apply sequence_Ok_inv in Hx.
    simpl. apply le_n_S. apply depth_members. rewrite Forall_forall in *.
    intros kv Hin. destruct (Forall2_In_l _ _ _ _ Hx Hin) as (y & _ & Hy).
    unfold member_with in Hy. bind_inv Hy. bind_inv Hy. eauto.
Qed.

Lemma encode_tree_canonical t depth s :
  encode_tree depth t = Ok s -> canonicalJSON t = Ok s.
Proof.
  intros H. rewrite <- (encode_tree_within t depth); [assumption|].
  eapply encode_tree_Ok; eassumption.
Qed.

(** ** A successful run of the encoder exhibits the payload tree *)

Lemma iterencode_list_Ok sep enc lst : forall first body,
  iterencode_list sep enc first lst = Ok body ->
  Forall (fun v => exists s, enc v = Ok s) lst.
Proof.
  induction lst as [|v rest IH]; intros first body H; [constructor|].
  simpl in H. bind_inv H. bind_inv H. constructor; eauto.
Qed.

Lemma iterencode_dict_Ok an sep ksep enc items : forall first body,
  iterencode_dict an sep ksep enc first items = Ok body ->
  Forall (fun kv => (exists k, key_text an (fst kv) = Ok k)
                    /\ exists s, enc (snd kv) = Ok s) items.
Proof.
  induction items as [|[k v] rest IH]; intros first body H; [constructor|].
  simpl in H. bind_inv H. bind_inv H. bind_inv H. constructor; simpl; eauto.
Qed.

Lemma Forall_exists_Forall2 {A B : Type} (R : A -> B -> Prop) (l : list A) :
  Forall (fun a => exists b, R a b) l -> exists l', Forall2 R l l'.
Proof.
  induction 1 as [|a l [b Hb] _ [l' IH]]; [exists []; constructor|].
  exists (b :: l'). now constructor.
Qed.

Lemma iterencode_unfolds an sep ksep h depth : forall markers v s,
  iterencode an sep ksep h depth markers v = Ok s -> exists t, unfolds h v t.
Proof.
  induction depth as [|depth IH]; intros markers v s H;
    (destruct v as [a|addr]; [exists (TAtom a); constructor|]);
    simpl in H; destruct (nth_error h addr) as [[lst|lst|dct]|] eqn:Hn; try discriminate.
  - destruct lst as [|v0 rest].
    + exists (TList []). econstructor; [eassumption | constructor].
    + destruct (in_markers markers addr); [discriminate|]. bind_inv H.
      apply iterencode_list_Ok in Hx.
      destruct (Forall_exists_Forall2 (unfolds h) (v0 :: rest)) as [ts Hts].
      { eapply Forall_impl; [|exact Hx]. intros v [s' Hs']. eauto. }
      exists (TList ts). econstructor; eassumption.
  - destruct lst as [|v0 rest].
    + exists (TTuple []). econstructor; [eassumption | constructor].
    + destruct (in_markers markers addr); [discriminate|]. bind_inv H.
      apply iterencode_list_Ok in Hx.
      destruct (Forall_exists_Forall2 (unfolds h) (v0 :: rest)) as [ts Hts].
      { eapply Forall_impl; [|exact Hx]. intros v [s' Hs']. eauto. }
      exists (TTuple ts). econstructor; eassumption.
  - destruct dct as [|kv0 rest].
    + exists (TDict []). econstructor; [eassumption | constructor].
    + destruct (in_markers markers addr); [discriminate|]. bind_inv H.
      apply iterencode_dict_Ok in Hx.
      destruct (Forall_exists_Forall2
                  (fun kv kt => fst kv = fst kt /\ unfolds h (snd kv) (snd kt))
                  (kv0 :: rest)) as [ts Hts].
      { eapply Forall_impl; [|exact Hx]. intros [k v] [_ [s' Hs']]; simpl in *.
        destruct (IH _ _ _ Hs') as [t Ht]. exists (k, t). auto. }
      exists (TDict ts). econstructor; eassumption.
Qed.

(** ** Which exceptions the encoder can raise *)

Lemma floatstr_allow_nan x : exists s, floatstr true x = Ok s.
Proof. destruct x; simpl; eauto. Qed.

Lemma int_repr_raises n e : int_repr n = Raise e -> e = ValueError.
Proof.
  unfold int_repr. destruct (max_str_digits <? int_digits n)%nat; congruence.
Qed.

Lemma encode_atom_raises a e :
  encode_atom true a = Raise e -> e = TypeError \/ e = ValueError.
Proof.
  destruct a as [|[]|n|x| |]; simpl; intros H; try discriminate.
  - right. eapply int_repr_raises; eassumption.
  - destruct (floatstr_allow_nan x) as [s Hs]. congruence.
  - left. congruence.
Qed.

Lemma key_text_raises k e :
  key_text true k = Raise e -> e = TypeError \/ e = ValueError.
Proof.
  destruct k as [|[]|n|x| |]; simpl; intros H; try discriminate.
  - right. eapply int_repr_raises; eassumption.
  - destruct (floatstr_allow_nan x) as [s Hs]. congruence.
  - left. congruence.
Qed.

Lemma iterencode_list_Raise sep enc lst : forall first e,
  iterencode_list sep enc first lst = Raise e ->
  exists v, In v lst /\ enc v = Raise e.
Proof.
  induction lst as [|v rest IH]; intros first e H; [discriminate|].
  simpl in H. apply bind_Raise in H. destruct H as [H|(chunk & Hc & H)].
  - exists v. split; [now left | assumption].
  - apply bind_Raise in H. destruct H as [H|(more & Hm & H)]; [|discriminate].
    destruct (IH _ _ H) as (v' & Hin & Hv'). exists v'. split; [now right | assumption].
Qed.

Lemma iterencode_dict_Raise an sep ksep enc items : forall first e,
  iterencode_dict an sep ksep enc first items = Raise e ->
  exists kv, In kv items /\ (key_text an (fst kv) = Raise e \/ enc (snd kv) = Raise e).
Proof.
  induction items as [|[k v] rest IH]; intros first e H; [discriminate|].
  simpl in H. apply bind_Raise in H. destruct H as [H|(kt & Hk & H)].
  - exists (k, v). split; [now left | now left].
  - apply bind_Raise in H. destruct H as [H|(chunk & Hc & H)].
    + exists (k, v). split; [now left | now right].
    + apply bind_Raise in H. destruct H as [H|(more & Hm & H)]; [|discriminate].
      destruct (IH _ _ H) as (kv & Hin & Hkv). exists kv. split; [now right | assumption].
Qed.

Lemma heap_closed_lookup h addr o :
  heap_closed h -> nth_error h addr = Some o -> obj_closed h o.
Proof.
  intros Hc Hn. unfold heap_closed in Hc. rewrite Forall_forall in Hc.
  apply Hc. eapply nth_error_In; eassumption.
Qed.

Lemma iterencode_atom an sep ksep h depth markers a :
  iterencode an sep ksep h depth markers (Atom a) = encode_atom an a.
Proof. destruct depth; reflexivity. Qed.

Lemma iterencode_raises sep ksep h depth : forall markers v e,
  heap_closed h -> val_closed h v ->
  iterencode true sep ksep h depth markers v = Raise e ->
  is_serialization_error e = true.
Proof.
  induction depth as [|depth IH]; intros markers v e Hc Hv H.
  - destruct v as [a|addr].
    + rewrite iterencode_atom in H.
      destruct (encode_atom_raises a e H) as [->| ->]; reflexivity.
    + simpl in H, Hv.
      destruct (nth_error h addr) as [o|] eqn:Hn; [|apply nth_error_None in Hn; lia].
      inv H. reflexivity.
  - destruct v as [a|addr].
    + rewrite iterencode_atom in H.
      destruct (encode_atom_raises a e H) as [->| ->]; reflexivity.
    + simpl in H, Hv.
      destruct (nth_error h addr) as [o|] eqn:Hn; [|apply nth_error_None in Hn; lia].
      pose proof (heap_closed_lookup _ _ _ Hc Hn) as Hobj.
      destruct o as [lst|lst|dct]; simpl in Hobj.
      * destruct lst as [|v0 rest]; [discriminate|].
        destruct (in_markers markers addr) eqn:Hin; [inv H; reflexivity|].
        apply bind_Raise in H. destruct H as [H|(body & _ & H)]; [|discriminate].
        apply iterencode_list_Raise in H. destruct H as (v & Hinv & Hr).
        rewrite Forall_forall in Hobj.
        eapply IH; [eassumption | apply Hobj; eassumption | eassumption].
      * destruct lst as [|v0 rest]; [discriminate|].
        destruct (in_markers markers addr) eqn:Hin; [inv H; reflexivity|].
        apply bind_Raise in H. destruct H as [H|(body & _ & H)]; [|discriminate].
        apply iterencode_list_Raise in H. destruct H as (v & Hinv & Hr).
        rewrite Forall_forall in Hobj.
        eapply IH; [eassumption | apply Hobj; eassumption | eassumption].
      * destruct dct as [|kv0 rest]; [discriminate|].
        destruct (in_markers markers addr) eqn:Hin; [inv H; reflexivity|].
        apply bind_Raise in H. destruct H as [H|(body & _ & H)]; [|discriminate].
        apply iterencode_dict_Raise in H. destruct H as (kv & Hinv & [Hr|Hr]).
        -- destruct (key_text_raises _ _ Hr) as [->| ->]; reflexivity.
        -- rewrite Forall_forall in Hobj.
           eapply IH; [eassumption | apply (Hobj kv); eassumption | eassumption].
Qed.

(** ** The canonical text exists exactly for supported trees *)

Lemma int_repr_fits n :
  (int_digits n <=? max_str_digits)%nat = true -> int_repr n = Ok (int_text n).
Proof.
  intros H. unfold int_repr. apply Nat.leb_le in H.
  destruct (max_str_digits <? int_digits n)%nat eqn:E; [|reflexivity].
  apply Nat.ltb_lt in E. lia.
Qed.

Lemma int_repr_Ok n s :
  int_repr n = Ok s -> s = int_text n /\ (int_digits n <=? max_str_digits)%nat = true.
Proof.
  unfold int_repr. destruct (max_str_digits <? int_digits n)%nat eqn:E; intros H; inv H.
  split; [reflexivity|]. apply Nat.ltb_ge in E. now apply Nat.leb_le.
Qed.

Lemma supported_value_encode a : supported_value a = true -> exists s, encode_atom true a = Ok s.
Proof.
  destruct a as [|[]|n|x| |]; simpl; intros H; try discriminate; eauto.
  - rewrite (int_repr_fits _ H). eauto.
  - apply floatstr_allow_nan.
Qed.

Lemma supported_value_key k : supported_value k = true -> exists s, key_text true k = Ok s.
Proof.
  destruct k as [|[]|n|x| |]; simpl; intros H; try discriminate; eauto.
  - rewrite (int_repr_fits _ H). eauto.
  - apply floatstr_allow_nan.
Qed.

Lemma canonicalJSON_supported t : supported t = true -> exists s, canonicalJSON t = Ok s.
Proof.
  induction t as [a|items IH|items IH|items IH] using pytree_induction; intros Hs.
  - now apply supported_value_encode.
  - simpl in Hs. rewrite forallb_forall in Hs. rewrite Forall_forall in IH.
    rewrite canonicalJSON_list.
    destruct (sequence_Ok canonicalJSON items) as [parts ->]; [|simpl; eauto].
    apply Forall_forall. auto.
  - simpl in Hs. rewrite forallb_forall in Hs. rewrite Forall_forall in IH.
    rewrite canonicalJSON_tuple.
    destruct (sequence_Ok canonicalJSON items) as [parts ->]; [|simpl; eauto].
    apply Forall_forall. auto.
  - simpl in Hs. rewrite forallb_forall in Hs. rewrite Forall_forall in IH.
    rewrite canonicalJSON_dict.
    destruct (sequence_Ok member_text items) as [parts ->]; [|simpl; eauto].
    apply Forall_forall. intros kv Hin. specialize (Hs kv Hin).
    apply andb_true_iff in Hs. destruct Hs as [Hk Hv].
    unfold member_text, member_with. destruct (supported_value_key _ Hk) as [k ->].
    destruct (IH kv Hin Hv) as [s ->]. simpl. eauto.
Qed.

Lemma encode_atom_supported a s : encode_atom true a = Ok s -> supported_value a = true.
Proof.
  destruct a as [|b|n|x|s'|b]; simpl; intros H; try reflexivity; try discriminate.
  now destruct (int_repr_Ok _ _ H).
Qed.

Lemma key_text_supported k s : key_text true k = Ok s -> supported_value k = true.
Proof.
  destruct k as [|b|n|x|s'|b]; simpl; intros H; try reflexivity; try discriminate.
  now destruct (int_repr_Ok _ _ H).
Qed.

Lemma canonicalJSON_Ok_supported t : forall s, canonicalJSON t = Ok s -> supported t = true.
Proof.
  induction t as [a|items IH|items IH|items IH] using pytree_induction; intros s H.
  - eapply encode_atom_supported; eassumption.
  - rewrite canonicalJSON_list in H. bind_inv H. apply sequence_Ok_inv in Hx.
    simpl. apply forallb_forall. intros t Hin. rewrite Forall_forall in IH.
    destruct (Forall2_In_l _ _ _ _ Hx Hin) as (y & _ & Hy). eauto.
  - rewrite canonicalJSON_tuple in H. bind_inv H. apply sequence_Ok_inv in Hx.
    simpl. apply forallb_forall. intros t Hin. rewrite Forall_forall in IH.
    destruct (Forall2_In_l _ _ _ _ Hx Hin) as (y & _ & Hy). eauto.
  - rewrite canonicalJSON_dict in H. bind_inv H. apply sequence_Ok_inv in Hx.
    simpl. apply forallb_forall. intros kv Hin. rewrite Forall_forall in IH.
    destruct (Forall2_In_l _ _ _ _ Hx Hin) as (y & _ & Hy).
    unfold member_text, member_with in Hy. bind_inv Hy. bind_inv Hy.
    apply andb_true_iff. split; [eapply key_text_supported; eassumption | eauto].
Qed.

(** ** The serialised text is printable ASCII *)


Lemma land_15_range n : 0 <= Z.land n 15 < 16.
Proof.
  change 15 with (Z.ones 4). rewrite Z.land_ones by lia.
  apply Z.mod_pos_bound. reflexivity.
Qed.

Lemma hex_digit_printable n : printable (hex_digit n) = true.
Proof.
  unfold hex_digit, printable. pose proof (land_15_range n).
  destruct (Z.land n 15 <? 10) eqn:E; lia.
Qed.

Lemma format_04x_printable n : forallb printable (format_04x n) = true.
Proof. unfold format_04x. simpl. now rewrite !hex_digit_printable. Qed.

Lemma ESCAPE_DCT_printable c s : ESCAPE_DCT c = Some s -> forallb printable s = true.
Proof.
  unfold ESCAPE_DCT.
  repeat match goal with
         | |- (if ?b then _ else _) = _ -> _ => destruct b
         end; intros H; inv H; try reflexivity.
  simpl. now rewrite !hex_digit_printable.
Qed.

Lemma replace_printable c : forallb printable (replace c) = true.
Proof.
  unfold replace. destruct (ESCAPE_DCT c) eqn:E; [eapply ESCAPE_DCT_printable; eassumption|].
  destruct (c <? 65536); cbv zeta; rewrite ?forallb_app, ?format_04x_printable; reflexivity.
Qed.

Lemma escaped_printable s :
  forallb printable (flat_map (fun c => if ESCAPE_ASCII c then replace c else [c]) s) = true.
Proof.
  induction s as [|c s IH]; [reflexivity|]. simpl. rewrite forallb_app, IH, andb_true_r.
  destruct (ESCAPE_ASCII c) eqn:E; [apply replace_printable|].
  simpl. rewrite andb_true_r. unfold ESCAPE_ASCII in E. unfold printable.
  apply orb_false_iff in E. destruct E as [_ E]. now apply negb_false_iff in E.
Qed.

Lemma encode_basestring_ascii_printable s :
  forallb printable (encode_basestring_ascii s) = true.
Proof.
  unfold encode_basestring_ascii. simpl. rewrite forallb_app, escaped_printable. reflexivity.
Qed.

Lemma uint_chars_digits d : forallb is_digit (uint_chars d) = true.
Proof. induction d; simpl; auto. Qed.

Lemma is_digit_printable c : is_digit c = true -> printable c = true.
Proof. unfold is_digit, printable. lia. Qed.

Lemma forallb_impl {A : Type} (p q : A -> bool) (l : list A) :
  (forall x, p x = true -> q x = true) -> forallb p l = true -> forallb q l = true.
Proof.
  intros Hpq. rewrite !forallb_forall. auto.
Qed.

Lemma int_text_printable n : forallb printable (int_text n) = true.
Proof.
  unfold int_text. destruct (Z.to_int n); simpl;
    eapply forallb_impl; try apply is_digit_printable; apply uint_chars_digits.
Qed.

Lemma int_repr_printable n s : int_repr n = Ok s -> forallb printable s = true.
Proof.
  intros H. destruct (int_repr_Ok _ _ H) as [-> _]. apply int_text_printable.
Qed.

Lemma float_chars_printable r : forallb printable (map float_char_code r) = true.
Proof.
  induction r as [|c r IH]; [reflexivity|]. simpl. rewrite IH. now destruct c.
Qed.

Lemma floatstr_printable x s : floatstr true x = Ok s -> forallb printable s = true.
Proof.
  destruct x; simpl; intros H; inv H; try reflexivity. apply float_chars_printable.
Qed.

Lemma encode_atom_printable a s : encode_atom true a = Ok s -> forallb printable s = true.
Proof.
  destruct a as [|[]| |x| |]; simpl; intros H;
    first [ discriminate
          | eapply floatstr_printable; eassumption
          | eapply int_repr_printable; eassumption
          | inv H;
            first [ reflexivity | apply encode_basestring_ascii_printable ] ].
Qed.

Lemma intercalate_forallb (p : Z -> bool) sep parts :
  forallb p sep = true ->
  Forall (fun x => forallb p x = true) parts ->
  forallb p (intercalate sep parts) = true.
Proof.
  intros Hsep. induction 1 as [|x parts Hx Hparts IH]; [reflexivity|].
  simpl. destruct parts; [assumption|].
  rewrite !forallb_app, Hx, Hsep. exact IH.
Qed.

Lemma Forall2_Forall_r {A B : Type} (R : A -> B -> Prop) (Q : B -> Prop) l l' :
  Forall2 R l l' -> (forall a b, In a l -> R a b -> Q b) -> Forall Q l'.
Proof.
  induction 1 as [|a b l l' Hab _ IH]; intros HQ; constructor.
  - eapply HQ; [now left | eassumption].
  - apply IH. intros a' b' Hin. apply HQ. now right.
Qed.

Lemma member_printable k v :
  forallb printable v = true ->
  forallb printable (encode_basestring_ascii k ++ lit ":" ++ v) = true.
Proof.
  intros Hv. rewrite forallb_app, encode_basestring_ascii_printable. simpl. exact Hv.
Qed.

Lemma canonicalJSON_printable t : forall s,
  canonicalJSON t = Ok s -> forallb printable s = true.
Proof.
  induction t as [a|items IH|items IH|items IH] using pytree_induction; intros s H.
  - eapply encode_atom_printable; eassumption.
  - rewrite canonicalJSON_list in H. bind_inv H. inv H. apply sequence_Ok_inv in Hx.
    simpl. rewrite forallb_app. simpl. rewrite andb_true_r.
    apply intercalate_forallb; [reflexivity|].
    rewrite Forall_forall in IH. eapply Forall2_Forall_r; [eassumption|].
    intros t y Hin Hy. eauto.
  - rewrite canonicalJSON_tuple in H. bind_inv H. inv H. apply sequence_Ok_inv in Hx.
    simpl. rewrite forallb_app. simpl. rewrite andb_true_r.
    apply intercalate_forallb; [reflexivity|].
    rewrite Forall_forall in IH. eapply Forall2_Forall_r; [eassumption|].
    intros t y Hin Hy. eauto.
  - rewrite canonicalJSON_dict in H. bind_inv H. inv H. apply sequence_Ok_inv in Hx.
    simpl. rewrite forallb_app. simpl. rewrite andb_true_r.
    apply intercalate_forallb; [reflexivity|].
    rewrite Forall_forall in IH. eapply Forall2_Forall_r; [eassumption|].
    intros kv y Hin Hy. unfold member_text, member_with in Hy. bind_inv Hy. bind_inv Hy. injection Hy as <-.
    apply (member_printable x0 x1). eauto.
Qed.

(** ** UTF-8 is the identity on ASCII *)

Lemma printable_ascii c : printable c = true -> is_ascii c = true.
Proof. unfold printable, is_ascii. lia. Qed.

Lemma str_encode_ascii s : forallb is_ascii s = true -> str_encode s = Ok s.
Proof.
  induction s as [|c s IH]; [reflexivity|]. simpl. intros H.
  apply andb_true_iff in H. destruct H as [Hc Hs]. rewrite (IH Hs).
  unfold utf8_char. unfold is_ascii in Hc.
  destruct (c <? 128) eqn:E; [reflexivity | lia].
Qed.

Lemma bytes_decode_ascii b : forallb is_ascii b = true -> bytes_decode b = Ok b.
Proof.
  induction b as [|c b IH]; [reflexivity|]. simpl. intros H.
  apply andb_true_iff in H. destruct H as [Hc Hs]. rewrite (IH Hs).
  unfold is_ascii in Hc. destruct (c <? 128) eqn:E; [reflexivity | lia].
Qed.

Lemma ascii_is_byte s : forallb is_ascii s = true -> forallb is_byte s = true.
Proof. apply forallb_impl. unfold is_ascii, is_byte. lia. Qed.

(** ** Exhaustive checks over bytes and sextets *)


Lemma in_range_list (n : nat) (a : Z) :
  0 <= a < Z.of_nat n -> In a (map Z.of_nat (seq 0 n)).
Proof.
  intros Ha. apply in_map_iff. exists (Z.to_nat a). split; [lia|].
  apply in_seq. lia.
Qed.

Lemma forall_byte (p : Z -> bool) :
  forallb p byte_range = true -> forall a, is_byte a = true -> p a = true.
Proof.
  intros H a Ha. rewrite forallb_forall in H. apply H.
  apply in_range_list. unfold is_byte in Ha. lia.
Qed.

Lemma forall_byte2 (p : Z -> Z -> bool) :
  forallb (fun a => forallb (p a) byte_range) byte_range = true ->
  forall a b, is_byte a = true -> is_byte b = true -> p a b = true.
Proof.
  intros H a b Ha Hb.
  apply (forall_byte (p a)); [|assumption].
  apply (forall_byte (fun a => forallb (p a) byte_range)); assumption.
Qed.

Lemma forall_sextet (p : Z -> bool) :
  forallb p sextet_range = true -> forall i, 0 <= i < 64 -> p i = true.
Proof.
  intros H i Hi. rewrite forallb_forall in H. apply H. now apply in_range_list.
Qed.

Lemma land_63_range x : 0 <= Z.land x 63 < 64.
Proof.
  change 63 with (Z.ones 6). rewrite Z.land_ones by lia.
  apply Z.mod_pos_bound. reflexivity.
Qed.

(** ** base64: the library encoder against RFC 4648 *)


Lemma translate_table i :
  0 <= i < 64 ->
  urlsafe_encode_translation (nth (Z.to_nat i) table_b2a_base64 0) = sextet_char i.
Proof.
  intros Hi. apply Z.eqb_eq.
  apply (forall_sextet (fun i =>
    urlsafe_encode_translation (nth (Z.to_nat i) table_b2a_base64 0) =? sextet_char i));
    [vm_compute; reflexivity | assumption].
Qed.

Lemma translate_b2a x : urlsafe_encode_translation (b2a x) = sextet_char (Z.land x 63).
Proof. unfold b2a. apply translate_table. apply land_63_range. Qed.

Lemma sextet_char_alphabet i : 0 <= i < 64 -> b64url_char (sextet_char i) = true.
Proof.
  apply (forall_sextet (fun i => b64url_char (sextet_char i))). vm_compute; reflexivity.
Qed.

Lemma sextet_of_sextet_char i : 0 <= i < 64 -> sextet_of_char (sextet_char i) = Some i.
Proof.
  intros Hi.
  pose proof (forall_sextet (fun i => match sextet_of_char (sextet_char i) with Some j => j =? i | None => false end)) as H.
  specialize (H eq_refl i Hi). cbv beta in H.
  destruct (sextet_of_char (sextet_char i)) as [j|]; [|discriminate].
  apply Z.eqb_eq in H. now subst j.
Qed.

Lemma list_ind3 {A : Type} (P : list A -> Prop) :
  P [] -> (forall a, P [a]) -> (forall a b, P [a; b]) ->
  (forall a b c l, P l -> P (a :: b :: c :: l)) ->
  forall l, P l.
Proof.
  intros H0 H1 H2 H3. fix IH 1.
  intros [|a [|b [|c l]]];
    [exact H0 | exact (H1 a) | exact (H2 a b) | exact (H3 a b c l (IH l))].
Qed.

(** The four sextets of a 24-bit group. *)

Ltac byte_bounds :=
  repeat match goal with
         | H : is_byte _ = true |- _ =>
           unfold is_byte in H; apply andb_true_iff in H;
           let H1 := fresh in let H2 := fresh in
           destruct H as [H1 H2]; apply Z.leb_le in H1; apply Z.ltb_lt in H2
         end.

Ltac divmod := unfold q0, q1, q2, q3; Z.div_mod_to_equations; lia.

Lemma q0_range a : is_byte a = true -> 0 <= q0 a < 64.
Proof. intros; byte_bounds; divmod. Qed.
Lemma q1_range a b : is_byte a = true -> is_byte b = true -> 0 <= q1 a b < 64.
Proof. intros; byte_bounds; divmod. Qed.
Lemma q2_range b c : is_byte b = true -> is_byte c = true -> 0 <= q2 b c < 64.
Proof. intros; byte_bounds; divmod. Qed.
Lemma q3_range c : is_byte c = true -> 0 <= q3 c < 64.
Proof. intros; byte_bounds; divmod. Qed.

Lemma is_byte_0 : is_byte 0 = true.
Proof. reflexivity. Qed.

Lemma bits_q0 a : is_byte a = true -> Z.land (Z.shiftr a 2) 63 = q0 a.
Proof.
  intros Ha. apply Z.eqb_eq.
  apply (forall_byte (fun a => Z.land (Z.shiftr a 2) 63 =? q0 a));
    [vm_compute; reflexivity | assumption].
Qed.

Lemma bits_q1 a b : is_byte a = true -> is_byte b = true ->
  Z.land (Z.lor (Z.shiftl (Z.land a 3) 4) (Z.shiftr b 4)) 63 = q1 a b.
Proof.
  intros Ha Hb. apply Z.eqb_eq.
  apply (forall_byte2 (fun a b =>
    Z.land (Z.lor (Z.shiftl (Z.land a 3) 4) (Z.shiftr b 4)) 63 =? q1 a b));
    [vm_compute; reflexivity | assumption..].
Qed.

Lemma bits_q2 b c : is_byte b = true -> is_byte c = true ->
  Z.land (Z.lor (Z.shiftl (Z.land b 15) 2) (Z.shiftr c 6)) 63 = q2 b c.
Proof.
  intros Hb Hc. apply Z.eqb_eq.
  apply (forall_byte2 (fun b c =>
    Z.land (Z.lor (Z.shiftl (Z.land b 15) 2) (Z.shiftr c 6)) 63 =? q2 b c));
    [vm_compute; reflexivity | assumption..].
Qed.

Lemma bits_q3 c : is_byte c = true -> Z.land c 63 = q3 c.
Proof.
  intros Hc. apply Z.eqb_eq.
  apply (forall_byte (fun c => Z.land c 63 =? q3 c)); [vm_compute; reflexivity | assumption].
Qed.

Lemma bits_q1_tail a : is_byte a = true -> Z.land (Z.shiftl (Z.land a 3) 4) 63 = q1 a 0.
Proof.
  intros Ha. apply Z.eqb_eq.
  apply (forall_byte (fun a => Z.land (Z.shiftl (Z.land a 3) 4) 63 =? q1 a 0));
    [vm_compute; reflexivity | assumption].
Qed.

Lemma bits_q2_tail b : is_byte b = true -> Z.land (Z.shiftl (Z.land b 15) 2) 63 = q2 b 0.
Proof.
  intros Hb. apply Z.eqb_eq.
  apply (forall_byte (fun b => Z.land (Z.shiftl (Z.land b 15) 2) 63 =? q2 b 0));
    [vm_compute; reflexivity | assumption].
Qed.

Lemma NOPAD_group a b c rest :
  is_byte a = true -> is_byte b = true -> is_byte c = true ->
  BASE64URL_NOPAD (a :: b :: c :: rest)
  = sextet_char (q0 a) :: sextet_char (q1 a b) :: sextet_char (q2 b c)
    :: sextet_char (q3 c) :: BASE64URL_NOPAD rest.
Proof.
  intros Ha Hb Hc. byte_bounds.
  change (BASE64URL_NOPAD (a :: b :: c :: rest)) with
    (let n := a * 65536 + b * 256 + c in
     sextet_char (n / 262144) :: sextet_char (n / 4096 mod 64)
     :: sextet_char (n / 64 mod 64) :: sextet_char (n mod 64)
     :: BASE64URL_NOPAD rest).
  cbv zeta.
  replace ((a * 65536 + b * 256 + c) / 262144) with (q0 a) by divmod.
  replace ((a * 65536 + b * 256 + c) / 4096 mod 64) with (q1 a b) by divmod.
  replace ((a * 65536 + b * 256 + c) / 64 mod 64) with (q2 b c) by divmod.
  replace ((a * 65536 + b * 256 + c) mod 64) with (q3 c) by divmod.
  reflexivity.
Qed.

Lemma NOPAD_tail1 a :
  is_byte a = true ->
  BASE64URL_NOPAD [a] = [sextet_char (q0 a); sextet_char (q1 a 0)].
Proof.
  intros Ha. byte_bounds. unfold BASE64URL_NOPAD. cbv zeta.
  replace (a * 16 / 64) with (q0 a) by divmod.
  replace (a * 16 mod 64) with (q1 a 0) by divmod.
  reflexivity.
Qed.

Lemma NOPAD_tail2 a b :
  is_byte a = true -> is_byte b = true ->
  BASE64URL_NOPAD [a; b]
  = [sextet_char (q0 a); sextet_char (q1 a b); sextet_char (q2 b 0)].
Proof.
  intros Ha Hb. byte_bounds. unfold BASE64URL_NOPAD. cbv zeta.
  replace ((a * 256 + b) * 4 / 4096) with (q0 a) by divmod.
  replace ((a * 256 + b) * 4 / 64 mod 64) with (q1 a b) by divmod.
  replace ((a * 256 + b) * 4 mod 64) with (q2 b 0) by divmod.
  reflexivity.
Qed.


Lemma urlsafe_b64encode_group a b c rest :
  urlsafe_b64encode (a :: b :: c :: rest)
  = urlsafe_encode_translation (b2a (Z.shiftr a 2))
    :: urlsafe_encode_translation (b2a (Z.lor (Z.shiftl (Z.land a 3) 4) (Z.shiftr b 4)))
    :: urlsafe_encode_translation (b2a (Z.lor (Z.shiftl (Z.land b 15) 2) (Z.shiftr c 6)))
    :: urlsafe_encode_translation (b2a c)
    :: urlsafe_b64encode rest.
Proof. reflexivity. Qed.

Lemma urlsafe_b64encode_padded data :
  forallb is_byte data = true ->
  urlsafe_b64encode data = BASE64URL_NOPAD data ++ padding data.
Proof.
  induction data as [|a|a b|a b c rest IH] using list_ind3; intros Hb; simpl in Hb.
  - reflexivity.
  - rewrite andb_true_r in Hb. rewrite NOPAD_tail1 by assumption.
    unfold urlsafe_b64encode, b64encode, b2a_base64. cbn [map].
    rewrite !translate_b2a, bits_q0, bits_q1_tail by assumption. reflexivity.
  - apply andb_true_iff in Hb. destruct Hb as [Ha Hb]. rewrite andb_true_r in Hb.
    rewrite NOPAD_tail2 by assumption.
    unfold urlsafe_b64encode, b64encode, b2a_base64. cbn [map].
    rewrite !translate_b2a, bits_q0, bits_q1, bits_q2_tail by assumption. reflexivity.
  - apply andb_true_iff in Hb. destruct Hb as [Ha Hb].
    apply andb_true_iff in Hb. destruct Hb as [Hb Hc].
    apply andb_true_iff in Hc. destruct Hc as [Hc Hrest].
    rewrite urlsafe_b64encode_group, NOPAD_group by assumption.
    rewrite !translate_b2a, bits_q0, bits_q1, bits_q2, bits_q3 by assumption.
    rewrite (IH Hrest). reflexivity.
Qed.

Lemma NOPAD_alphabet data :
  forallb is_byte data = true -> forallb b64url_char (BASE64URL_NOPAD data) = true.
Proof.
  induction data as [|a|a b|a b c rest IH] using list_ind3; intros Hb; simpl in Hb.
  - reflexivity.
  - rewrite andb_true_r in Hb. rewrite NOPAD_tail1 by assumption. simpl.
    rewrite !sextet_char_alphabet; auto using q0_range, q1_range, is_byte_0.
  - apply andb_true_iff in Hb. destruct Hb as [Ha Hb]. rewrite andb_true_r in Hb.
    rewrite NOPAD_tail2 by assumption. simpl.
    rewrite !sextet_char_alphabet; auto using q0_range, q1_range, q2_range, is_byte_0.
  - apply andb_true_iff in Hb. destruct Hb as [Ha Hb].
    apply andb_true_iff in Hb. destruct Hb as [Hb Hc].
    apply andb_true_iff in Hc. destruct Hc as [Hc Hrest].
    rewrite NOPAD_group by assumption. simpl.
    rewrite !sextet_char_alphabet; auto using q0_range, q1_range, q2_range, q3_range.
Qed.

Lemma padding_pad data : forallb (fun c => c =? 61) (padding data) = true.
Proof. induction data using list_ind3; auto. Qed.

(** ** rstrip removes exactly the padding *)

Lemma lstrip_all chars p s :
  forallb (char_in chars) p = true -> lstrip chars (p ++ s) = lstrip chars s.
Proof.
  induction p as [|c p IH]; [reflexivity|]. simpl. intros H.
  apply andb_true_iff in H. destruct H as [Hc Hp]. rewrite Hc. auto.
Qed.

Lemma lstrip_head chars s :
  match s with [] => True | c :: _ => char_in chars c = false end ->
  lstrip chars s = s.
Proof. destruct s as [|c s]; simpl; [reflexivity|]. now intros ->. Qed.

Lemma rstrip_padding chars s p :
  forallb (fun c => negb (char_in chars c)) s = true ->
  forallb (char_in chars) p = true ->
  rstrip chars (s ++ p) = s.
Proof.
  intros Hs Hp. unfold rstrip. rewrite rev_app_distr, lstrip_all.
  - rewrite lstrip_head; [apply rev_involutive|].
    destruct (rev s) as [|c r] eqn:E; [exact I|].
    rewrite forallb_forall in Hs. apply negb_true_iff. apply Hs.
    apply in_rev. rewrite E. now left.
  - rewrite forallb_forall in *. intros c Hc. apply Hp. now apply in_rev.
Qed.

Lemma b64url_char_ascii c : b64url_char c = true -> is_ascii c = true.
Proof. unfold b64url_char, is_ascii. lia. Qed.

Lemma b64url_char_not_pad c : b64url_char c = true -> negb (char_in (lit "=") c) = true.
Proof. unfold b64url_char, char_in. simpl. lia. Qed.

Theorem payload_base64_nopad data :
  forallb is_byte data = true ->
  (text <- bytes_decode (urlsafe_b64encode data) ;; Ok (rstrip (lit "=") text))
  = Ok (BASE64URL_NOPAD data).
Proof.
  intros Hb. rewrite urlsafe_b64encode_padded by assumption.
  pose proof (NOPAD_alphabet data Hb) as Halpha.
  rewrite bytes_decode_ascii.
  - simpl. f_equal. apply rstrip_padding.
    + eapply forallb_impl; [|exact Halpha]. apply b64url_char_not_pad.
    + eapply forallb_impl; [|apply padding_pad].
      intros c Hc. apply Z.eqb_eq in Hc. now subst c.
  - rewrite forallb_app. apply andb_true_iff. split.
    + eapply forallb_impl; [|exact Halpha]. apply b64url_char_ascii.
    + eapply forallb_impl; [|apply padding_pad].
      intros c Hc. apply Z.eqb_eq in Hc. now subst c.
Qed.

(** ** SHA-256 and HMAC digests *)

Lemma is_byte_land_255 x : is_byte (Z.land x 255) = true.
Proof.
  unfold is_byte. change 255 with (Z.ones 8). rewrite Z.land_ones by lia.
  pose proof (Z.mod_pos_bound x (2 ^ 8) eq_refl). lia.
Qed.

Lemma bytes_of_word_bytes w : forallb is_byte (SHA256.bytes_of_word w) = true.
Proof. unfold SHA256.bytes_of_word. cbn [forallb]. now rewrite !is_byte_land_255. Qed.

Lemma bytes_of_word_length w : length (SHA256.bytes_of_word w) = 4%nat.
Proof. reflexivity. Qed.

Lemma digest_of_state_bytes st : forallb is_byte (SHA256.digest_of_state st) = true.
Proof.
  destruct st as [[[[[[[a b] c] d] e] f] g] h]. unfold SHA256.digest_of_state.
  now rewrite !forallb_app, !bytes_of_word_bytes.
Qed.

Lemma digest_of_state_length st : length (SHA256.digest_of_state st) = 32%nat.
Proof.
  destruct st as [[[[[[[a b] c] d] e] f] g] h]. unfold SHA256.digest_of_state.
  now rewrite !length_app, !bytes_of_word_length.
Qed.

Lemma sha256_bytes msg : forallb is_byte (SHA256.sha256 msg) = true.
Proof. apply digest_of_state_bytes. Qed.

Lemma sha256_length msg : length (SHA256.sha256 msg) = 32%nat.
Proof. apply digest_of_state_length. Qed.

Lemma hmac_digest_bytes key msg : forallb is_byte (hmac_digest key msg) = true.
Proof. apply sha256_bytes. Qed.

Lemma hmac_digest_length key msg : length (hmac_digest key msg) = 32%nat.
Proof. apply sha256_length. Qed.

Lemma xor_bytes_repeat c k :
  length k = 64%nat -> xor_bytes k (repeat c 64) = translate_xor c k.
Proof.
  intros Hlen. unfold xor_bytes, translate_xor.
  rewrite <- Hlen. clear Hlen.
  induction k as [|x k IH]; [reflexivity|].
  cbn [length repeat combine map fst snd]. rewrite IH. f_equal. apply Z.lxor_comm.
Qed.

Lemma ljust_length k : (length k <= 64)%nat -> length (ljust block_size 0 k) = 64%nat.
Proof.
  intros H. unfold ljust, block_size. rewrite length_app, repeat_length. lia.
Qed.

Theorem hmac_digest_rfc2104 key msg : hmac_digest key msg = HMAC_SHA256 key msg.
Proof.
  unfold hmac_digest, HMAC_SHA256, ipad, opad.
  set (k := if (block_size <? length key)%nat then SHA256.sha256 key else key).
  assert (Hk : (length k <= 64)%nat).
  { subst k. unfold block_size. destruct (64 <? length key)%nat eqn:E.
    - rewrite sha256_length. lia.
    - apply Nat.ltb_ge in E. exact E. }
  change (if (64 <? length key)%nat then SHA256.sha256 key else key) with k.
  change (k ++ repeat 0 (64 - length k)) with (ljust block_size 0 k).
  cbv zeta. rewrite !xor_bytes_repeat by (apply ljust_length; exact Hk). reflexivity.
Qed.

(** ** The signer computes the token format of the specification *)

Lemma json_dumps_tree depth_left h v s :
  json_dumps depth_left h v (lit ",", lit ":") = Ok s ->
  exists t, unfolds h v t /\ canonicalJSON t = Ok s
            /\ (tree_depth t <= S depth_left)%nat.
Proof.
  intros H. pose proof H as H'. unfold json_dumps in H'.
  apply iterencode_unfolds in H'. destruct H' as [t Ht].
  rewrite (json_dumps_encode_tree _ _ _ _ Ht) in H.
  exists t. split; [assumption|]. split.
  - eapply encode_tree_canonical; eassumption.
  - eapply encode_tree_Ok; eassumption.
Qed.

Lemma json_dumps_serializable depth_left h v t s :
  unfolds h v t -> canonicalJSON t = Ok s -> (tree_depth t <= S depth_left)%nat ->
  json_dumps depth_left h v (lit ",", lit ":") = Ok s.
Proof.
  intros Hu Hc Hd. rewrite (json_dumps_encode_tree _ _ _ _ Hu).
  now rewrite encode_tree_within.
Qed.

Lemma json_dumps_printable depth_left h v s :
  json_dumps depth_left h v (lit ",", lit ":") = Ok s -> forallb printable s = true.
Proof.
  intros H. destruct (json_dumps_tree _ _ _ _ H) as (t & _ & Ht & _).
  eapply canonicalJSON_printable; eassumption.
Qed.

Lemma b64_text data :
  forallb is_byte data = true ->
  exists text, bytes_decode (urlsafe_b64encode data) = Ok text
               /\ rstrip (lit "=") text = BASE64URL_NOPAD data.
Proof.
  intros Hb. pose proof (payload_base64_nopad data Hb) as H.
  destruct (bytes_decode (urlsafe_b64encode data)) as [text|e]; simpl in H; [|discriminate].
  exists text. split; [reflexivity | congruence].
Qed.

Lemma NOPAD_ascii data :
  forallb is_byte data = true -> forallb is_ascii (BASE64URL_NOPAD data) = true.
Proof.
  intros Hb. eapply forallb_impl; [|apply NOPAD_alphabet; exact Hb]. apply b64url_char_ascii.
Qed.

Theorem sign_token_format depth_left h payload secret_key :
  generate_upload_signature depth_left h payload secret_key
  = (payload_json <- json_dumps depth_left h payload (lit ",", lit ":") ;;
     key <- str_encode secret_key ;;
     Ok (token_format payload_json key)).
Proof.
  unfold generate_upload_signature.
  destruct (json_dumps depth_left h payload (lit ",", lit ":")) as [json|e] eqn:Hj;
    [|reflexivity].
  pose proof (json_dumps_printable _ _ _ _ Hj) as Hp.
  assert (Hascii : forallb is_ascii json = true)
    by (eapply forallb_impl; [apply printable_ascii | exact Hp]).
  cbn [bind]. rewrite (str_encode_ascii _ Hascii). cbn [bind].
  destruct (b64_text json (ascii_is_byte _ Hascii)) as (text & -> & Htext). cbn [bind].
  cbv zeta. rewrite Htext.
  destruct (str_encode secret_key) as [key|e]; [|reflexivity]. cbn [bind].
  rewrite (str_encode_ascii (BASE64URL_NOPAD json))
    by (apply NOPAD_ascii; apply ascii_is_byte; exact Hascii).
  cbn [bind].
  destruct (b64_text (hmac_digest key (BASE64URL_NOPAD json)) (hmac_digest_bytes _ _))
    as (sig & -> & Hsig).
  cbn [bind]. rewrite Hsig, hmac_digest_rfc2104. reflexivity.
Qed.

(** ** Decoding the unpadded URL-safe text *)

Lemma sextet_char_not_pad i : 0 <= i < 64 -> (sextet_char i =? 61) = false.
Proof.
  intros Hi. apply negb_true_iff.
  apply (forall_sextet (fun i => negb (sextet_char i =? 61))); [vm_compute; reflexivity | assumption].
Qed.

Lemma join_q0_q1 a b : is_byte a = true -> is_byte b = true ->
  Z.lor (Z.shiftl (q0 a) 2) (Z.shiftr (q1 a b) 4) = a.
Proof.
  intros Ha Hb. apply Z.eqb_eq.
  apply (forall_byte2 (fun a b => Z.lor (Z.shiftl (q0 a) 2) (Z.shiftr (q1 a b) 4) =? a));
    [vm_compute; reflexivity | assumption..].
Qed.

Lemma low_q1 a b : is_byte a = true -> is_byte b = true -> Z.land (q1 a b) 15 = b / 16.
Proof.
  intros Ha Hb. apply Z.eqb_eq.
  apply (forall_byte2 (fun a b => Z.land (q1 a b) 15 =? b / 16));
    [vm_compute; reflexivity | assumption..].
Qed.

Lemma join_q1_q2 b c : is_byte b = true -> is_byte c = true ->
  Z.lor (Z.shiftl (b / 16) 4) (Z.shiftr (q2 b c) 2) = b.
Proof.
  intros Hb Hc. apply Z.eqb_eq.
  apply (forall_byte2 (fun b c => Z.lor (Z.shiftl (b / 16) 4) (Z.shiftr (q2 b c) 2) =? b));
    [vm_compute; reflexivity | assumption..].
Qed.

Lemma low_q2 b c : is_byte b = true -> is_byte c = true -> Z.land (q2 b c) 3 = c / 64.
Proof.
  intros Hb Hc. apply Z.eqb_eq.
  apply (forall_byte2 (fun b c => Z.land (q2 b c) 3 =? c / 64));
    [vm_compute; reflexivity | assumption..].
Qed.

Lemma join_q2_q3 c : is_byte c = true -> Z.lor (Z.shiftl (c / 64) 6) (q3 c) = c.
Proof.
  intros Hc. apply Z.eqb_eq.
  apply (forall_byte (fun c => Z.lor (Z.shiftl (c / 64) 6) (q3 c) =? c));
    [vm_compute; reflexivity | assumption].
Qed.

Lemma urlsafe_b64decode_cons c0 c1 c2 c3 rest :
  urlsafe_b64decode (c0 :: c1 :: c2 :: c3 :: rest)
  = match sextet_of_char c0, sextet_of_char c1 with
    | Some s0, Some s1 =>
      let b0 := Z.lor (Z.shiftl s0 2) (Z.shiftr s1 4) in
      if c3 =? 61 then
        match rest with
        | [] =>
          if c2 =? 61 then Some [b0]
          else
            match sextet_of_char c2 with
            | Some s2 =>
              Some [b0; Z.lor (Z.shiftl (Z.land s1 15) 4) (Z.shiftr s2 2)]
            | None => None
            end
        | _ => None
        end
      else
        match sextet_of_char c2, sextet_of_char c3, urlsafe_b64decode rest with
        | Some s2, Some s3, Some more =>
          Some (b0 :: Z.lor (Z.shiftl (Z.land s1 15) 4) (Z.shiftr s2 2)
                   :: Z.lor (Z.shiftl (Z.land s2 3) 6) s3 :: more)
        | _, _, _ => None
        end
    | _, _ => None
    end.
Proof. reflexivity. Qed.

Lemma urlsafe_b64decode_padded data :
  forallb is_byte data = true ->
  urlsafe_b64decode (BASE64URL_NOPAD data ++ padding data) = Some data.
Proof.
  induction data as [|a|a b|a b c rest IH] using list_ind3; intros Hb; simpl in Hb.
  - reflexivity.
  - rewrite andb_true_r in Hb. rewrite NOPAD_tail1 by assumption.
    cbn [padding app]. rewrite urlsafe_b64decode_cons.
    rewrite !sextet_of_sextet_char by auto using q0_range, q1_range, is_byte_0.
    cbv zeta. change (61 =? 61) with true. cbv iota.
    now rewrite join_q0_q1 by auto using is_byte_0.
  - apply andb_true_iff in Hb. destruct Hb as [Ha Hb]. rewrite andb_true_r in Hb.
    rewrite NOPAD_tail2 by assumption.
    cbn [padding app]. rewrite urlsafe_b64decode_cons.
    rewrite !sextet_of_sextet_char by auto using q0_range, q1_range, q2_range, is_byte_0.
    cbv zeta. change (61 =? 61) with true. cbv iota.
    rewrite sextet_char_not_pad by auto using q2_range, is_byte_0.
    now rewrite join_q0_q1, low_q1, join_q1_q2 by auto using is_byte_0.
  - apply andb_true_iff in Hb. destruct Hb as [Ha Hb].
    apply andb_true_iff in Hb. destruct Hb as [Hb Hc].
    apply andb_true_iff in Hc. destruct Hc as [Hc Hrest].
    rewrite NOPAD_group by assumption.
    cbn [padding app]. rewrite urlsafe_b64decode_cons.
    rewrite !sextet_of_sextet_char by auto using q0_range, q1_range, q2_range, q3_range.
    cbv zeta. rewrite sextet_char_not_pad by auto using q3_range.
    rewrite (IH Hrest).
    now rewrite join_q0_q1, low_q1, join_q1_q2, low_q2, join_q2_q3 by assumption.
Qed.


Lemma NOPAD_length data : length (BASE64URL_NOPAD data) = nopad_length (length data).
Proof.
  induction data as [|a|a b|a b c rest IH] using list_ind3; try reflexivity.
  change (length (BASE64URL_NOPAD (a :: b :: c :: rest)))
    with (S (S (S (S (length (BASE64URL_NOPAD rest)))))).
  rewrite IH. reflexivity.
Qed.

Lemma restore_padding_NOPAD data :
  restore_padding (BASE64URL_NOPAD data) = BASE64URL_NOPAD data ++ padding data.
Proof.
  unfold restore_padding. f_equal. rewrite NOPAD_length.
  induction data as [|a|a b|a b c rest IH] using list_ind3; try reflexivity.
  cbn [length nopad_length padding]. rewrite <- IH.
  replace (4 + nopad_length (length rest))%nat
    with (nopad_length (length rest) + 1 * 4)%nat by lia.
  now rewrite Nat.Div0.mod_add.
Qed.

Theorem base64url_roundtrip data :
  forallb is_byte data = true ->
  urlsafe_b64decode (restore_padding (BASE64URL_NOPAD data)) = Some data.
Proof.
  intros Hb. rewrite restore_padding_NOPAD. now apply urlsafe_b64decode_padded.
Qed.

Lemma NOPAD_injective d1 d2 :
  forallb is_byte d1 = true -> forallb is_byte d2 = true ->
  BASE64URL_NOPAD d1 = BASE64URL_NOPAD d2 -> d1 = d2.
Proof.
  intros H1 H2 E. pose proof (base64url_roundtrip d1 H1) as R1.
  rewrite E, (base64url_roundtrip d2 H2) in R1. congruence.
Qed.

(** ** Splitting a token at the separator *)

Lemma split_on_no_sep sep s : ~ In sep s -> split_on sep s = [s].
Proof.
  induction s as [|c s IH]; intros Hn; [reflexivity|]. simpl.
  destruct (c =? sep) eqn:E.
  - apply Z.eqb_eq in E. subst c. exfalso. apply Hn. now left.
  - rewrite IH; [reflexivity|]. intros Hin. apply Hn. now right.
Qed.

Lemma split_on_app sep a b :
  ~ In sep a -> split_on sep (a ++ sep :: b) = a :: split_on sep b.
Proof.
  induction a as [|c a IH]; intros Hn; simpl.
  - now rewrite Z.eqb_refl.
  - destruct (c =? sep) eqn:E.
    + apply Z.eqb_eq in E. subst c. exfalso. apply Hn. now left.
    + rewrite IH; [reflexivity|]. intros Hin. apply Hn. now right.
Qed.

Lemma b64url_no_dot s : forallb b64url_char s = true -> ~ In 46 s.
Proof.
  intros H Hin. rewrite forallb_forall in H. specialize (H 46 Hin). discriminate.
Qed.

Lemma count_occ_absent (s : pystr) (c : Z) : ~ In c s -> count_occ Z.eq_dec s c = 0%nat.
Proof. intros H. now apply count_occ_not_In. Qed.

Lemma b64url_token_alphabet c : b64url_char c = true -> token_alphabet c = true.
Proof. unfold b64url_char, token_alphabet. lia. Qed.

(** ** Every token has the two-segment shape *)


Lemma token_format_shape json key :
  forallb is_ascii json = true ->
  token_shape (token_format json key)
    (BASE64URL_NOPAD json)
    (BASE64URL_NOPAD (HMAC_SHA256 key (BASE64URL_NOPAD json))).
Proof.
  intros Hascii. split.
  - reflexivity.
  - apply NOPAD_alphabet. now apply ascii_is_byte.
  - apply NOPAD_alphabet. rewrite <- hmac_digest_rfc2104. apply hmac_digest_bytes.
  - rewrite NOPAD_length, <- hmac_digest_rfc2104, hmac_digest_length. reflexivity.
Qed.

Lemma token_shape_split token p s :
  token_shape token p s -> split_on 46 token = [p; s].
Proof.
  intros [-> Hp Hs _]. change (lit "." ++ s) with (46 :: s).
  rewrite split_on_app by now apply b64url_no_dot.
  now rewrite split_on_no_sep by now apply b64url_no_dot.
Qed.

Lemma sign_Ok depth_left h payload secret_key token :
  generate_upload_signature depth_left h payload secret_key = Ok token ->
  exists t json key,
    unfolds h payload t /\ canonicalJSON t = Ok json /\
    forallb is_ascii json = true /\
    str_encode secret_key = Ok key /\
    json_dumps depth_left h payload (lit ",", lit ":") = Ok json /\
    token = token_format json key.
Proof.
  rewrite sign_token_format. intros H. bind_inv H. bind_inv H. inv H.
  destruct (json_dumps_tree _ _ _ _ Hx) as (t & Hu & Hc & _).
  exists t, x, x0. repeat split; try assumption.
  eapply forallb_impl; [apply printable_ascii|]. eapply json_dumps_printable; eassumption.
Qed.

(** ** Encoding the secret key *)

Lemma str_encode_raises s e : str_encode s = Raise e -> e = UnicodeEncodeError.
Proof.
  induction s as [|c s IH]; simpl; intros H; [discriminate|].
  apply bind_Raise in H. destruct H as [H|(b & Hb & H)].
  - unfold utf8_char in H.
    repeat match type of H with
           | (if ?b then _ else _) = _ => destruct b
           end; congruence.
  - apply bind_Raise in H. destruct H as [H|(bs & _ & H)]; [auto | discriminate].
Qed.

Lemma str_encode_no_surrogates s :
  forallb (fun c => negb (is_surrogate c)) s = true -> exists b, str_encode s = Ok b.
Proof.
  induction s as [|c s IH]; simpl; intros H; [eauto|].
  apply andb_true_iff in H. destruct H as [Hc Hs]. destruct (IH Hs) as [bs ->].
  unfold utf8_char. apply negb_true_iff in Hc. rewrite Hc.
  destruct (c <? 128); [simpl; eauto|].
  destruct (c <? 2048); [simpl; eauto|].
  destruct (c <? 65536); simpl; eauto.
Qed.

Lemma padding_of_length data :
  padding data = match (length data mod 3)%nat with
                 | 1%nat => [61; 61]
                 | 2%nat => [61]
                 | _ => []
                 end.
Proof.
  induction data as [|a|a b|a b c rest IH] using list_ind3; try reflexivity.
  cbn [padding length]. rewrite IH.
  replace (S (S (S (length rest)))) with (length rest + 1 * 3)%nat by lia.
  now rewrite Nat.Div0.mod_add.
Qed.

(** ** Non-finite floats under the default [allow_nan] *)

Lemma encode_atom_nonfinite x :
  nonfinite x = true -> encode_atom true x = Ok (nonfinite_text x).
Proof. destruct x as [|b|n|[| | |r]|s|b]; simpl; intros H; try discriminate; reflexivity. Qed.

Lemma json_dumps_single_member depth_left h addr k x :
  nth_error h addr = Some (PyDict [(PyStr k, Atom x)]) ->
  json_dumps depth_left h (Ref addr) (lit ",", lit ":")
  = (v <- encode_atom true x ;;
     Ok (lit "{" ++ encode_basestring_ascii k ++ lit ":" ++ v ++ lit "}")).
Proof.
  intros Hn. unfold json_dumps. cbn [fst snd iterencode]. rewrite Hn.
  cbn [in_markers existsb iterencode_dict key_text bind].
  rewrite iterencode_atom. destruct (encode_atom true x) as [v|e]; [|reflexivity].
  cbn [bind app]. now rewrite <- !app_assoc.
Qed.

(** * The claims *)

(** C1. Whenever the signer returns a token, the token is
    BASE64URL_NOPAD(canonicalJSON(payload)) + "." +
    BASE64URL_NOPAD(HMAC_SHA256(key, BASE64URL_NOPAD(canonicalJSON(payload)))):
    the canonical text and the encoded payload are ASCII, so their bytes are
    their characters; the HMAC is taken over the bytes of the encoded payload
    string and is keyed with the UTF-8 bytes of the secret. *)
Theorem C1_sign_output_format depth_left h payload secret_key token :
  generate_upload_signature depth_left h payload secret_key = Ok token ->
  exists t json key,
    unfolds h payload t /\
    canonicalJSON t = Ok json /\
    str_encode json = Ok (ascii_bytes json) /\
    str_encode secret_key = Ok key /\
    let encodedPayload := BASE64URL_NOPAD (ascii_bytes json) in
    str_encode encodedPayload = Ok (ascii_bytes encodedPayload) /\
    token = encodedPayload ++ lit "."
            ++ BASE64URL_NOPAD (HMAC_SHA256 key (ascii_bytes encodedPayload)).
Proof.
  intros H.
  destruct (sign_Ok _ _ _ _ _ H) as (t & json & key & Hu & Hc & Hascii & Hk & _ & ->).
  exists t, json, key. repeat split; try assumption.
  - now apply str_encode_ascii.
  - apply str_encode_ascii. apply NOPAD_ascii. now apply ascii_is_byte.
Qed.

Lemma C1_sign_output_format_witness :
  generate_upload_signature example_depth example_heap example_payload example_secret
  = Ok example_token
  /\ exists t json key,
    unfolds example_heap example_payload t /\
    canonicalJSON t = Ok json /\
    str_encode json = Ok (ascii_bytes json) /\
    str_encode example_secret = Ok key /\
    let encodedPayload := BASE64URL_NOPAD (ascii_bytes json) in
    str_encode encodedPayload = Ok (ascii_bytes encodedPayload) /\
    example_token = encodedPayload ++ lit "."
            ++ BASE64URL_NOPAD (HMAC_SHA256 key (ascii_bytes encodedPayload)).
Proof.
  split; [vm_compute; reflexivity|].
  apply (C1_sign_output_format example_depth example_heap example_payload
                               example_secret example_token).
  vm_compute; reflexivity.
Defined.

(** C3 (as stated) fails: a payload holding NaN is signed, not rejected. *)
Lemma C3_nonfinite_is_signed :
  nth_error nan_heap 0 = Some (PyDict [(PyStr (lit "x"), Atom (PyFloat FNaN))])
  /\ nonfinite (PyFloat FNaN) = true
  /\ generate_upload_signature example_depth nan_heap (Ref 0) (lit "k") = Ok nan_token.
Proof. repeat split; vm_compute; reflexivity. Qed.

(** C3 (amended). On a well-formed heap the signer raises a serialization
    error (the TypeError, ValueError or RecursionError of json.dumps) exactly
    when the payload is not serializable, that is when it is cyclic, holds a
    value or a mapping key of an unsupported type, holds an int (as a value
    or as a key) of more than 4300 decimal digits, or nests deeper than the
    interpreter can still recurse.  A payload that is not serializable never
    yields a token.  Non-finite floats are no error: wherever the encoder
    meets NaN or an infinity it writes NaN, Infinity or -Infinity, and a
    mapping with one such member is signed as the token of that text. *)
Theorem C3_serialization_error_iff depth_left h payload secret_key :
  heap_closed h -> val_closed h payload ->
  ((exists e, generate_upload_signature depth_left h payload secret_key = Raise e
              /\ is_serialization_error e = true)
   <-> ~ serializable depth_left h payload)
  /\ (~ serializable depth_left h payload ->
      forall token, generate_upload_signature depth_left h payload secret_key <> Ok token)
  /\ (forall x depth markers, nonfinite x = true ->
      iterencode true (lit ",") (lit ":") h depth markers (Atom x) = Ok (nonfinite_text x))
  /\ (forall addr k x,
      payload = Ref addr -> nth_error h addr = Some (PyDict [(PyStr k, Atom x)]) ->
      nonfinite x = true ->
      generate_upload_signature depth_left h payload secret_key
      = (key <- str_encode secret_key ;;
         Ok (token_format (lit "{" ++ encode_basestring_ascii k ++ lit ":"
                               ++ nonfinite_text x ++ lit "}") key))).
Proof.
  intros Hc Hv.
  assert (Hfail : ~ serializable depth_left h payload ->
          exists e, json_dumps depth_left h payload (lit ",", lit ":") = Raise e
                    /\ is_serialization_error e = true).
  { intros Hns.
    destruct (json_dumps depth_left h payload (lit ",", lit ":")) as [s|e] eqn:Hj.
    - exfalso. apply Hns. destruct (json_dumps_tree _ _ _ _ Hj) as (t & Hu & Ht & Hd).
      exists t. split; [assumption|]. split; [|assumption].
      eapply canonicalJSON_Ok_supported; eassumption.
    - exists e. split; [reflexivity|]. unfold json_dumps in Hj.
      eapply iterencode_raises; eassumption. }
  split; [split|split; [|split]].
  - intros (e & He & Hse) (t & Hu & Hs & Hd).
    destruct (canonicalJSON_supported _ Hs) as [json Hjson].
    rewrite sign_token_format, (json_dumps_serializable _ _ _ _ _ Hu Hjson Hd) in He.
    cbn [bind] in He. apply bind_Raise in He. destruct He as [He|(k & _ & He)]; [|discriminate].
    apply str_encode_raises in He. subst e. discriminate.
  - intros Hns. destruct (Hfail Hns) as (e & He & Hse). exists e.
    split; [|assumption]. rewrite sign_token_format, He. reflexivity.
  - intros Hns token Htok. destruct (Hfail Hns) as (e & He & _).
    rewrite sign_token_format, He in Htok. discriminate.
  - intros x depth markers Hx. rewrite iterencode_atom. now apply encode_atom_nonfinite.
  - intros addr k x -> Hn Hx.
    rewrite sign_token_format, (json_dumps_single_member _ _ _ _ _ Hn).
    rewrite (encode_atom_nonfinite _ Hx). reflexivity.
Qed.

Lemma cyclic_not_serializable depth_left : ~ serializable depth_left cyclic_heap (Ref 0).
Proof.
  intros (t & Hu & _).
  assert (Hlt : forall t, unfolds cyclic_heap (Ref 0) t -> False).
  { clear. intros t. induction t as [a|items IH|items IH|items IH] using pytree_induction;
      intros Hu; inv Hu;
      match goal with
      | Hn : nth_error cyclic_heap 0 = Some _ |- _ => simpl in Hn; inv Hn
      end.
    match goal with
    | HF : Forall2 _ [Ref 0%nat] _ |- _ => inv HF
    end.
    inv IH. auto. }
  eauto.
Qed.

Lemma C3_serialization_error_iff_witness :
  heap_closed cyclic_heap /\ val_closed cyclic_heap (Ref 0) /\
  generate_upload_signature example_depth cyclic_heap (Ref 0) example_secret
  = Raise ValueError /\
  ((exists e, generate_upload_signature example_depth cyclic_heap (Ref 0) example_secret
              = Raise e /\ is_serialization_error e = true)
   <-> ~ serializable example_depth cyclic_heap (Ref 0)).
Proof.
  assert (Hc : heap_closed cyclic_heap).
  { repeat constructor. }
  assert (Hv : val_closed cyclic_heap (Ref 0)).
  { simpl. lia. }
  split; [exact Hc|]. split; [exact Hv|]. split; [vm_compute; reflexivity|].
  exact (proj1 (C3_serialization_error_iff example_depth cyclic_heap (Ref 0)
                                           example_secret Hc Hv)).
Defined.

(** C4. The token is a function of the payload content (the tree the
    payload unfolds to, which fixes the key order) and of the secret: two
    calls on payloads with identical content and the same secret return the
    same result, wherever the payload objects live. *)
Theorem C4_sign_deterministic depth_left h1 payload1 h2 payload2 t secret_key :
  unfolds h1 payload1 t -> unfolds h2 payload2 t ->
  generate_upload_signature depth_left h1 payload1 secret_key
  = generate_upload_signature depth_left h2 payload2 secret_key.
Proof.
  intros H1 H2. rewrite !sign_token_format.
  now rewrite (json_dumps_encode_tree _ _ _ _ H1), (json_dumps_encode_tree _ _ _ _ H2).
Qed.

Lemma example_unfolds : unfolds example_heap example_payload example_tree.
Proof.
  eapply unfolds_dict; [reflexivity|].
  repeat constructor.
Qed.

Lemma moved_unfolds : unfolds moved_heap moved_payload example_tree.
Proof.
  eapply unfolds_dict; [reflexivity|].
  repeat constructor.
Qed.

Lemma C4_sign_deterministic_witness :
  unfolds example_heap example_payload example_tree /\
  unfolds moved_heap moved_payload example_tree /\
  generate_upload_signature example_depth example_heap example_payload example_secret
  = generate_upload_signature example_depth moved_heap moved_payload example_secret.
Proof.
  split; [exact example_unfolds|]. split; [exact moved_unfolds|].
  exact (C4_sign_deterministic example_depth _ _ _ _ _ example_secret
                               example_unfolds moved_unfolds).
Defined.

Lemma token_shape_facts token p s :
  token_shape token p s ->
  forallb token_alphabet token = true /\
  count_occ Z.eq_dec token 46 = 1%nat /\
  split_on 46 token = [p; s].
Proof.
  intros Hsh. pose proof (token_shape_split _ _ _ Hsh) as Hsplit.
  destruct Hsh as [-> Hp Hs _]. change (lit "." ++ s) with (46 :: s).
  repeat split.
  - rewrite forallb_app. cbn [forallb].
    rewrite (forallb_impl _ _ _ b64url_token_alphabet Hp).
    rewrite (forallb_impl _ _ _ b64url_token_alphabet Hs). reflexivity.
  - rewrite count_occ_app, count_occ_cons_eq by reflexivity.
    rewrite !count_occ_absent by now apply b64url_no_dot. reflexivity.
  - exact Hsplit.
Qed.

Lemma token_alphabet_excludes token c :
  forallb token_alphabet token = true -> token_alphabet c = false -> ~ In c token.
Proof.
  intros H Hc Hin. rewrite forallb_forall in H. specialize (H c Hin). congruence.
Qed.

Lemma sign_shape depth_left h payload secret_key token :
  generate_upload_signature depth_left h payload secret_key = Ok token ->
  exists t json key,
    unfolds h payload t /\ canonicalJSON t = Ok json /\
    str_encode secret_key = Ok key /\
    json_dumps depth_left h payload (lit ",", lit ":") = Ok json /\
    token_shape token (BASE64URL_NOPAD json)
      (BASE64URL_NOPAD (HMAC_SHA256 key (BASE64URL_NOPAD json))).
Proof.
  intros H.
  destruct (sign_Ok _ _ _ _ _ H) as (t & json & key & Hu & Hc & Hascii & Hk & Hj & ->).
  exists t, json, key.
  split; [exact Hu|]. split; [exact Hc|]. split; [exact Hk|]. split; [exact Hj|].
  now apply token_format_shape.
Qed.

(** ** The key block of HMAC *)

Lemma hmac_digest_outer key msg : hmac_digest key msg = SHA256.sha256 (outer_input key msg).
Proof. reflexivity. Qed.

Lemma key_block_length key : length (key_block key) = 64%nat.
Proof.
  unfold key_block. apply ljust_length. unfold block_size.
  destruct (64 <? length key)%nat eqn:E.
  - rewrite sha256_length. lia.
  - now apply Nat.ltb_ge in E.
Qed.

Lemma key_block_short key :
  (length key <= 64)%nat -> key_block key = key ++ repeat 0 (64 - length key).
Proof.
  intros H. unfold key_block, block_size.
  destruct (64 <? length key)%nat eqn:E; [apply Nat.ltb_lt in E; lia | reflexivity].
Qed.

Lemma lxor_cancel c x y : Z.lxor c x = Z.lxor c y -> x = y.
Proof.
  intros H.
  rewrite <- (Z.lxor_0_l x), <- (Z.lxor_0_l y), <- (Z.lxor_nilpotent c), !Z.lxor_assoc.
  now rewrite H.
Qed.

Lemma translate_xor_injective c a b : translate_xor c a = translate_xor c b -> a = b.
Proof.
  unfold translate_xor. revert b. induction a as [|x a IH]; intros [|y b] H;
    try discriminate; [reflexivity|].
  simpl in H. injection H as Hx Hr. f_equal; [eapply lxor_cancel; eassumption | auto].
Qed.

Lemma app_inv_length {A : Type} (a b c d : list A) :
  length a = length b -> a ++ c = b ++ d -> a = b /\ c = d.
Proof.
  revert b. induction a as [|x a IH]; intros [|y b] Hl H; try discriminate.
  - split; [reflexivity | exact H].
  - simpl in Hl, H. injection H as -> Hr. injection Hl as Hl.
    destruct (IH b Hl Hr) as [-> ->]. split; reflexivity.
Qed.

Lemma outer_input_key key1 key2 msg :
  outer_input key1 msg = outer_input key2 msg -> key_block key1 = key_block key2.
Proof.
  unfold outer_input. intros H. apply app_inv_length in H.
  - destruct H as [H _]. eapply translate_xor_injective; eassumption.
  - unfold translate_xor. now rewrite !length_map, !key_block_length.
Qed.

Lemma key_block_trailing_nul key1 key2 :
  (length key1 <= length key2 <= 64)%nat ->
  (key_block key1 = key_block key2
   <-> key2 = key1 ++ repeat 0 (length key2 - length key1)).
Proof.
  intros [H12 H2]. rewrite !key_block_short by lia. split.
  - intros E.
    replace (64 - length key1)%nat
      with ((length key2 - length key1) + (64 - length key2))%nat in E by lia.
    rewrite repeat_app, app_assoc in E. apply app_inv_tail in E. now symmetry.
  - intros E. rewrite E at 1. rewrite <- app_assoc, <- repeat_app. do 2 f_equal. lia.
Qed.

(** C5. A returned token consists of characters of [A-Za-z0-9_.-] only, so
    it holds no '+', '/' or '='; it holds exactly one '.', and that '.'
    separates the encoded payload (the unpadded base64url text of the
    serialized payload) from the encoded signature (the unpadded base64url
    text of the HMAC of the encoded payload): the token is the first, the
    '.', and the second, neither of which holds a '.', so that splitting
    the token at '.' gives exactly these two segments. *)
Theorem C5_token_alphabet depth_left h payload secret_key token :
  generate_upload_signature depth_left h payload secret_key = Ok token ->
  forallb token_alphabet token = true /\
  ~ In 43 token /\ ~ In 47 token /\ ~ In 61 token /\
  count_occ Z.eq_dec token 46 = 1%nat /\
  exists json key,
    json_dumps depth_left h payload (lit ",", lit ":") = Ok json /\
    str_encode secret_key = Ok key /\
    let encodedPayload := BASE64URL_NOPAD (ascii_bytes json) in
    let encodedSignature :=
      BASE64URL_NOPAD (HMAC_SHA256 key (ascii_bytes encodedPayload)) in
    token = encodedPayload ++ lit "." ++ encodedSignature /\
    ~ In 46 encodedPayload /\ ~ In 46 encodedSignature /\
    nth_error token (length encodedPayload) = Some 46 /\
    split_on 46 token = [encodedPayload; encodedSignature].
Proof.
  intros H. destruct (sign_shape _ _ _ _ _ H) as (t & json & key & _ & _ & Hk & Hj & Hsh).
  destruct (token_shape_facts _ _ _ Hsh) as (Halpha & Hcount & Hsplit).
  split; [exact Halpha|].
  repeat split; try (apply (token_alphabet_excludes _ _ Halpha); reflexivity); try assumption.
  exists json, key. split; [exact Hj|]. split; [exact Hk|]. cbv zeta. unfold ascii_bytes.
  split; [apply (shape_eq _ _ _ Hsh)|].
  split; [apply b64url_no_dot, (shape_payload _ _ _ Hsh)|].
  split; [apply b64url_no_dot, (shape_signature _ _ _ Hsh)|].
  split; [|exact Hsplit].
  rewrite (shape_eq _ _ _ Hsh), nth_error_app2, Nat.sub_diag by lia. reflexivity.
Qed.

Lemma example_signed :
  generate_upload_signature example_depth example_heap example_payload example_secret
  = Ok example_token.
Proof. vm_compute; reflexivity. Qed.

Lemma C5_token_alphabet_witness :
  generate_upload_signature example_depth example_heap example_payload example_secret
  = Ok example_token /\
  forallb token_alphabet example_token = true /\
  count_occ Z.eq_dec example_token 46 = 1%nat.
Proof.
  split; [exact example_signed|].
  pose proof (C5_token_alphabet _ _ _ _ _ example_signed) as (Ha & _ & _ & _ & Hc & _).
  split; [exact Ha | exact Hc].
Defined.

(** C7 (as stated) fails: two distinct secrets that differ by a trailing NUL
    sign the empty mapping to the same token. *)
Lemma C7_distinct_secrets_same_token :
  secret_a <> secret_a_nul /\
  generate_upload_signature example_depth empty_heap (Ref 0) secret_a = Ok empty_token /\
  generate_upload_signature example_depth empty_heap (Ref 0) secret_a_nul = Ok empty_token.
Proof.
  split; [discriminate|]. split; vm_compute; reflexivity.
Qed.

(** C7 (amended). Fix a payload and two secrets on which the signer
    succeeds, with UTF-8 encodings key1 and key2.  HMAC uses a key only
    through its key block: the key, hashed with SHA-256 when longer than 64
    bytes, padded with NUL bytes to 64 bytes.  If the two key blocks are
    equal the tokens are equal; for keys of at most 64 bytes this happens
    exactly when one key is the other followed by NUL bytes.  If the key
    blocks differ and the tokens are nevertheless equal, then the two inputs
    of the outer hash are different byte strings with the same SHA-256
    digest, an explicit collision of SHA-256.  In every case the tokens are
    equal exactly when the two HMAC-SHA256 digests of the encoded payload
    are. *)
Theorem C7_key_sensitivity_or_collision depth_left h payload k1 k2 token1 token2 :
  generate_upload_signature depth_left h payload k1 = Ok token1 ->
  generate_upload_signature depth_left h payload k2 = Ok token2 ->
  exists key1 key2 encodedPayload,
    str_encode k1 = Ok key1 /\ str_encode k2 = Ok key2 /\
    hd [] (split_on 46 token1) = encodedPayload /\
    (key_block key1 = key_block key2 -> token1 = token2) /\
    (key_block key1 <> key_block key2 -> token1 = token2 ->
     outer_input key1 (ascii_bytes encodedPayload)
     <> outer_input key2 (ascii_bytes encodedPayload)
     /\ SHA256.sha256 (outer_input key1 (ascii_bytes encodedPayload))
        = SHA256.sha256 (outer_input key2 (ascii_bytes encodedPayload))) /\
    ((length key1 <= length key2 <= 64)%nat ->
     (key_block key1 = key_block key2
      <-> key2 = key1 ++ repeat 0 (length key2 - length key1))) /\
    (token1 = token2 <->
     HMAC_SHA256 key1 (ascii_bytes encodedPayload)
     = HMAC_SHA256 key2 (ascii_bytes encodedPayload)) /\
    HMAC_SHA256 key1 (ascii_bytes encodedPayload)
    = SHA256.sha256 (outer_input key1 (ascii_bytes encodedPayload)) /\
    HMAC_SHA256 key2 (ascii_bytes encodedPayload)
    = SHA256.sha256 (outer_input key2 (ascii_bytes encodedPayload)).
Proof.
  intros H1 H2.
  destruct (sign_shape _ _ _ _ _ H1) as (t1 & json1 & key1 & Hu1 & Hc1 & Hk1 & _ & Hsh1).
  destruct (sign_shape _ _ _ _ _ H2) as (t2 & json2 & key2 & Hu2 & Hc2 & Hk2 & _ & Hsh2).
  pose proof (unfolds_functional _ _ _ _ Hu1 Hu2) as ->.
  assert (json1 = json2) by congruence. subst json2.
  set (ep := BASE64URL_NOPAD json1) in *.
  assert (Htok : token1 = token2 <-> HMAC_SHA256 key1 ep = HMAC_SHA256 key2 ep).
  { rewrite (shape_eq _ _ _ Hsh1), (shape_eq _ _ _ Hsh2). split.
    - intros Heq. apply app_inv_head in Heq. apply app_inv_head in Heq.
      apply NOPAD_injective; [| |exact Heq];
        rewrite <- hmac_digest_rfc2104; apply hmac_digest_bytes.
    - intros Hd. now rewrite Hd. }
  assert (Hout : forall key, HMAC_SHA256 key ep = SHA256.sha256 (outer_input key ep)).
  { intros key. now rewrite <- hmac_digest_rfc2104. }
  exists key1, key2, ep. unfold ascii_bytes.
  split; [exact Hk1|]. split; [exact Hk2|].
  split; [now rewrite (token_shape_split _ _ _ Hsh1)|].
  split; [|split; [|split; [|split; [|split]]]].
  - intros Hb. apply Htok. rewrite !Hout. unfold outer_input. now rewrite Hb.
  - intros Hb Heq. split.
    + intros Ho. apply Hb. eapply outer_input_key; eassumption.
    + rewrite <- !Hout. now apply Htok.
  - apply key_block_trailing_nul.
  - exact Htok.
  - apply Hout.
  - apply Hout.
Qed.

Lemma empty_signed_a :
  generate_upload_signature example_depth empty_heap (Ref 0) secret_a = Ok empty_token.
Proof. vm_compute; reflexivity. Qed.

Lemma empty_signed_empty_secret :
  generate_upload_signature example_depth empty_heap (Ref 0) [] = Ok empty_secret_token.
Proof. vm_compute; reflexivity. Qed.

Lemma C7_key_sensitivity_or_collision_witness :
  generate_upload_signature example_depth empty_heap (Ref 0) secret_a = Ok empty_token /\
  generate_upload_signature example_depth empty_heap (Ref 0) [] = Ok empty_secret_token /\
  exists key1 key2 encodedPayload,
    str_encode secret_a = Ok key1 /\ str_encode [] = Ok key2 /\
    hd [] (split_on 46 empty_token) = encodedPayload /\
    (key_block key1 = key_block key2 -> empty_token = empty_secret_token).
Proof.
  split; [exact empty_signed_a|]. split; [exact empty_signed_empty_secret|].
  destruct (C7_key_sensitivity_or_collision _ _ _ _ _ _ _
              empty_signed_a empty_signed_empty_secret)
    as (key1 & key2 & ep & Hk1 & Hk2 & Hep & Hsame & _).
  exists key1, key2, ep. repeat split; assumption.
Defined.

(** C8 (as stated) fails: a non-empty secret holding a lone surrogate cannot
    be encoded, and the signer raises instead of returning a token. *)
Lemma C8_surrogate_secret_raises :
  surrogate_secret <> [] /\
  nth_error empty_heap 0 = Some (PyDict []) /\
  generate_upload_signature example_depth empty_heap (Ref 0) surrogate_secret = Raise UnicodeEncodeError.
Proof.
  split; [discriminate|]. split; vm_compute; reflexivity.
Qed.

(** C8 (amended). For the empty mapping and every non-empty secret without
    surrogate code points the signer succeeds: the canonical text is the two
    characters of an empty object, and the token has two parts, the encoded
    payload and a non-empty (43 character) encoded signature. *)
Theorem C8_empty_payload depth_left h addr secret_key :
  nth_error h addr = Some (PyDict []) ->
  secret_key <> [] ->
  forallb (fun c => negb (is_surrogate c)) secret_key = true ->
  json_dumps depth_left h (Ref addr) (lit ",", lit ":") = Ok [123; 125] /\
  exists encodedSignature,
    generate_upload_signature depth_left h (Ref addr) secret_key
    = Ok (BASE64URL_NOPAD [123; 125] ++ lit "." ++ encodedSignature) /\
    split_on 46 (BASE64URL_NOPAD [123; 125] ++ lit "." ++ encodedSignature)
    = [BASE64URL_NOPAD [123; 125]; encodedSignature] /\
    encodedSignature <> [] /\ length encodedSignature = 43%nat.
Proof.
  intros Hn _ Hkey.
  assert (Hu : unfolds h (Ref addr) (TDict [])) by (econstructor; [eassumption | constructor]).
  assert (Hj : json_dumps depth_left h (Ref addr) (lit ",", lit ":") = Ok [123; 125])
    by (rewrite (json_dumps_encode_tree _ _ _ _ Hu); reflexivity).
  split; [exact Hj|].
  destruct (str_encode_no_surrogates _ Hkey) as [key Hk].
  pose proof (token_format_shape [123; 125] key eq_refl) as Hsh.
  exists (BASE64URL_NOPAD (HMAC_SHA256 key (BASE64URL_NOPAD [123; 125]))).
  split; [|split; [|split]].
  - rewrite sign_token_format, Hj, Hk. reflexivity.
  - apply (token_shape_split _ _ _ Hsh).
  - intros E. pose proof (shape_signature_length _ _ _ Hsh) as L. rewrite E in L. discriminate.
  - apply (shape_signature_length _ _ _ Hsh).
Qed.

Lemma C8_empty_payload_witness :
  nth_error empty_heap 0 = Some (PyDict []) /\
  secret_a <> [] /\
  forallb (fun c => negb (is_surrogate c)) secret_a = true /\
  json_dumps example_depth empty_heap (Ref 0) (lit ",", lit ":") = Ok [123; 125] /\
  exists encodedSignature,
    generate_upload_signature example_depth empty_heap (Ref 0) secret_a
    = Ok (BASE64URL_NOPAD [123; 125] ++ lit "." ++ encodedSignature) /\
    split_on 46 (BASE64URL_NOPAD [123; 125] ++ lit "." ++ encodedSignature)
    = [BASE64URL_NOPAD [123; 125]; encodedSignature] /\
    encodedSignature <> [] /\ length encodedSignature = 43%nat.
Proof.
  assert (H1 : nth_error empty_heap 0 = Some (PyDict [])) by reflexivity.
  assert (H2 : secret_a <> []) by discriminate.
  assert (H3 : forallb (fun c => negb (is_surrogate c)) secret_a = true) by reflexivity.
  split; [exact H1|]. split; [exact H2|]. split; [exact H3|].
  exact (C8_empty_payload example_depth empty_heap 0 secret_a H1 H2 H3).
Defined.

(** C9. The signature segment, the text after the last '.', is 43 characters
    long: the HMAC-SHA256 digest has 32 bytes, its base64 text has 44
    characters and ends in exactly one '=', which is stripped. *)
Theorem C9_signature_segment_length depth_left h payload secret_key token :
  generate_upload_signature depth_left h payload secret_key = Ok token ->
  exists key msg,
    str_encode secret_key = Ok key /\
    let digest := hmac_digest key msg in
    let signature_segment := last (split_on 46 token) [] in
    length digest = 32%nat /\
    length (urlsafe_b64encode digest) = 44%nat /\
    urlsafe_b64encode digest = signature_segment ++ [61] /\
    ~ In 61 signature_segment /\
    length signature_segment = 43%nat.
Proof.
  intros H. destruct (sign_shape _ _ _ _ _ H) as (t & json & key & _ & _ & Hk & _ & Hsh).
  exists key, (BASE64URL_NOPAD json). split; [exact Hk|]. cbv zeta.
  rewrite (token_shape_split _ _ _ Hsh). cbn [last].
  rewrite hmac_digest_rfc2104.
  pose proof (shape_signature_length _ _ _ Hsh) as Hlen.
  pose proof (shape_signature _ _ _ Hsh) as Halpha.
  assert (Hd : length (HMAC_SHA256 key (BASE64URL_NOPAD json)) = 32%nat)
    by (rewrite <- hmac_digest_rfc2104; apply hmac_digest_length).
  assert (He : urlsafe_b64encode (HMAC_SHA256 key (BASE64URL_NOPAD json))
               = BASE64URL_NOPAD (HMAC_SHA256 key (BASE64URL_NOPAD json)) ++ [61]).
  { rewrite urlsafe_b64encode_padded
      by (rewrite <- hmac_digest_rfc2104; apply hmac_digest_bytes).
    now rewrite padding_of_length, Hd. }
  repeat split; try assumption.
  - rewrite He, length_app, Hlen. reflexivity.
  - intros Hin. rewrite forallb_forall in Halpha. specialize (Halpha 61 Hin). discriminate.
Qed.

Lemma C9_signature_segment_length_witness :
  generate_upload_signature example_depth example_heap example_payload example_secret
  = Ok example_token /\
  exists key msg,
    str_encode example_secret = Ok key /\
    let digest := hmac_digest key msg in
    let signature_segment := last (split_on 46 example_token) [] in
    length digest = 32%nat /\
    length (urlsafe_b64encode digest) = 44%nat /\
    urlsafe_b64encode digest = signature_segment ++ [61] /\
    ~ In 61 signature_segment /\
    length signature_segment = 43%nat.
Proof.
  split; [exact example_signed|].
  exact (C9_signature_segment_length _ _ _ _ _ example_signed).
Defined.

(** C10. The part of the token before the first '.' does not depend on the
    secret: for one payload and two secrets on which the signer succeeds the
    payload segments agree, and they are the encoding of the canonical text. *)
Theorem C10_payload_segment_ignores_secret depth_left h payload k1 k2 token1 token2 :
  generate_upload_signature depth_left h payload k1 = Ok token1 ->
  generate_upload_signature depth_left h payload k2 = Ok token2 ->
  hd [] (split_on 46 token1) = hd [] (split_on 46 token2) /\
  exists json, json_dumps depth_left h payload (lit ",", lit ":") = Ok json /\
               hd [] (split_on 46 token1) = BASE64URL_NOPAD (ascii_bytes json).
Proof.
  intros H1 H2.
  destruct (sign_shape _ _ _ _ _ H1) as (t1 & json1 & key1 & Hu1 & Hc1 & Hk1 & Hj1 & Hsh1).
  destruct (sign_shape _ _ _ _ _ H2) as (t2 & json2 & key2 & Hu2 & Hc2 & Hk2 & Hj2 & Hsh2).
  pose proof (unfolds_functional _ _ _ _ Hu1 Hu2) as ->.
  assert (json1 = json2) by congruence. subst json2.
  rewrite (token_shape_split _ _ _ Hsh1), (token_shape_split _ _ _ Hsh2).
  split; [reflexivity|]. exists json1. split; [exact Hj1 | reflexivity].
Qed.

Lemma C10_payload_segment_ignores_secret_witness :
  generate_upload_signature example_depth empty_heap (Ref 0) secret_a = Ok empty_token /\
  generate_upload_signature example_depth empty_heap (Ref 0) [] = Ok empty_secret_token /\
  hd [] (split_on 46 empty_token) = hd [] (split_on 46 empty_secret_token) /\
  exists json, json_dumps example_depth empty_heap (Ref 0) (lit ",", lit ":") = Ok json /\
               hd [] (split_on 46 empty_token) = BASE64URL_NOPAD (ascii_bytes json).
Proof.
  split; [exact empty_signed_a|]. split; [exact empty_signed_empty_secret|].
  exact (C10_payload_segment_ignores_secret _ _ _ _ _ _ _
           empty_signed_a empty_signed_empty_secret).
Defined.

(** ** Whitespace occurs inside string literals only *)

Lemma ws_outside_bare a rest :
  forallb bare a = true ->
  insignificant_ws false false (a ++ rest) = insignificant_ws false false rest.
Proof.
  induction a as [|c a IH]; intros H; [reflexivity|].
  cbn [forallb] in H. apply andb_true_iff in H. destruct H as [Hc Ha].
  unfold bare in Hc. apply andb_true_iff in Hc. destruct Hc as [Hw Hq].
  apply negb_true_iff in Hw, Hq.
  cbn [app insignificant_ws]. rewrite Hw, Hq. now apply IH.
Qed.

Lemma ws_inside_char c rest :
  (c =? 92) = false -> (c =? 34) = false ->
  insignificant_ws true false (c :: rest) = insignificant_ws true false rest.
Proof. intros H1 H2. cbn [insignificant_ws]. now rewrite H1, H2. Qed.

Lemma ws_inside_escape e rest :
  insignificant_ws true false (92 :: e :: rest) = insignificant_ws true false rest.
Proof. reflexivity. Qed.

Lemma hex_digit_inside n : (hex_digit n =? 92) = false /\ (hex_digit n =? 34) = false.
Proof.
  unfold hex_digit. pose proof (land_15_range n).
  destruct (Z.land n 15 <? 10) eqn:E; lia.
Qed.

Lemma ws_inside_format_04x n rest :
  insignificant_ws true false (format_04x n ++ rest) = insignificant_ws true false rest.
Proof.
  unfold format_04x. cbn [app].
  rewrite !ws_inside_char by apply hex_digit_inside. reflexivity.
Qed.

Lemma ws_inside_backslash_u n rest :
  insignificant_ws true false (backslash_u ++ format_04x n ++ rest)
  = insignificant_ws true false rest.
Proof.
  unfold backslash_u. cbn [app]. rewrite ws_inside_escape. apply ws_inside_format_04x.
Qed.

Lemma ws_inside_replace c rest :
  insignificant_ws true false (replace c ++ rest) = insignificant_ws true false rest.
Proof.
  unfold replace. destruct (ESCAPE_DCT c) as [s|] eqn:E.
  - unfold ESCAPE_DCT in E.
    repeat match type of E with
           | (if ?b then _ else _) = _ => destruct b
           end; try discriminate; injection E as <-; try reflexivity.
    apply (ws_inside_backslash_u c rest).
  - destruct (c <? 65536); cbv zeta.
    + rewrite <- app_assoc. apply ws_inside_backslash_u.
    + rewrite <- !app_assoc. now rewrite !ws_inside_backslash_u.
Qed.

Lemma ws_inside_escaped s rest :
  insignificant_ws true false
    (flat_map (fun c => if ESCAPE_ASCII c then replace c else [c]) s ++ 34 :: rest)
  = insignificant_ws false false rest.
Proof.
  induction s as [|c s IH]; [reflexivity|].
  cbn [flat_map]. rewrite <- app_assoc.
  destruct (ESCAPE_ASCII c) eqn:E.
  - now rewrite ws_inside_replace.
  - unfold ESCAPE_ASCII in E. apply orb_false_iff in E. destruct E as [E _].
    apply orb_false_iff in E. destruct E as [E1 E2].
    cbn [app]. now rewrite ws_inside_char.
Qed.

Lemma ws_string s rest :
  insignificant_ws false false (encode_basestring_ascii s ++ rest)
  = insignificant_ws false false rest.
Proof.
  unfold encode_basestring_ascii. rewrite <- !app_assoc.
  change ([34] ++ ?x) with (34 :: x). cbn [insignificant_ws].
  change (is_ws 34) with false. change (34 =? 34) with true. cbv iota.
  apply ws_inside_escaped.
Qed.

Lemma is_digit_bare c : is_digit c = true -> bare c = true.
Proof. unfold is_digit, bare, is_ws. lia. Qed.

Lemma int_text_bare n : forallb bare (int_text n) = true.
Proof.
  unfold int_text. destruct (Z.to_int n); cbn [forallb];
    rewrite ?(forallb_impl _ _ _ is_digit_bare (uint_chars_digits _)); reflexivity.
Qed.

Lemma float_chars_bare r : forallb bare (map float_char_code r) = true.
Proof.
  induction r as [|c r IH]; [reflexivity|]. cbn [map forallb]. rewrite IH. now destruct c.
Qed.

Lemma ws_atom a s rest :
  encode_atom true a = Ok s ->
  insignificant_ws false false (s ++ rest) = insignificant_ws false false rest.
Proof.
  destruct a as [|[]|n|x|str|b]; cbn [encode_atom]; intros H; try discriminate.
  - inv H. reflexivity.
  - inv H. reflexivity.
  - inv H. reflexivity.
  - destruct (int_repr_Ok _ _ H) as [-> _]. apply ws_outside_bare, int_text_bare.
  - destruct x; cbn in H; inv H; try reflexivity.
    apply ws_outside_bare, float_chars_bare.
  - inv H. apply ws_string.
Qed.

Lemma ws_intercalate parts rest :
  Forall (fun s => forall r, insignificant_ws false false (s ++ r)
                             = insignificant_ws false false r) parts ->
  insignificant_ws false false (intercalate (lit ",") parts ++ rest)
  = insignificant_ws false false rest.
Proof.
  induction 1 as [|s parts Hs Hparts IH]; [reflexivity|].
  cbn [intercalate]. destruct parts as [|s' parts']; [apply Hs|].
  rewrite <- !app_assoc, Hs. change (lit "," ++ ?x) with (44 :: x).
  cbn [insignificant_ws]. change (is_ws 44) with false. change (44 =? 34) with false.
  cbv iota. exact IH.
Qed.

Lemma ws_bracketed l body r rest :
  bare l = true -> bare r = true ->
  (forall x, insignificant_ws false false (body ++ x) = insignificant_ws false false x) ->
  insignificant_ws false false (([l] ++ body ++ [r]) ++ rest)
  = insignificant_ws false false rest.
Proof.
  intros Hl Hr Hbody. rewrite <- !app_assoc.
  rewrite (ws_outside_bare [l]) by (cbn [forallb]; now rewrite Hl).
  rewrite Hbody. apply (ws_outside_bare [r]). cbn [forallb]. now rewrite Hr.
Qed.

Lemma ws_member k v rest :
  (forall x, insignificant_ws false false (v ++ x) = insignificant_ws false false x) ->
  insignificant_ws false false ((encode_basestring_ascii k ++ lit ":" ++ v) ++ rest)
  = insignificant_ws false false rest.
Proof.
  intros Hv. rewrite <- !app_assoc, ws_string. change (lit ":" ++ ?x) with (58 :: x).
  cbn [insignificant_ws]. change (is_ws 58) with false. change (58 =? 34) with false.
  cbv iota. apply Hv.
Qed.

Lemma ws_canonicalJSON t : forall json rest,
  canonicalJSON t = Ok json ->
  insignificant_ws false false (json ++ rest) = insignificant_ws false false rest.
Proof.
  induction t as [a|items IH|items IH|items IH] using pytree_induction; intros json rest H.
  - eapply ws_atom; eassumption.
  - rewrite canonicalJSON_list in H. bind_inv H. inv H. apply sequence_Ok_inv in Hx.
    apply (ws_bracketed 91 _ 93); [reflexivity..|]. intros r. apply ws_intercalate.
    rewrite Forall_forall in IH. eapply Forall2_Forall_r; [eassumption|].
    intros t y Hin Hy r'. eauto.
  - rewrite canonicalJSON_tuple in H. bind_inv H. inv H. apply sequence_Ok_inv in Hx.
    apply (ws_bracketed 91 _ 93); [reflexivity..|]. intros r. apply ws_intercalate.
    rewrite Forall_forall in IH. eapply Forall2_Forall_r; [eassumption|].
    intros t y Hin Hy r'. eauto.
  - rewrite canonicalJSON_dict in H. bind_inv H. inv H. apply sequence_Ok_inv in Hx.
    apply (ws_bracketed 123 _ 125); [reflexivity..|]. intros r. apply ws_intercalate.
    rewrite Forall_forall in IH. eapply Forall2_Forall_r; [eassumption|].
    intros kv y Hin Hy r'. unfold member_text, member_with in Hy.
    bind_inv Hy. bind_inv Hy. injection Hy as <-.
    apply (ws_member x0 x1). intros r''. eauto.
Qed.

Lemma member_texts items members :
  sequence (map member_text items) = Ok members ->
  Forall2 (fun kv m => exists k v,
             key_text true (fst kv) = Ok k /\ canonicalJSON (snd kv) = Ok v /\
             m = encode_basestring_ascii k ++ lit ":" ++ v) items members.
Proof.
  intros H. apply sequence_Ok_inv in H.
  induction H as [|kv m items members Hm _ IH]; constructor; [|exact IH].
  unfold member_text, member_with in Hm. bind_inv Hm. bind_inv Hm. inv Hm. eauto.
Qed.

Lemma example_serializable : serializable example_depth example_heap example_payload.
Proof.
  exists example_tree. split; [exact example_unfolds|].
  split; [reflexivity|]. unfold example_depth. simpl. lia.
Qed.

(** C2. For a serializable payload the text the signer serializes is the
    compact JSON text: an array is its elements separated by one ',', an
    object is its members separated by one ',' with each key separated from
    its value by one ':', the members in the order of the mapping
    (insertion order, nothing is sorted); no whitespace character occurs
    outside a string literal.  This text is what the payload segment of
    every token encodes. *)
Theorem C2_compact_canonical_text depth_left h payload :
  serializable depth_left h payload ->
  exists t json,
    unfolds h payload t /\
    json_dumps depth_left h payload (lit ",", lit ":") = Ok json /\
    canonicalJSON t = Ok json /\
    insignificant_ws false false json = false /\
    (forall items, t = TDict items ->
     exists members,
       Forall2 (fun kv m => exists k v,
                  key_text true (fst kv) = Ok k /\ canonicalJSON (snd kv) = Ok v /\
                  m = encode_basestring_ascii k ++ lit ":" ++ v) items members /\
       json = lit "{" ++ intercalate (lit ",") members ++ lit "}") /\
    (forall items, t = TList items \/ t = TTuple items ->
     exists elements,
       Forall2 (fun v e => canonicalJSON v = Ok e) items elements /\
       json = lit "[" ++ intercalate (lit ",") elements ++ lit "]") /\
    (forall secret_key token,
     generate_upload_signature depth_left h payload secret_key = Ok token ->
     hd [] (split_on 46 token) = BASE64URL_NOPAD (ascii_bytes json)).
Proof.
  intros (t & Hu & Hs & Hd). destruct (canonicalJSON_supported _ Hs) as [json Hjson].
  pose proof (json_dumps_serializable _ _ _ _ _ Hu Hjson Hd) as Hj.
  exists t, json. split; [exact Hu|]. split; [exact Hj|]. split; [exact Hjson|].
  split; [|split; [|split]].
  - rewrite <- (app_nil_r json). now rewrite (ws_canonicalJSON _ _ [] Hjson).
  - intros items ->. rewrite canonicalJSON_dict in Hjson. bind_inv Hjson. inv Hjson.
    exists x. split; [now apply member_texts | reflexivity].
  - intros items [-> | ->].
    + rewrite canonicalJSON_list in Hjson. bind_inv Hjson. inv Hjson.
      exists x. split; [now apply sequence_Ok_inv | reflexivity].
    + rewrite canonicalJSON_tuple in Hjson. bind_inv Hjson. inv Hjson.
      exists x. split; [now apply sequence_Ok_inv | reflexivity].
  - intros secret_key token Htok.
    destruct (sign_shape _ _ _ _ _ Htok) as (t' & json' & key & _ & _ & _ & Hj' & Hsh).
    assert (json' = json) by congruence. subst json'.
    now rewrite (token_shape_split _ _ _ Hsh).
Qed.

Lemma C2_compact_canonical_text_witness :
  serializable example_depth example_heap example_payload /\
  exists t json,
    unfolds example_heap example_payload t /\
    json_dumps example_depth example_heap example_payload (lit ",", lit ":") = Ok json /\
    canonicalJSON t = Ok json /\
    insignificant_ws false false json = false.
Proof.
  split; [exact example_serializable|].
  destruct (C2_compact_canonical_text _ _ _ example_serializable)
    as (t & json & Hu & Hj & Hc & Hw & _).
  exists t, json. repeat split; assumption.
Defined.

(** * Further properties of the signer *)

(** ** Exceptions *)

Lemma str_encode_surrogate s :
  existsb is_surrogate s = true -> str_encode s = Raise UnicodeEncodeError.
Proof.
  induction s as [|c s IH]; [discriminate|]. cbn [existsb str_encode]. intros H.
  destruct (utf8_char c) as [b|e] eqn:Hc.
  - cbn [bind]. apply orb_true_iff in H. destruct H as [H|H].
    + exfalso. unfold utf8_char in Hc. rewrite H in Hc. unfold is_surrogate in H.
      destruct (c <? 128) eqn:E1; [lia|]. destruct (c <? 2048) eqn:E2; [lia|]. discriminate.
    + now rewrite (IH H).
  - cbn [bind]. f_equal. apply (str_encode_raises [c]). simpl. now rewrite Hc.
Qed.

Lemma existsb_forallb_negb {A : Type} (p : A -> bool) l :
  existsb p l = false -> forallb (fun x => negb (p x)) l = true.
Proof.
  induction l as [|x l IH]; [reflexivity|]. simpl. intros H.
  apply orb_false_iff in H. destruct H as [-> H]. simpl. auto.
Qed.



(** For a serializable payload the only failure left is the secret: the
    signer raises UnicodeEncodeError exactly when the secret holds a
    surrogate code point, and returns a token otherwise. *)
Theorem sign_secret_encode_error depth_left h payload secret_key :
  serializable depth_left h payload ->
  (generate_upload_signature depth_left h payload secret_key = Raise UnicodeEncodeError
   <-> existsb is_surrogate secret_key = true)
  /\ (existsb is_surrogate secret_key = false ->
      exists token, generate_upload_signature depth_left h payload secret_key = Ok token).
Proof.
  intros (t & Hu & Hs & Hd). destruct (canonicalJSON_supported _ Hs) as [json Hjson].
  rewrite sign_token_format, (json_dumps_serializable _ _ _ _ _ Hu Hjson Hd). cbn [bind].
  destruct (existsb is_surrogate secret_key) eqn:E.
  - rewrite (str_encode_surrogate _ E). split; [now split | discriminate].
  - destruct (str_encode_no_surrogates _ (existsb_forallb_negb _ _ E)) as [key ->].
    cbn [bind]. split; [split; discriminate | eauto].
Qed.

Lemma sign_secret_encode_error_witness :
  serializable example_depth example_heap example_payload /\
  (generate_upload_signature example_depth example_heap example_payload surrogate_secret
   = Raise UnicodeEncodeError
   <-> existsb is_surrogate surrogate_secret = true).
Proof.
  split; [exact example_serializable|].
  exact (proj1 (sign_secret_encode_error example_depth example_heap example_payload
                                         surrogate_secret example_serializable)).
Defined.

(** ** Recursion depth *)

(** A token obtained with some recursion room is obtained with any larger
    room: the depth limit can only turn a token into an error. *)
Theorem sign_depth_monotone depth_left depth_left' h payload secret_key token :
  generate_upload_signature depth_left h payload secret_key = Ok token ->
  (depth_left <= depth_left')%nat ->
  generate_upload_signature depth_left' h payload secret_key = Ok token.
Proof.
  intros H Hle. rewrite sign_token_format in *.
  destruct (json_dumps depth_left h payload (lit ",", lit ":")) as [json|e] eqn:Hj;
    [|discriminate].
  destruct (json_dumps_tree _ _ _ _ Hj) as (t & Hu & Hc & Hd).
  rewrite (json_dumps_serializable depth_left' _ _ _ _ Hu Hc) by lia. exact H.
Qed.

Lemma sign_depth_monotone_witness :
  generate_upload_signature 0 example_heap example_payload example_secret = Ok example_token
  /\ (0 <= example_depth)%nat
  /\ generate_upload_signature example_depth example_heap example_payload example_secret
     = Ok example_token.
Proof.
  assert (H0 : generate_upload_signature 0 example_heap example_payload example_secret
               = Ok example_token) by (vm_compute; reflexivity).
  assert (Hle : (0 <= example_depth)%nat) by (unfold example_depth; lia).
  split; [exact H0|]. split; [exact Hle|].
  exact (sign_depth_monotone 0 example_depth _ _ _ _ H0 Hle).
Defined.

Lemma sequence_recursion {A : Type} (f : A -> result pystr) (l : list A) :
  Forall (fun x => (exists s, f x = Ok s) \/ f x = Raise RecursionError) l ->
  (exists parts, sequence (map f l) = Ok parts)
  \/ sequence (map f l) = Raise RecursionError.
Proof.
  induction 1 as [|x l Hx _ IH]; [left; simpl; eauto|].
  cbn [map sequence]. destruct Hx as [[s ->]| ->]; [|now right].
  cbn [bind]. destruct IH as [[parts ->]| ->]; [left; simpl; eauto | now right].
Qed.

Lemma encode_tree_supported t : forall depth,
  supported t = true ->
  (exists s, encode_tree depth t = Ok s) \/ encode_tree depth t = Raise RecursionError.
Proof.
  induction t as [a|items IH|items IH|items IH] using pytree_induction; intros depth Hs.
  - left. destruct (supported_value_encode _ Hs) as [s Hs']. exists s.
    destruct depth; exact Hs'.
  - destruct depth as [|depth]; [now right|]. rewrite encode_tree_list.
    simpl in Hs. rewrite forallb_forall in Hs. rewrite Forall_forall in IH.
    destruct (sequence_recursion (encode_tree depth) items) as [[parts ->]| ->];
      [apply Forall_forall; auto | left; simpl; eauto | now right].
  - destruct depth as [|depth]; [now right|]. rewrite encode_tree_tuple.
    simpl in Hs. rewrite forallb_forall in Hs. rewrite Forall_forall in IH.
    destruct (sequence_recursion (encode_tree depth) items) as [[parts ->]| ->];
      [apply Forall_forall; auto | left; simpl; eauto | now right].
  - destruct depth as [|depth]; [now right|]. rewrite encode_tree_dict.
    simpl in Hs. rewrite forallb_forall in Hs. rewrite Forall_forall in IH.
    destruct (sequence_recursion (member_with (encode_tree depth)) items)
      as [[parts ->]| ->]; [| left; simpl; eauto | now right].
    apply Forall_forall. intros kv Hin. specialize (Hs kv Hin).
    apply andb_true_iff in Hs. destruct Hs as [Hk Hv]. unfold member_with.
    destruct (supported_value_key _ Hk) as [k ->]. cbn [bind].
    destruct (IH kv Hin depth Hv) as [[s ->]| ->]; [left; simpl; eauto | now right].
Qed.

(** A payload of supported values that nests deeper than the recursion room
    raises RecursionError, whatever the secret. *)
Theorem sign_recursion_error depth_left h payload t secret_key :
  unfolds h payload t -> supported t = true ->
  (S depth_left < tree_depth t)%nat ->
  generate_upload_signature depth_left h payload secret_key = Raise RecursionError.
Proof.
  intros Hu Hs Hd. rewrite sign_token_format, (json_dumps_encode_tree _ _ _ _ Hu).
  destruct (encode_tree_supported t (S depth_left) Hs) as [[s Hok]| ->]; [|reflexivity].
  apply encode_tree_Ok in Hok. lia.
Qed.

Lemma nested_unfolds : unfolds nested_heap (Ref 0) (TList [TList [TList []]]).
Proof.
  eapply unfolds_list; [reflexivity|]. constructor; [|constructor].
  eapply unfolds_list; [reflexivity|]. constructor; [|constructor].
  eapply unfolds_list; [reflexivity|]. constructor.
Qed.

Lemma sign_recursion_error_witness :
  unfolds nested_heap (Ref 0) (TList [TList [TList []]]) /\
  supported (TList [TList [TList []]]) = true /\
  (1 < tree_depth (TList [TList [TList []]]))%nat /\
  generate_upload_signature 0 nested_heap (Ref 0) example_secret = Raise RecursionError.
Proof.
  assert (Hd : (1 < tree_depth (TList [TList [TList []]]))%nat) by (simpl; lia).
  split; [exact nested_unfolds|]. split; [reflexivity|]. split; [exact Hd|].
  exact (sign_recursion_error 0 nested_heap (Ref 0) _ example_secret
                              nested_unfolds eq_refl Hd).
Defined.

(** ** What a single member does *)

Lemma json_dumps_member depth_left h addr k x :
  nth_error h addr = Some (PyDict [(k, Atom x)]) ->
  json_dumps depth_left h (Ref addr) (lit ",", lit ":")
  = (kt <- key_text true k ;;
     v <- encode_atom true x ;;
     Ok (lit "{" ++ encode_basestring_ascii kt ++ lit ":" ++ v ++ lit "}")).
Proof.
  intros Hn. unfold json_dumps. cbn [fst snd iterencode]. rewrite Hn.
  cbn [in_markers existsb iterencode_dict fst snd].
  destruct (key_text true k) as [kt|e]; [|reflexivity]. cbn [bind].
  rewrite iterencode_atom. destruct (encode_atom true x) as [v|e]; [|reflexivity].
  cbn [bind app]. now rewrite <- !app_assoc.
Qed.

(** An int of more than 4300 decimal digits makes the signer raise
    ValueError; an int within the limit never does. *)
Theorem sign_int_digit_limit depth_left h addr k n secret_key :
  nth_error h addr = Some (PyDict [(PyStr k, Atom (PyInt n))]) ->
  ((max_str_digits < int_digits n)%nat ->
   generate_upload_signature depth_left h (Ref addr) secret_key = Raise ValueError)
  /\ ((int_digits n <= max_str_digits)%nat ->
      generate_upload_signature depth_left h (Ref addr) secret_key
      = (key <- str_encode secret_key ;;
         Ok (token_format (lit "{" ++ encode_basestring_ascii k ++ lit ":"
                               ++ int_text n ++ lit "}") key))).
Proof.
  intros Hn. rewrite sign_token_format, (json_dumps_member _ _ _ _ _ Hn).
  cbn [key_text encode_atom bind]. unfold int_repr. split; intros H.
  - apply Nat.ltb_lt in H. now rewrite H.
  - apply Nat.ltb_ge in H. now rewrite H.
Qed.

Lemma sign_int_digit_limit_witness :
  nth_error big_int_heap 0 = Some (PyDict [(PyStr (lit "n"), Atom (PyInt big_int))]) /\
  (max_str_digits < int_digits big_int)%nat /\
  generate_upload_signature example_depth big_int_heap (Ref 0) example_secret
  = Raise ValueError.
Proof.
  assert (Hn : nth_error big_int_heap 0
               = Some (PyDict [(PyStr (lit "n"), Atom (PyInt big_int))])) by reflexivity.
  assert (Hd : (max_str_digits < int_digits big_int)%nat)
    by (apply Nat.ltb_lt; vm_compute; reflexivity).
  split; [exact Hn|]. split; [exact Hd|].
  exact (proj1 (sign_int_digit_limit example_depth big_int_heap 0 _ big_int
                                     example_secret Hn) Hd).
Defined.

(** A bytes object, as a value or as a key, makes the signer raise
    TypeError. *)
Theorem sign_bytes_rejected depth_left h addr k x b secret_key :
  nth_error h addr = Some (PyDict [(k, Atom x)]) ->
  (k = PyBytes b \/ (exists s, k = PyStr s) /\ x = PyBytes b) ->
  generate_upload_signature depth_left h (Ref addr) secret_key = Raise TypeError.
Proof.
  intros Hn Hb. rewrite sign_token_format, (json_dumps_member _ _ _ _ _ Hn).
  destruct Hb as [-> | [[s ->] ->]]; reflexivity.
Qed.

Lemma sign_bytes_rejected_witness :
  nth_error bytes_heap 0 = Some (PyDict [(PyStr (lit "b"), Atom (PyBytes [1]))]) /\
  generate_upload_signature example_depth bytes_heap (Ref 0) example_secret
  = Raise TypeError.
Proof.
  assert (Hn : nth_error bytes_heap 0
               = Some (PyDict [(PyStr (lit "b"), Atom (PyBytes [1]))])) by reflexivity.
  split; [exact Hn|].
  apply (sign_bytes_rejected example_depth bytes_heap 0 _ _ [1] example_secret Hn).
  right. split; [eexists; reflexivity | reflexivity].
Defined.



(** ** Tuples and shared objects *)

Lemma encode_tree_listify t : forall depth,
  encode_tree depth (listify t) = encode_tree depth t.
Proof.
  induction t as [a|items IH|items IH|items IH] using pytree_induction; intros depth.
  - reflexivity.
  - cbn [listify]. destruct depth as [|depth]; [reflexivity|].
    rewrite !encode_tree_list, map_map.
    rewrite (sequence_map_ext _ (encode_tree depth) items); [reflexivity|].
    eapply Forall_impl; [|exact IH]. intros c Hc. apply Hc.
  - cbn [listify]. destruct depth as [|depth]; [reflexivity|].
    rewrite encode_tree_list, encode_tree_tuple, map_map.
    rewrite (sequence_map_ext _ (encode_tree depth) items); [reflexivity|].
    eapply Forall_impl; [|exact IH]. intros c Hc. apply Hc.
  - cbn [listify]. destruct depth as [|depth]; [reflexivity|].
    rewrite !encode_tree_dict, map_map.
    rewrite (sequence_map_ext _ (member_with (encode_tree depth)) items); [reflexivity|].
    eapply Forall_impl; [|exact IH]. intros kv Hkv.
    unfold member_with. cbn [fst snd]. now rewrite Hkv.
Qed.

(** Tuples are written as arrays: a payload signs like the payload in which
    every tuple is replaced by the list of its items. *)
Theorem sign_tuple_as_list depth_left h1 payload1 h2 payload2 t secret_key :
  unfolds h1 payload1 t -> unfolds h2 payload2 (listify t) ->
  generate_upload_signature depth_left h1 payload1 secret_key
  = generate_upload_signature depth_left h2 payload2 secret_key.
Proof.
  intros H1 H2. rewrite !sign_token_format.
  rewrite (json_dumps_encode_tree _ _ _ _ H1), (json_dumps_encode_tree _ _ _ _ H2).
  now rewrite encode_tree_listify.
Qed.

Lemma tuple_unfolds :
  unfolds tuple_heap (Ref 0) (TTuple [TAtom (PyInt 1); TAtom (PyInt 2)]).
Proof. eapply unfolds_tuple; [reflexivity|]. repeat constructor. Qed.

Lemma list_unfolds :
  unfolds list_heap (Ref 0) (listify (TTuple [TAtom (PyInt 1); TAtom (PyInt 2)])).
Proof. eapply unfolds_list; [reflexivity|]. repeat constructor. Qed.

Lemma sign_tuple_as_list_witness :
  unfolds tuple_heap (Ref 0) (TTuple [TAtom (PyInt 1); TAtom (PyInt 2)]) /\
  unfolds list_heap (Ref 0) (listify (TTuple [TAtom (PyInt 1); TAtom (PyInt 2)])) /\
  generate_upload_signature example_depth tuple_heap (Ref 0) example_secret
  = generate_upload_signature example_depth list_heap (Ref 0) example_secret.
Proof.
  split; [exact tuple_unfolds|]. split; [exact list_unfolds|].
  exact (sign_tuple_as_list example_depth _ _ _ _ _ example_secret
                            tuple_unfolds list_unfolds).
Defined.

(** An object held twice by a list is no cycle: it is written out at both
    places, and the circular-reference check does not fire. *)
Theorem json_dumps_shared_object depth_left h a b t s :
  nth_error h a = Some (PyList [Ref b; Ref b]) ->
  unfolds h (Ref b) t -> canonicalJSON t = Ok s -> (tree_depth t <= depth_left)%nat ->
  json_dumps depth_left h (Ref a) (lit ",", lit ":")
  = Ok (lit "[" ++ s ++ lit "," ++ s ++ lit "]").
Proof.
  intros Ha Hb Hs Hd.
  assert (Hu : unfolds h (Ref a) (TList [t; t])).
  { eapply unfolds_list; [exact Ha|]. repeat constructor; assumption. }
  apply (json_dumps_serializable _ _ _ _ _ Hu).
  - rewrite canonicalJSON_list. cbn [map sequence]. rewrite Hs. cbn [bind intercalate].
    now rewrite <- !app_assoc.
  - cbn [tree_depth fold_right]. lia.
Qed.

Lemma shared_unfolds : unfolds shared_heap (Ref 1) (TDict []).
Proof. eapply unfolds_dict; [reflexivity|]. constructor. Qed.

Lemma json_dumps_shared_object_witness :
  nth_error shared_heap 0 = Some (PyList [Ref 1; Ref 1]) /\
  unfolds shared_heap (Ref 1) (TDict []) /\
  canonicalJSON (TDict []) = Ok (lit "{}") /\
  (tree_depth (TDict []) <= example_depth)%nat /\
  json_dumps example_depth shared_heap (Ref 0) (lit ",", lit ":")
  = Ok (lit "[" ++ lit "{}" ++ lit "," ++ lit "{}" ++ lit "]").
Proof.
  assert (Ha : nth_error shared_heap 0 = Some (PyList [Ref 1; Ref 1])) by reflexivity.
  assert (Hs : canonicalJSON (TDict []) = Ok (lit "{}")) by reflexivity.
  assert (Hd : (tree_depth (TDict []) <= example_depth)%nat)
    by (unfold example_depth; simpl; lia).
  split; [exact Ha|]. split; [exact shared_unfolds|]. split; [exact Hs|].
  split; [exact Hd|].
  exact (json_dumps_shared_object example_depth _ 0 1 _ _ Ha shared_unfolds Hs Hd).
Defined.

(** ** The two segments, decoded *)

(** The serialized text is printable ASCII (json.dumps escapes everything
    else), so its UTF-8 encoding has one byte per character, the character
    itself. *)
Theorem json_text_is_ascii depth_left h payload json :
  json_dumps depth_left h payload (lit ",", lit ":") = Ok json ->
  forallb printable json = true /\
  str_encode json = Ok (ascii_bytes json) /\
  forallb is_byte (ascii_bytes json) = true.
Proof.
  intros H. pose proof (json_dumps_printable _ _ _ _ H) as Hp.
  assert (Ha : forallb is_ascii json = true)
    by (eapply forallb_impl; [apply printable_ascii | exact Hp]).
  split; [exact Hp|]. split; [now apply str_encode_ascii | now apply ascii_is_byte].
Qed.

Lemma example_dumps :
  json_dumps example_depth example_heap example_payload (lit ",", lit ":")
  = canonicalJSON example_tree.
Proof. vm_compute; reflexivity. Qed.

Lemma json_text_is_ascii_witness :
  exists json,
    json_dumps example_depth example_heap example_payload (lit ",", lit ":") = Ok json /\
    forallb printable json = true /\
    str_encode json = Ok (ascii_bytes json).
Proof.
  destruct (canonicalJSON example_tree) as [json|e] eqn:E; [|discriminate].
  exists json. pose proof example_dumps as H. rewrite E in H.
  destruct (json_text_is_ascii _ _ _ _ H) as (Hp & He & _).
  repeat split; assumption.
Defined.

(** Base64-decoding the first segment of a token, with its padding
    restored, gives back the bytes of the serialized text, and these decode
    to the text. *)
Theorem payload_segment_decodes depth_left h payload secret_key token :
  generate_upload_signature depth_left h payload secret_key = Ok token ->
  exists json,
    json_dumps depth_left h payload (lit ",", lit ":") = Ok json /\
    urlsafe_b64decode (restore_padding (hd [] (split_on 46 token)))
    = Some (ascii_bytes json) /\
    bytes_decode (ascii_bytes json) = Ok json.
Proof.
  intros H.
  destruct (sign_Ok _ _ _ _ _ H) as (t & json & key & _ & _ & Ha & _ & Hj & ->).
  exists json. split; [exact Hj|].
  rewrite (token_shape_split _ _ _ (token_format_shape json key Ha)). cbn [hd].
  split; [apply base64url_roundtrip; now apply ascii_is_byte | now apply bytes_decode_ascii].
Qed.

Lemma payload_segment_decodes_witness :
  generate_upload_signature example_depth example_heap example_payload example_secret
  = Ok example_token /\
  exists json,
    json_dumps example_depth example_heap example_payload (lit ",", lit ":") = Ok json /\
    urlsafe_b64decode (restore_padding (hd [] (split_on 46 example_token)))
    = Some (ascii_bytes json) /\
    bytes_decode (ascii_bytes json) = Ok json.
Proof.
  split; [exact example_signed|].
  exact (payload_segment_decodes _ _ _ _ _ example_signed).
Defined.

(** Base64-decoding the second segment of a token gives the 32 bytes that
    [hmac.new(key, msg, sha256).digest()] returns for the encoded secret and
    the bytes of the first segment: a verifier that holds the secret can
    recompute them from the token alone. *)
Theorem signature_segment_decodes depth_left h payload secret_key token :
  generate_upload_signature depth_left h payload secret_key = Ok token ->
  exists key,
    str_encode secret_key = Ok key /\
    str_encode (hd [] (split_on 46 token)) = Ok (ascii_bytes (hd [] (split_on 46 token))) /\
    urlsafe_b64decode (restore_padding (last (split_on 46 token) []))
    = Some (hmac_digest key (ascii_bytes (hd [] (split_on 46 token)))).
Proof.
  intros H.
  destruct (sign_Ok _ _ _ _ _ H) as (t & json & key & _ & _ & Ha & Hk & _ & ->).
  exists key. split; [exact Hk|].
  rewrite (token_shape_split _ _ _ (token_format_shape json key Ha)). cbn [hd last].
  unfold ascii_bytes. split.
  - apply str_encode_ascii, NOPAD_ascii. now apply ascii_is_byte.
  - rewrite base64url_roundtrip by (rewrite <- hmac_digest_rfc2104; apply hmac_digest_bytes).
    now rewrite hmac_digest_rfc2104.
Qed.

Lemma signature_segment_decodes_witness :
  generate_upload_signature example_depth example_heap example_payload example_secret
  = Ok example_token /\
  exists key,
    str_encode example_secret = Ok key /\
    urlsafe_b64decode (restore_padding (last (split_on 46 example_token) []))
    = Some (hmac_digest key (ascii_bytes (hd [] (split_on 46 example_token)))).
Proof.
  split; [exact example_signed|].
  destruct (signature_segment_decodes _ _ _ _ _ example_signed) as (key & Hk & _ & Hd).
  exists key. split; assumption.
Defined.

(** ** Library functions against their specifications *)

(** [hmac.new(key, msg, hashlib.sha256).digest()], as the hmac module
    computes it with its two translation tables, is HMAC of RFC 2104 with
    SHA-256 and a 64-byte block; the digest has 32 bytes. *)
Theorem hmac_digest_is_rfc2104 key msg :
  hmac_digest key msg = HMAC_SHA256 key msg /\
  length (hmac_digest key msg) = 32%nat /\
  forallb is_byte (hmac_digest key msg) = true.
Proof.
  split; [apply hmac_digest_rfc2104|]. split; [apply hmac_digest_length|].
  apply hmac_digest_bytes.
Qed.

(** [base64.urlsafe_b64encode(data).decode().rstrip('=')] is unpadded
    base64url of RFC 4648: the library text is the unpadded text followed by
    zero, one or two '=', which [rstrip] removes. *)
Theorem urlsafe_b64encode_rstrip data :
  forallb is_byte data = true ->
  urlsafe_b64encode data = BASE64URL_NOPAD data ++ padding data /\
  (length (padding data) = (3 - length data mod 3) mod 3)%nat /\
  (text <- bytes_decode (urlsafe_b64encode data) ;; Ok (rstrip (lit "=") text))
  = Ok (BASE64URL_NOPAD data).
Proof.
  intros Hb. split; [now apply urlsafe_b64encode_padded|].
  split; [|now apply payload_base64_nopad].
  rewrite padding_of_length.
  pose proof (Nat.mod_upper_bound (length data) 3 ltac:(lia)) as Hm.
  destruct (length data mod 3)%nat as [|[|[|m]]]; [reflexivity..|lia].
Qed.

Lemma urlsafe_b64encode_rstrip_witness :
  forallb is_byte [123; 125] = true /\
  urlsafe_b64encode [123; 125] = BASE64URL_NOPAD [123; 125] ++ padding [123; 125].
Proof.
  assert (Hb : forallb is_byte [123; 125] = true) by reflexivity.
  split; [exact Hb|].
  exact (proj1 (urlsafe_b64encode_rstrip [123; 125] Hb)).
Defined.

(** * Reading the payload back *)

(** ** String literals *)

Lemma hex_value_hex_digit m : hex_value (hex_digit m) = Some (Z.land m 15).
Proof.
  unfold hex_digit, hex_value, is_digit. pose proof (land_15_range m) as Hr.
  set (d := Z.land m 15) in *. cbv zeta.
  destruct (d <? 10) eqn:E.
  - replace ((48 <=? 48 + d) && (48 + d <=? 57)) with true by lia. f_equal. lia.
  - replace ((48 <=? 87 + d) && (87 + d <=? 57)) with false by lia.
    replace ((97 <=? 87 + d) && (87 + d <=? 102)) with true by lia. f_equal. lia.
Qed.

Lemma hex4_format_04x n :
  0 <= n < 65536 ->
  hex4 (hex_digit (Z.shiftr n 12)) (hex_digit (Z.shiftr n 8))
       (hex_digit (Z.shiftr n 4)) (hex_digit n) = Some n.
Proof.
  intros Hn. unfold hex4. rewrite !hex_value_hex_digit. f_equal.
  change 15 with (Z.ones 4). rewrite !Z.land_ones, !Z.shiftr_div_pow2 by lia.
  change (2 ^ 4) with 16. change (2 ^ 8) with 256. change (2 ^ 12) with 4096.
  Z.div_mod_to_equations. lia.
Qed.

Lemma scan_string_plain c r :
  (c =? 34) = false -> (c =? 92) = false -> (c <? 32) = false ->
  scan_string (c :: r) = push_char c (scan_string r).
Proof. intros H1 H2 H3. cbn [scan_string]. now rewrite H1, H2, H3. Qed.

Lemma scan_string_quote r : scan_string (34 :: r) = Some ([], r).
Proof. reflexivity. Qed.

Lemma scan_string_u_eq g0 g1 g2 g3 r2 :
  scan_string (92 :: 117 :: g0 :: g1 :: g2 :: g3 :: r2)
  = match hex4 g0 g1 g2 g3 with
    | None => None
    | Some u =>
      if is_high_surrogate u then
        match r2 with
        | bs :: uu :: k0 :: k1 :: k2 :: k3 :: r3 =>
          match (if (bs =? 92) && (uu =? 117) then hex4 k0 k1 k2 k3 else None) with
          | Some u2 =>
            if is_low_surrogate u2
            then push_char (combine_surrogates u u2) (scan_string r3)
            else push_char u (scan_string r2)
          | None => push_char u (scan_string r2)
          end
        | _ => push_char u (scan_string r2)
        end
      else push_char u (scan_string r2)
    end.
Proof. reflexivity. Qed.

Lemma scan_string_u n x :
  0 <= n < 65536 -> is_high_surrogate n && low_escape_ahead x = false ->
  scan_string (backslash_u ++ format_04x n ++ x) = push_char n (scan_string x).
Proof.
  intros Hn Hh.
  change (backslash_u ++ format_04x n ++ x)
    with (92 :: 117 :: hex_digit (Z.shiftr n 12) :: hex_digit (Z.shiftr n 8)
             :: hex_digit (Z.shiftr n 4) :: hex_digit n :: x).
  rewrite scan_string_u_eq, hex4_format_04x by assumption.
  destruct (is_high_surrogate n); [|reflexivity]. cbn [andb] in Hh.
  unfold low_escape_ahead in Hh.
  destruct x as [|bs [|uu [|k0 [|k1 [|k2 [|k3 r3]]]]]]; try reflexivity.
  destruct (if (bs =? 92) && (uu =? 117) then hex4 k0 k1 k2 k3 else None) as [u2|];
    [now rewrite Hh | reflexivity].
Qed.

Lemma scan_string_pair hi lo r :
  0 <= hi < 65536 -> 0 <= lo < 65536 ->
  is_high_surrogate hi = true -> is_low_surrogate lo = true ->
  scan_string (backslash_u ++ format_04x hi ++ backslash_u ++ format_04x lo ++ r)
  = push_char (combine_surrogates hi lo) (scan_string r).
Proof.
  intros Hhi Hlo Hh Hl.
  change (backslash_u ++ format_04x hi ++ backslash_u ++ format_04x lo ++ r)
    with (92 :: 117 :: hex_digit (Z.shiftr hi 12) :: hex_digit (Z.shiftr hi 8)
             :: hex_digit (Z.shiftr hi 4) :: hex_digit hi
             :: 92 :: 117 :: hex_digit (Z.shiftr lo 12) :: hex_digit (Z.shiftr lo 8)
             :: hex_digit (Z.shiftr lo 4) :: hex_digit lo :: r).
  rewrite scan_string_u_eq, hex4_format_04x, Hh by assumption.
  change (92 =? 92) with true. change (117 =? 117) with true. cbn [andb].
  now rewrite hex4_format_04x, Hl.
Qed.

Lemma forall_kibi (p : Z -> bool) :
  forallb p kibi_range = true -> forall x, 0 <= x < 1024 -> p x = true.
Proof.
  intros H x Hx. rewrite forallb_forall in H. apply H. now apply in_range_list.
Qed.

Lemma lor_surrogate_base x :
  0 <= x < 1024 -> Z.lor 0xd800 x = 0xd800 + x /\ Z.lor 0xdc00 x = 0xdc00 + x.
Proof.
  intros Hx.
  assert (H : (Z.lor 0xd800 x =? 0xd800 + x) && (Z.lor 0xdc00 x =? 0xdc00 + x) = true).
  { apply (forall_kibi (fun x => (Z.lor 0xd800 x =? 0xd800 + x)
                                 && (Z.lor 0xdc00 x =? 0xdc00 + x)));
      [vm_compute; reflexivity | assumption]. }
  apply andb_true_iff in H. destruct H as [H1 H2]. split; now apply Z.eqb_eq.
Qed.

Lemma land_kibi x : Z.land x 0x3ff = x mod 1024.
Proof. change 0x3ff with (Z.ones 10). now rewrite Z.land_ones by lia. Qed.

(** The escape of a character above the basic plane: its two surrogates. *)
Lemma replace_supplementary c :
  65536 <= c <= 1114111 ->
  exists hi lo,
    replace c = backslash_u ++ format_04x hi ++ backslash_u ++ format_04x lo /\
    0 <= hi < 65536 /\ 0 <= lo < 65536 /\
    is_high_surrogate hi = true /\ is_low_surrogate lo = true /\
    combine_surrogates hi lo = c.
Proof.
  intros Hc. unfold replace, ESCAPE_DCT.
  replace (c =? 92) with false by lia. replace (c =? 34) with false by lia.
  replace (c =? 8) with false by lia. replace (c =? 12) with false by lia.
  replace (c =? 10) with false by lia. replace (c =? 13) with false by lia.
  replace (c =? 9) with false by lia.
  replace ((0 <=? c) && (c <? 32)) with false by lia.
  replace (c <? 65536) with false by lia.
  cbv zeta. rewrite !land_kibi, Z.shiftr_div_pow2 by lia. change (2 ^ 10) with 1024.
  set (n := c - 65536).
  assert (Hn : 0 <= n < 1048576) by (subst n; lia).
  pose proof (Z.mod_pos_bound (n / 1024) 1024 eq_refl) as B1.
  pose proof (Z.mod_pos_bound n 1024 eq_refl) as B2.
  destruct (lor_surrogate_base ((n / 1024) mod 1024) B1) as [-> _].
  destruct (lor_surrogate_base (n mod 1024) B2) as [_ ->].
  do 2 eexists. split; [reflexivity|].
  split; [lia|]. split; [lia|].
  split; [unfold is_high_surrogate; lia|]. split; [unfold is_low_surrogate; lia|].
  unfold combine_surrogates. subst n. Z.div_mod_to_equations. lia.
Qed.

(** What the escape of one character looks like. *)
Lemma replace_cases c :
  is_code_point c = true -> ESCAPE_ASCII c = true ->
  (exists x, replace c = [92; x] /\ simple_escape x = Some c /\ (x =? 117) = false)
  \/ (0 <= c < 65536 /\ replace c = backslash_u ++ format_04x c)
  \/ 65536 <= c <= 1114111.
Proof.
  intros Hc He. unfold is_code_point in Hc. unfold replace, ESCAPE_DCT.
  destruct (c =? 92) eqn:E1; [apply Z.eqb_eq in E1; subst c; left; now exists 92|].
  destruct (c =? 34) eqn:E2; [apply Z.eqb_eq in E2; subst c; left; now exists 34|].
  destruct (c =? 8) eqn:E3; [apply Z.eqb_eq in E3; subst c; left; now exists 98|].
  destruct (c =? 12) eqn:E4; [apply Z.eqb_eq in E4; subst c; left; now exists 102|].
  destruct (c =? 10) eqn:E5; [apply Z.eqb_eq in E5; subst c; left; now exists 110|].
  destruct (c =? 13) eqn:E6; [apply Z.eqb_eq in E6; subst c; left; now exists 114|].
  destruct (c =? 9) eqn:E7; [apply Z.eqb_eq in E7; subst c; left; now exists 116|].
  destruct ((0 <=? c) && (c <? 32)) eqn:E8; [right; left; split; [lia | reflexivity]|].
  destruct (c <? 65536) eqn:E9; [right; left; split; [lia | reflexivity]|].
  right; right. lia.
Qed.

Lemma low_escape_first bs y : (bs =? 92) = false -> low_escape_ahead (bs :: y) = false.
Proof.
  intros H. unfold low_escape_ahead.
  destruct y as [|uu [|k0 [|k1 [|k2 [|k3 r3]]]]]; try reflexivity. now rewrite H.
Qed.

Lemma low_escape_simple x y : (x =? 117) = false -> low_escape_ahead (92 :: x :: y) = false.
Proof.
  intros H. unfold low_escape_ahead.
  destruct y as [|k0 [|k1 [|k2 [|k3 r3]]]]; try reflexivity.
  rewrite H. now rewrite andb_false_r.
Qed.

Lemma low_escape_u n y :
  0 <= n < 65536 -> is_low_surrogate n = false ->
  low_escape_ahead (backslash_u ++ format_04x n ++ y) = false.
Proof.
  intros Hn Hl.
  change (backslash_u ++ format_04x n ++ y)
    with (92 :: 117 :: hex_digit (Z.shiftr n 12) :: hex_digit (Z.shiftr n 8)
             :: hex_digit (Z.shiftr n 4) :: hex_digit n :: y).
  unfold low_escape_ahead. change (92 =? 92) with true. change (117 =? 117) with true.
  cbn [andb]. now rewrite hex4_format_04x.
Qed.

(** The escapes of a str that does not start with a low surrogate do not
    start with the escape of one. *)
Lemma low_escape_escaped s rest :
  text_ok s = true ->
  match s with
  | c :: _ => is_low_surrogate c = false
  | [] => True
  end ->
  low_escape_ahead (escaped s ++ 34 :: rest) = false.
Proof.
  destruct s as [|c s]; intros Hok Hlow; [now apply low_escape_first|].
  cbn [text_ok] in Hok. apply andb_true_iff in Hok. destruct Hok as [Hok _].
  apply andb_true_iff in Hok. destruct Hok as [Hc _].
  unfold escaped. cbn [flat_map]. rewrite <- app_assoc.
  destruct (ESCAPE_ASCII c) eqn:E.
  - destruct (replace_cases c Hc E) as [(x & -> & _ & Hx) | [[Hr ->] | Hr]].
    + now apply low_escape_simple.
    + rewrite <- app_assoc. now apply low_escape_u.
    + destruct (replace_supplementary c Hr) as (hi & lo & -> & Hhi & _ & Hh & _).
      rewrite <- !app_assoc. apply low_escape_u; [assumption|].
      unfold is_high_surrogate, is_low_surrogate in *. lia.
  - unfold ESCAPE_ASCII in E. apply orb_false_iff in E. destruct E as [E _].
    apply orb_false_iff in E. destruct E as [E _]. cbn [app]. now apply low_escape_first.
Qed.

Lemma scan_string_simple x c r :
  simple_escape x = Some c -> (x =? 117) = false ->
  scan_string (92 :: x :: r) = push_char c (scan_string r).
Proof.
  intros Hs Hx. cbn [scan_string]. change (92 =? 34) with false.
  change (92 =? 92) with true. cbv iota. now rewrite Hx, Hs.
Qed.

Lemma scan_escaped s rest :
  text_ok s = true -> scan_string (escaped s ++ 34 :: rest) = Some (s, rest).
Proof.
  induction s as [|c s IH]; intros H; [reflexivity|].
  pose proof H as Hok. cbn [text_ok] in H.
  apply andb_true_iff in H. destruct H as [H Hs].
  apply andb_true_iff in H. destruct H as [Hc Hpair].
  apply negb_true_iff in Hpair.
  unfold escaped. cbn [flat_map]. fold (escaped s). rewrite <- app_assoc.
  destruct (ESCAPE_ASCII c) eqn:E.
  - destruct (replace_cases c Hc E) as [(x & -> & Hx & Hu) | [[Hr ->] | Hr]].
    + cbn [app]. now rewrite (scan_string_simple x c), (IH Hs).
    + rewrite <- app_assoc, scan_string_u, (IH Hs); [reflexivity | assumption |].
      destruct (is_high_surrogate c); [|reflexivity]. cbn [andb] in *.
      apply low_escape_escaped; [exact Hs|]. destruct s; [trivial | exact Hpair].
    + destruct (replace_supplementary c Hr) as (hi & lo & -> & Hhi & Hlo & Hh & Hl & <-).
      rewrite <- !app_assoc. now rewrite scan_string_pair, (IH Hs).
  - unfold ESCAPE_ASCII in E. apply orb_false_iff in E. destruct E as [E E3].
    apply orb_false_iff in E. destruct E as [E1 E2]. apply negb_false_iff in E3.
    cbn [app]. rewrite scan_string_plain, (IH Hs) by lia. reflexivity.
Qed.

(** A string literal, as the encoder writes it, is read back as the string. *)
Lemma scan_encoded s rest :
  text_ok s = true ->
  exists body, encode_basestring_ascii s ++ rest = 34 :: body
               /\ scan_string body = Some (s, rest).
Proof.
  intros H. exists (escaped s ++ 34 :: rest). split.
  - unfold encode_basestring_ascii, escaped. rewrite <- !app_assoc. reflexivity.
  - now apply scan_escaped.
Qed.

(** ** Numbers *)

Lemma span_app (p : Z -> bool) a rest :
  forallb p a = true ->
  match rest with [] => True | c :: _ => p c = false end ->
  span p (a ++ rest) = (a, rest).
Proof.
  intros Ha Hr. induction a as [|x a IH].
  - destruct rest as [|c rest]; [reflexivity|]. cbn [app span]. now rewrite Hr.
  - cbn [forallb] in Ha. apply andb_true_iff in Ha. destruct Ha as [Hx Ha].
    cbn [app span]. now rewrite Hx, (IH Ha).
Qed.

Lemma span_spec (p : Z -> bool) s a b :
  span p s = (a, b) ->
  s = a ++ b /\ forallb p a = true /\ match b with [] => True | c :: _ => p c = false end.
Proof.
  revert a b. induction s as [|c s IH]; intros a b H.
  - inv H. auto.
  - cbn [span] in H. destruct (p c) eqn:E.
    + destruct (span p s) as [a' b'] eqn:Hs. inv H.
      destruct (IH _ _ eq_refl) as (-> & Ha & Hb).
      split; [reflexivity|]. split; [|assumption]. cbn [forallb]. now rewrite E.
    + inv H. auto.
Qed.

Lemma stops_not_number rest :
  stops rest = true ->
  match rest with [] => True | c :: _ => is_number_char c = false end.
Proof.
  destruct rest as [|c rest]; [trivial|]. unfold stops, is_number_char, is_digit. lia.
Qed.

Lemma chars_uint_uint_chars d : chars_uint (uint_chars d) = d.
Proof.
  induction d as [|d IH|d IH|d IH|d IH|d IH|d IH|d IH|d IH|d IH|d IH];
    [reflexivity | cbn [uint_chars]; rewrite <- IH at 2; reflexivity..].
Qed.

Lemma nzhead_no_zero d u : Decimal.nzhead d <> Decimal.D0 u.
Proof.
  induction d as [|d IH|d|d|d|d|d|d|d|d|d]; cbn [Decimal.nzhead]; try discriminate.
  exact IH.
Qed.

Lemma to_int_norm n : Decimal.norm (Z.to_int n) = Z.to_int n.
Proof. now rewrite <- DecimalZ.to_of, DecimalZ.of_to. Qed.

Lemma normal_digits d :
  Decimal.nzhead d = d -> d <> Decimal.Nil -> int_part_ok (uint_chars d) = true.
Proof.
  intros Hd Hn.
  destruct d as [|d|d|d|d|d|d|d|d|d|d]; [congruence | exfalso; exact (nzhead_no_zero _ _ Hd) |..];
    cbn [uint_chars int_part_ok forallb]; rewrite uint_chars_digits; reflexivity.
Qed.

Lemma unorm_fixed d :
  Decimal.unorm d = d ->
  d = Decimal.D0 Decimal.Nil \/ (Decimal.nzhead d = d /\ d <> Decimal.Nil).
Proof.
  unfold Decimal.unorm. intros H.
  destruct (Decimal.nzhead d) eqn:E; try (right; split; congruence).
  now left.
Qed.

Lemma int_part_ok_head s :
  int_part_ok s = true -> exists c r, s = c :: r /\ is_digit c = true.
Proof.
  destruct s as [|c r]; [discriminate|]. cbn [int_part_ok forallb]. intros H.
  apply andb_true_iff in H. destruct H as [H _].
  apply andb_true_iff in H. destruct H as [H _]. eauto.
Qed.

Lemma int_part_not_digits s : forallb is_digit s = false -> int_part_ok s = false.
Proof. destruct s as [|c r]; [reflexivity|]. unfold int_part_ok. now intros ->. Qed.

Lemma strip_minus_digit c r : is_digit c = true -> strip_minus (c :: r) = c :: r.
Proof.
  intros H. unfold strip_minus. unfold is_digit in H.
  destruct (c =? 45) eqn:E; [lia | reflexivity].
Qed.

Lemma int_value_digits c r : is_digit c = true ->
  int_value (c :: r) = Z.of_int (Decimal.Pos (chars_uint (c :: r))).
Proof.
  intros H. unfold int_value. unfold is_digit in H.
  destruct (c =? 45) eqn:E; [lia | reflexivity].
Qed.

Lemma to_int_digits n :
  match Z.to_int n with
  | Decimal.Pos d | Decimal.Neg d => int_part_ok (uint_chars d) = true
  end.
Proof.
  pose proof (to_int_norm n) as H.
  destruct (Z.to_int n) as [d|d]; cbn [Decimal.norm] in H.
  - injection H as H.
    destruct (unorm_fixed _ H) as [-> | [H1 H2]]; [reflexivity | now apply normal_digits].
  - destruct (Decimal.nzhead d) eqn:E; try discriminate;
      injection H as H; apply normal_digits; congruence.
Qed.

Lemma int_text_digits n : length (strip_minus (int_text n)) = int_digits n.
Proof.
  pose proof (to_int_digits n) as Hok. unfold int_text, int_digits.
  destruct (Z.to_int n) as [d|d].
  - destruct (int_part_ok_head _ Hok) as (c & r & Hcr & Hc).
    now rewrite Hcr, strip_minus_digit.
  - reflexivity.
Qed.

Lemma number_of_int_text n :
  (int_digits n <=? max_str_digits)%nat = true ->
  number_of_text (int_text n) = Some (PyInt n).
Proof.
  intros Hlim. pose proof (DecimalZ.of_to n) as Hv. pose proof (to_int_digits n) as Hok.
  unfold number_of_text. rewrite int_text_digits.
  replace (max_str_digits <? int_digits n)%nat with false
    by (symmetry; apply Nat.ltb_ge; now apply Nat.leb_le).
  unfold is_int_text, int_text.
  destruct (Z.to_int n) as [d|d].
  - destruct (int_part_ok_head _ Hok) as (c & r & Hcr & Hc).
    rewrite Hcr, strip_minus_digit, <- Hcr, Hok by assumption.
    rewrite Hcr, int_value_digits, <- Hcr, chars_uint_uint_chars by assumption.
    now rewrite Hv.
  - change (strip_minus (45 :: uint_chars d)) with (uint_chars d). rewrite Hok.
    change (int_value (45 :: uint_chars d))
      with (Z.of_int (Decimal.Neg (chars_uint (uint_chars d)))).
    now rewrite chars_uint_uint_chars, Hv.
Qed.

Lemma is_digit_number c : is_digit c = true -> is_number_char c = true.
Proof. unfold is_number_char. now intros ->. Qed.

Lemma int_text_number n : forallb is_number_char (int_text n) = true.
Proof.
  unfold int_text. destruct (Z.to_int n); cbn [forallb];
    rewrite ?(forallb_impl _ _ _ is_digit_number (uint_chars_digits _)); reflexivity.
Qed.

Lemma int_text_head n : number_head (int_text n) = true.
Proof.
  pose proof (to_int_digits n) as Hok. unfold int_text.
  destruct (Z.to_int n) as [d|d];
    destruct (int_part_ok_head _ Hok) as (c & r & -> & Hc); cbn [number_head].
  - now rewrite Hc.
  - rewrite Hc. now rewrite orb_true_r.
Qed.

Lemma float_chars_number repr : forallb is_number_char (map float_char_code repr) = true.
Proof.
  induction repr as [|c repr IH]; [reflexivity|]. cbn [map forallb]. rewrite IH.
  now destruct c.
Qed.

Lemma float_code_roundtrip repr : map float_char_of_code (map float_char_code repr) = repr.
Proof.
  induction repr as [|c repr IH]; [reflexivity|]. cbn [map]. rewrite IH. now destruct c.
Qed.

Lemma float_text_parts s :
  is_float_text s = true ->
  exists ip c r, strip_minus s = ip ++ c :: r /\ int_part_ok ip = true
                 /\ is_digit c = false.
Proof.
  unfold is_float_text. destruct (span is_digit (strip_minus s)) as [ip r1] eqn:Hs.
  destruct (span_spec _ _ _ _ Hs) as (Hsplit & _ & Hr). intros H.
  apply andb_true_iff in H. destruct H as [Hip H].
  destruct r1 as [|c r]; [discriminate|]. eauto 6.
Qed.

Lemma float_not_int s : is_float_text s = true -> is_int_text s = false.
Proof.
  intros H. destruct (float_text_parts _ H) as (ip & c & r & Hs & _ & Hc).
  unfold is_int_text. rewrite Hs. apply int_part_not_digits.
  rewrite forallb_app. cbn [forallb]. rewrite Hc. now rewrite andb_false_r.
Qed.

Lemma float_text_head s : is_float_text s = true -> number_head s = true.
Proof.
  intros H. destruct (float_text_parts _ H) as (ip & c' & r' & Hs & Hip & _).
  destruct (int_part_ok_head _ Hip) as (d & ip' & -> & Hd).
  destruct s as [|c r]; [discriminate|]. cbn [number_head].
  unfold strip_minus in Hs. destruct (c =? 45) eqn:E.
  - subst r. cbn [app]. rewrite Hd. now rewrite orb_true_r.
  - cbn [app] in Hs. injection Hs as -> _. now rewrite Hd.
Qed.

Lemma number_of_float_text repr :
  is_float_text (map float_char_code repr) = true ->
  number_of_text (map float_char_code repr) = Some (PyFloat (FFinite repr)).
Proof.
  intros H. unfold number_of_text. rewrite (float_not_int _ H), H.
  now rewrite float_code_roundtrip.
Qed.

(** ** One value at a time *)

Lemma skip_ws_head c r : is_ws c = false -> skip_ws (c :: r) = c :: r.
Proof.
  intros H. unfold skip_ws. cbn [lstrip].
  replace (char_in [32; 9; 10; 13] c) with false; [reflexivity|].
  unfold char_in. cbn [existsb]. unfold is_ws in H. lia.
Qed.

Lemma parse_value_string f d r :
  parse_value (S f) d (34 :: r)
  = match scan_string r with
    | Some (str, r') => Some (TAtom (PyStr str), r')
    | None => None
    end.
Proof. reflexivity. Qed.

Lemma parse_value_null f d r :
  parse_value (S f) d (lit "null" ++ r) = Some (TAtom PyNone, r).
Proof. reflexivity. Qed.

Lemma parse_value_true f d r :
  parse_value (S f) d (lit "true" ++ r) = Some (TAtom (PyBool true), r).
Proof. reflexivity. Qed.

Lemma parse_value_false f d r :
  parse_value (S f) d (lit "false" ++ r) = Some (TAtom (PyBool false), r).
Proof. reflexivity. Qed.

Lemma parse_value_empty_list f d r :
  parse_value (S f) (S d) (lit "[]" ++ r) = Some (TList [], r).
Proof. reflexivity. Qed.

Lemma parse_value_empty_dict f d r :
  parse_value (S f) (S d) (lit "{}" ++ r) = Some (TDict [], r).
Proof. reflexivity. Qed.

Lemma parse_value_list f d c r :
  is_ws c = false -> (c =? 93) = false ->
  parse_value (S f) (S d) (91 :: c :: r)
  = match parse_elements f d (c :: r) with
    | Some (vs, r') => Some (TList vs, r')
    | None => None
    end.
Proof.
  intros Hw Hc. cbn [parse_value].
  change (skip_ws (91 :: c :: r)) with (91 :: c :: r). cbv iota beta.
  change (91 =? 34) with false. change (91 =? 91) with true. cbv iota.
  now rewrite (skip_ws_head c r Hw), Hc.
Qed.

Lemma parse_value_dict f d c r :
  is_ws c = false -> (c =? 125) = false ->
  parse_value (S f) (S d) (123 :: c :: r)
  = match parse_members f d (c :: r) with
    | Some (kvs, r') => Some (TDict (str_keys (dict_of_pairs kvs)), r')
    | None => None
    end.
Proof.
  intros Hw Hc. cbn [parse_value].
  change (skip_ws (123 :: c :: r)) with (123 :: c :: r). cbv iota beta.
  change (123 =? 34) with false. change (123 =? 91) with false.
  change (123 =? 123) with true. cbv iota.
  now rewrite (skip_ws_head c r Hw), Hc.
Qed.

Lemma strip_prefix_head x p c s : (c =? x) = false -> strip_prefix (x :: p) (c :: s) = None.
Proof. intros H. cbn [strip_prefix]. now rewrite H. Qed.

Lemma match_constant_number c r :
  number_head (c :: r) = true -> match_constant constants (c :: r) = None.
Proof.
  cbn [number_head]. intros H. unfold constants. cbn [match_constant].
  change (lit "null") with (110 :: lit "ull").
  change (lit "true") with (116 :: lit "rue").
  change (lit "false") with (102 :: lit "alse").
  change (lit "NaN") with (78 :: lit "aN").
  change (lit "Infinity") with (73 :: lit "nfinity").
  change (lit "-Infinity") with (45 :: 73 :: lit "nfinity").
  rewrite !strip_prefix_head by (unfold is_digit in H; destruct r; lia).
  destruct (c =? 45) eqn:E; [|now rewrite strip_prefix_head].
  cbn [strip_prefix]. rewrite E.
  destruct r as [|d r']; [reflexivity|].
  replace (d =? 73) with false; [reflexivity|]. unfold is_digit in H. lia.
Qed.

Lemma parse_value_number f d text a rest :
  number_of_text text = Some a ->
  forallb is_number_char text = true ->
  number_head text = true ->
  stops rest = true ->
  parse_value (S f) d (text ++ rest) = Some (TAtom a, rest).
Proof.
  intros Hnum Hchars Hhead Hstop.
  destruct text as [|c r]; [discriminate|].
  pose proof (span_app is_number_char (c :: r) rest Hchars (stops_not_number _ Hstop))
    as Hspan.
  assert (Hhead' : number_head (c :: r ++ rest) = true).
  { cbn [number_head] in *. destruct r; [|exact Hhead].
    rewrite andb_false_r, orb_false_r in Hhead. now rewrite Hhead. }
  assert (Hc : is_digit c = true \/ c = 45)
    by (cbn [number_head] in Hhead; unfold is_digit in *; destruct r; lia).
  assert (Hw : is_ws c = false) by (unfold is_ws, is_digit in *; lia).
  cbn [app] in *. cbn [parse_value]. rewrite (skip_ws_head _ _ Hw).
  replace (c =? 34) with false by (unfold is_digit in Hc; lia).
  replace (c =? 91) with false by (unfold is_digit in Hc; lia).
  replace (c =? 123) with false by (unfold is_digit in Hc; lia).
  now rewrite (match_constant_number _ _ Hhead'), Hspan, Hnum.
Qed.

Lemma parse_elements_eq f d s :
  parse_elements (S f) d s
  = match parse_value f d s with
    | None => None
    | Some (v, r) =>
      match skip_ws r with
      | c :: r' =>
        if c =? 44 then
          match parse_elements f d r' with
          | Some (vs, r'') => Some (v :: vs, r'')
          | None => None
          end
        else if c =? 93 then Some ([v], r')
        else None
      | [] => None
      end
    end.
Proof. reflexivity. Qed.

Lemma parse_members_member f d key body r1 :
  scan_string body = Some (key, 58 :: r1) ->
  parse_members (S f) d (34 :: body)
  = match parse_value f d r1 with
    | None => None
    | Some (v, r3) =>
      match skip_ws r3 with
      | c :: r4 =>
        if c =? 44 then
          match parse_members f d r4 with
          | Some (kvs, r5) => Some ((key, v) :: kvs, r5)
          | None => None
          end
        else if c =? 125 then Some ([(key, v)], r4)
        else None
      | [] => None
      end
    end.
Proof.
  intros Hscan. cbn [parse_members].
  change (skip_ws (34 :: body)) with (34 :: body). cbv iota beta.
  change (34 =? 34) with true. cbv iota. rewrite Hscan.
  change (skip_ws (58 :: r1)) with (58 :: r1). cbv iota beta.
  change (58 =? 58) with true. reflexivity.
Qed.

(** ** Arrays and objects *)

Lemma printable_text_ok s : forallb printable s = true -> text_ok s = true.
Proof.
  induction s as [|c s IH]; [reflexivity|]. cbn [forallb text_ok]. intros H.
  apply andb_true_iff in H. destruct H as [Hc Hs]. rewrite (IH Hs), andb_true_r.
  unfold printable in Hc.
  replace (is_code_point c) with true by (unfold is_code_point; lia).
  replace (is_high_surrogate c) with false by (unfold is_high_surrogate; lia).
  reflexivity.
Qed.

Lemma key_text_ok k kt :
  key_faithful k = true -> key_text true k = Ok kt -> text_ok kt = true.
Proof.
  destruct k as [|[]|n|x|s|b]; cbn [key_faithful key_text]; intros Hf H;
    try discriminate; try (inv H; reflexivity).
  - apply printable_text_ok. eapply int_repr_printable; eassumption.
  - apply printable_text_ok. eapply floatstr_printable; eassumption.
  - inv H. exact Hf.
Qed.

Lemma number_head_char s :
  number_head s = true -> exists c r, s = c :: r /\ (is_digit c = true \/ c = 45).
Proof.
  destruct s as [|c r]; [discriminate|]. cbn [number_head]. intros H.
  exists c, r. split; [reflexivity|]. unfold is_digit in *. destruct r; lia.
Qed.

Lemma canonical_head t json :
  canonicalJSON t = Ok json -> json_faithful t = true ->
  exists c r, json = c :: r /\ is_ws c = false /\ (c =? 93) = false /\ (c =? 125) = false.
Proof.
  assert (Hnum : forall c, is_digit c = true \/ c = 45 ->
                 is_ws c = false /\ (c =? 93) = false /\ (c =? 125) = false)
    by (intros c; unfold is_digit, is_ws; lia).
  destruct t as [a|items|items|items]; intros H Hf.
  - destruct a as [|[]|n|x|s|b]; cbn [canonicalJSON encode_atom] in H;
      cbn [json_faithful atom_faithful] in Hf; try discriminate.
    + inv H. do 2 eexists. split; [reflexivity|]. repeat split; reflexivity.
    + inv H. do 2 eexists. split; [reflexivity|]. repeat split; reflexivity.
    + inv H. do 2 eexists. split; [reflexivity|]. repeat split; reflexivity.
    + destruct (int_repr_Ok _ _ H) as [-> _].
      destruct (number_head_char _ (int_text_head n)) as (c & r & -> & Hc).
      exists c, r. auto.
    + destruct x as [| | |repr]; try discriminate; cbn in H; inv H;
        try (do 2 eexists; split; [reflexivity|]; repeat split; reflexivity).
      destruct (number_head_char _ (float_text_head _ Hf)) as (c & r & Hcr & Hc).
      rewrite Hcr. exists c, r. auto.
    + inv H. do 2 eexists. split; [reflexivity|]. repeat split; reflexivity.
  - rewrite canonicalJSON_list in H. bind_inv H. inv H.
    do 2 eexists. split; [reflexivity|]. repeat split; reflexivity.
  - rewrite canonicalJSON_tuple in H. bind_inv H. inv H.
    do 2 eexists. split; [reflexivity|]. repeat split; reflexivity.
  - rewrite canonicalJSON_dict in H. bind_inv H. inv H.
    do 2 eexists. split; [reflexivity|]. repeat split; reflexivity.
Qed.

Lemma intercalate_cons sep p p' ps :
  intercalate sep (p :: p' :: ps) = p ++ sep ++ intercalate sep (p' :: ps).
Proof. reflexivity. Qed.

Lemma parse_elements_ok items : forall parts,
  Forall2 (fun t p => canonicalJSON t = Ok p) items parts ->
  Forall reads_back items ->
  forallb json_faithful items = true -> forallb distinct_keys items = true ->
  items <> [] ->
  forall fuel depth rest,
    (fold_right (fun c n => S (tree_size c + n)) O items <= fuel)%nat ->
    Forall (fun t => (tree_depth t <= depth)%nat) items ->
    parse_elements fuel depth (intercalate (lit ",") parts ++ 93 :: rest)
    = Some (map json_view items, rest).
Proof.
  induction items as [|t items IH];
    intros parts H2 Hrb Hf Hd Hne fuel depth rest Hfuel Hdepth; [congruence|].
  inv H2. inv Hrb. inv Hdepth. cbn [forallb] in Hf, Hd.
  apply andb_true_iff in Hf. destruct Hf as [Hft Hf].
  apply andb_true_iff in Hd. destruct Hd as [Hdt Hd].
  cbn [fold_right] in Hfuel. destruct fuel as [|f]; [lia|].
  rewrite parse_elements_eq.
  match goal with
  | Hc : canonicalJSON t = Ok ?p, Hr : reads_back t, Hl : Forall2 _ items ?ps |- _ =>
    rename p into part; rename ps into more; rename Hc into Hpart; rename Hr into Hread;
    rename Hl into Hmore
  end.
  destruct items as [|t' items'].
  - inv Hmore. cbn [intercalate].
    rewrite (Hread _ Hpart Hft Hdt f depth (93 :: rest)) by (try reflexivity; lia).
    reflexivity.
  - destruct more as [|part' more']; [inv Hmore|].
    rewrite intercalate_cons, <- !app_assoc.
    change (lit "," ++ ?x) with (44 :: x).
    rewrite (Hread _ Hpart Hft Hdt f depth (44 :: _)) by (try reflexivity; lia).
    change (skip_ws (44 :: ?x)) with (44 :: x). cbv iota beta.
    change (44 =? 44) with true. cbv iota.
    match goal with
    | HF : Forall reads_back (t' :: items') |- _ =>
      rewrite (IH _ Hmore HF Hf Hd)
        by (try discriminate; try assumption; cbn [fold_right] in *; lia)
    end.
    reflexivity.
Qed.

Lemma parse_members_ok items : forall parts,
  Forall2 (fun kv m => exists k v,
             key_text true (fst kv) = Ok k /\ canonicalJSON (snd kv) = Ok v /\
             m = encode_basestring_ascii k ++ lit ":" ++ v) items parts ->
  Forall (fun kv => reads_back (snd kv)) items ->
  forallb (fun kv => key_faithful (fst kv) && json_faithful (snd kv)) items = true ->
  forallb (fun kv => distinct_keys (snd kv)) items = true ->
  items <> [] ->
  forall fuel depth rest,
    (fold_right (fun kv n => S (tree_size (snd kv) + n)) O items <= fuel)%nat ->
    Forall (fun kv => (tree_depth (snd kv) <= depth)%nat) items ->
    parse_members fuel depth (intercalate (lit ",") parts ++ 125 :: rest)
    = Some (map member_view items, rest).
Proof.
  induction items as [|kv items IH];
    intros parts H2 Hrb Hf Hd Hne fuel depth rest Hfuel Hdepth; [congruence|].
  inv H2. inv Hrb. inv Hdepth. cbn [forallb] in Hf, Hd.
  apply andb_true_iff in Hf. destruct Hf as [Hft Hf].
  apply andb_true_iff in Hft. destruct Hft as [Hfk Hfv].
  apply andb_true_iff in Hd. destruct Hd as [Hdt Hd].
  cbn [fold_right] in Hfuel. destruct fuel as [|f]; [lia|].
  match goal with
  | Hm : exists k v, _, Hr : reads_back (snd kv), Hl : Forall2 _ items ?ps |- _ =>
    destruct Hm as (k & v & Hk & Hv & ->); rename ps into more; rename Hr into Hread;
    rename Hl into Hmore
  end.
  assert (Hname : member_view kv = (k, json_view (snd kv)))
    by (unfold member_view, key_name; now rewrite Hk).
  pose proof (key_text_ok _ _ Hfk Hk) as Hok.
  destruct items as [|kv' items'].
  - inv Hmore. cbn [intercalate]. rewrite <- !app_assoc.
    destruct (scan_encoded k (lit ":" ++ v ++ 125 :: rest) Hok) as (body & -> & Hscan).
    rewrite (parse_members_member f depth k body _ Hscan).
    rewrite (Hread _ Hv Hfv Hdt f depth (125 :: rest)) by (try reflexivity; lia).
    cbn [map]. now rewrite Hname.
  - destruct more as [|part' more']; [inv Hmore|].
    rewrite intercalate_cons, <- !app_assoc.
    match goal with
    | |- context [encode_basestring_ascii k ++ ?x] =>
      destruct (scan_encoded k x Hok) as (body & -> & Hscan)
    end.
    rewrite (parse_members_member f depth k body _ Hscan).
    change (lit "," ++ ?x) with (44 :: x).
    rewrite (Hread _ Hv Hfv Hdt f depth (44 :: _)) by (try reflexivity; lia).
    change (skip_ws (44 :: ?x)) with (44 :: x). cbv iota beta.
    change (44 =? 44) with true. cbv iota.
    match goal with
    | HF : Forall (fun kv => reads_back (snd kv)) (kv' :: items') |- _ =>
      rewrite (IH _ Hmore HF Hf Hd)
        by (try discriminate; try assumption; cbn [fold_right] in *; lia)
    end.
    cbn [map]. now rewrite Hname.
Qed.

(** ** Storing the members of an object *)

Lemma text_eqb_sym a : forall b, text_eqb a b = text_eqb b a.
Proof.
  induction a as [|x a IH]; intros [|y b]; try reflexivity.
  cbn [text_eqb]. now rewrite IH, Z.eqb_sym.
Qed.

Lemma dict_set_fresh k v d :
  existsb (fun kv => text_eqb k (fst kv)) d = false -> dict_set k v d = d ++ [(k, v)].
Proof.
  induction d as [|[k' v'] d IH]; [reflexivity|]. cbn [existsb dict_set fst]. intros H.
  apply orb_false_iff in H. destruct H as [-> H]. now rewrite (IH H).
Qed.

Lemma distinct_middle (l1 : list pystr) n l2 :
  distinct (l1 ++ n :: l2) = true -> existsb (text_eqb n) l1 = false.
Proof.
  induction l1 as [|a l1 IH]; [reflexivity|]. cbn [app distinct existsb]. intros H.
  apply andb_true_iff in H. destruct H as [Ha H]. apply negb_true_iff in Ha.
  rewrite existsb_app in Ha. apply orb_false_iff in Ha. destruct Ha as [_ Ha].
  cbn [existsb] in Ha. apply orb_false_iff in Ha. destruct Ha as [Ha _].
  now rewrite text_eqb_sym, Ha, (IH H).
Qed.

Lemma existsb_mapped {A B : Type} (p : B -> bool) (f : A -> B) l :
  existsb p (map f l) = existsb (fun x => p (f x)) l.
Proof. induction l as [|x l IH]; [reflexivity|]. cbn [map existsb]. now rewrite IH. Qed.

Lemma dict_fold_distinct pairs : forall acc,
  distinct (map fst (acc ++ pairs)) = true ->
  fold_left (fun d kv => dict_set (fst kv) (snd kv) d) pairs acc = acc ++ pairs.
Proof.
  induction pairs as [|[k v] pairs IH]; intros acc H; [now rewrite app_nil_r|].
  cbn [fold_left fst snd]. rewrite dict_set_fresh.
  - rewrite IH; rewrite <- app_assoc; [reflexivity | exact H].
  - rewrite map_app in H. cbn [map fst] in H. apply distinct_middle in H.
    rewrite existsb_mapped in H. exact H.
Qed.

Lemma dict_of_pairs_distinct pairs :
  distinct (map fst pairs) = true -> dict_of_pairs pairs = pairs.
Proof. intros H. unfold dict_of_pairs. now rewrite dict_fold_distinct. Qed.

(** ** The reader inverts the encoder *)

Lemma intercalate_head (sep : pystr) c r ps :
  exists r', intercalate sep ((c :: r) :: ps) = c :: r'.
Proof. destruct ps; cbn [intercalate app]; eauto. Qed.

Lemma parse_canonical t : reads_back t.
Proof.
  induction t as [a|items IH|items IH|items IH] using pytree_induction;
    intros json H Hf Hd fuel depth rest Hfuel Hdepth Hstop.
  - destruct fuel as [|f]; [cbn [tree_size] in Hfuel; lia|].
    destruct a as [|[]|n|x|s|b]; cbn [canonicalJSON encode_atom] in H;
      cbn [json_faithful atom_faithful] in Hf; try discriminate.
    + inv H. apply parse_value_null.
    + inv H. apply parse_value_true.
    + inv H. apply parse_value_false.
    + destruct (int_repr_Ok _ _ H) as [-> Hlim].
      apply parse_value_number;
        [now apply number_of_int_text | apply int_text_number | apply int_text_head
         | exact Hstop].
    + destruct x as [| | |repr]; try discriminate; cbn in H; inv H;
        try reflexivity.
      apply parse_value_number;
        [now apply number_of_float_text | apply float_chars_number
         | now apply float_text_head | exact Hstop].
    + inv H. destruct (scan_encoded s rest Hf) as (body & -> & Hscan).
      now rewrite parse_value_string, Hscan.
  - rewrite canonicalJSON_list in H. bind_inv H. inv H. apply sequence_Ok_inv in Hx.
    cbn [json_faithful distinct_keys tree_size tree_depth] in Hf, Hd, Hfuel, Hdepth.
    destruct fuel as [|f]; [lia|]. destruct depth as [|d]; [lia|].
    apply le_S_n, depth_children in Hdepth. cbn [json_view].
    destruct items as [|t items].
    + inv Hx. apply parse_value_empty_list.
    + pose proof Hx as Hx'. inv Hx'.
      cbn [forallb] in Hf. pose proof Hf as Hf'.
      apply andb_true_iff in Hf'. destruct Hf' as [Hft _].
      match goal with
      | Hc : canonicalJSON t = Ok _ |- _ =>
        destruct (canonical_head _ _ Hc Hft) as (c & r & -> & Hw & Hc1 & _)
      end.
      cbn [app]. rewrite <- ?app_assoc.
      match goal with
      | |- context [intercalate ?sep ?parts] =>
        destruct (intercalate_head sep c r l') as [r' Hr'];
        change (intercalate sep parts = c :: r') in Hr'
      end.
      rewrite Hr'. cbn [app]. rewrite parse_value_list by assumption.
      change (c :: r' ++ lit "]" ++ rest) with ((c :: r') ++ 93 :: rest).
      rewrite <- Hr'.
      rewrite (parse_elements_ok _ _ Hx IH Hf Hd)
        by (try discriminate; try assumption; lia).
      reflexivity.
  - rewrite canonicalJSON_tuple in H. bind_inv H. inv H. apply sequence_Ok_inv in Hx.
    cbn [json_faithful distinct_keys tree_size tree_depth] in Hf, Hd, Hfuel, Hdepth.
    destruct fuel as [|f]; [lia|]. destruct depth as [|d]; [lia|].
    apply le_S_n, depth_children in Hdepth. cbn [json_view].
    destruct items as [|t items].
    + inv Hx. apply parse_value_empty_list.
    + pose proof Hx as Hx'. inv Hx'.
      cbn [forallb] in Hf. pose proof Hf as Hf'.
      apply andb_true_iff in Hf'. destruct Hf' as [Hft _].
      match goal with
      | Hc : canonicalJSON t = Ok _ |- _ =>
        destruct (canonical_head _ _ Hc Hft) as (c & r & -> & Hw & Hc1 & _)
      end.
      cbn [app]. rewrite <- ?app_assoc.
      match goal with
      | |- context [intercalate ?sep ?parts] =>
        destruct (intercalate_head sep c r l') as [r' Hr'];
        change (intercalate sep parts = c :: r') in Hr'
      end.
      rewrite Hr'. cbn [app]. rewrite parse_value_list by assumption.
      change (c :: r' ++ lit "]" ++ rest) with ((c :: r') ++ 93 :: rest).
      rewrite <- Hr'.
      rewrite (parse_elements_ok _ _ Hx IH Hf Hd)
        by (try discriminate; try assumption; lia).
      reflexivity.
  - rewrite canonicalJSON_dict in H. bind_inv H. inv H. apply member_texts in Hx.
    cbn [json_faithful distinct_keys tree_size tree_depth] in Hf, Hd, Hfuel, Hdepth.
    apply andb_true_iff in Hd. destruct Hd as [Hnames Hd].
    destruct fuel as [|f]; [lia|]. destruct depth as [|d]; [lia|].
    apply le_S_n, depth_members in Hdepth. cbn [json_view].
    destruct items as [|kv items].
    + inv Hx. apply parse_value_empty_dict.
    + pose proof Hx as Hx'. inv Hx'.
      match goal with
      | Hm : exists k v, _ |- _ => destruct Hm as (k & v & Hk & Hv & ->)
      end.
      cbn [app]. rewrite <- ?app_assoc.
      match goal with
      | |- context [intercalate ?sep ?parts] =>
        destruct (intercalate_head sep 34
                    ((flat_map (fun c => if ESCAPE_ASCII c then replace c else [c]) k
                        ++ [34]) ++ lit ":" ++ v) l') as [r' Hr'];
        change (intercalate sep parts = 34 :: r') in Hr'
      end.
      rewrite Hr'. cbn [app]. rewrite parse_value_dict by reflexivity.
      change (34 :: r' ++ lit "}" ++ rest) with ((34 :: r') ++ 125 :: rest).
      rewrite <- Hr'.
      rewrite (parse_members_ok _ _ Hx IH Hf Hd)
        by (try discriminate; try assumption; lia).
      rewrite dict_of_pairs_distinct
        by (rewrite map_map; exact Hnames).
      do 3 f_equal. unfold str_keys. rewrite map_map.
      apply map_ext_in. intros kv' Hin.
      destruct (Forall2_In_l _ _ _ _ Hx Hin) as (m & _ & k' & v' & Hk' & _).
      unfold member_view, key_view, key_name. cbn [fst snd]. now rewrite Hk'.
Qed.

(** ** The text is long enough to pay for its own reading *)

Lemma intercalate_fuel {A : Type} (g : A -> nat) (items : list A) (parts : list pystr) :
  Forall2 (fun x p => (g x <= length p)%nat) items parts ->
  (fold_right (fun x n => S (g x + n)) O items
   <= S (length (intercalate (lit ",") parts)))%nat.
Proof.
  induction 1 as [|x p items parts Hx Hrest IH]; [cbn; lia|].
  cbn [fold_right intercalate]. destruct parts as [|p' parts'].
  - inv Hrest. cbn [fold_right]. lia.
  - rewrite !length_app. cbn [length lit] in *. change (length (lit ",")) with 1%nat. lia.
Qed.

Lemma length_bracketed (l : Z) body (r : Z) :
  length ([l] ++ body ++ [r]) = S (S (length body)).
Proof. cbn [app length]. rewrite length_app. cbn [length]. lia. Qed.

Lemma tree_size_le_length t : forall json,
  canonicalJSON t = Ok json -> json_faithful t = true ->
  (tree_size t <= length json)%nat.
Proof.
  induction t as [a|items IH|items IH|items IH] using pytree_induction; intros json H Hf.
  - destruct (canonical_head _ _ H Hf) as (c & r & -> & _). cbn. lia.
  - rewrite canonicalJSON_list in H. bind_inv H. apply sequence_Ok_inv in Hx.
    assert (Hjson : length json = S (S (length (intercalate (lit ",") x))))
      by (injection H as <-; apply (length_bracketed 91 _ 93)).
    cbn [json_faithful] in Hf. rewrite forallb_forall in Hf. rewrite Forall_forall in IH.
    cbn [tree_size]. rewrite Hjson.
    pose proof (intercalate_fuel tree_size items x) as Hlen.
    assert (Hall : Forall2 (fun t p => (tree_size t <= length p)%nat) items x)
      by (eapply Forall2_impl_In_l; [exact Hx|]; cbv beta; auto).
    specialize (Hlen Hall). lia.
  - rewrite canonicalJSON_tuple in H. bind_inv H. apply sequence_Ok_inv in Hx.
    assert (Hjson : length json = S (S (length (intercalate (lit ",") x))))
      by (injection H as <-; apply (length_bracketed 91 _ 93)).
    cbn [json_faithful] in Hf. rewrite forallb_forall in Hf. rewrite Forall_forall in IH.
    cbn [tree_size]. rewrite Hjson.
    pose proof (intercalate_fuel tree_size items x) as Hlen.
    assert (Hall : Forall2 (fun t p => (tree_size t <= length p)%nat) items x)
      by (eapply Forall2_impl_In_l; [exact Hx|]; cbv beta; auto).
    specialize (Hlen Hall). lia.
  - rewrite canonicalJSON_dict in H. bind_inv H. apply member_texts in Hx.
    assert (Hjson : length json = S (S (length (intercalate (lit ",") x))))
      by (injection H as <-; apply (length_bracketed 123 _ 125)).
    cbn [json_faithful] in Hf. rewrite forallb_forall in Hf. rewrite Forall_forall in IH.
    cbn [tree_size]. rewrite Hjson.
    pose proof (intercalate_fuel (fun kv => tree_size (snd kv)) items x) as Hlen.
    assert (Hall : Forall2 (fun kv p => (tree_size (snd kv) <= length p)%nat) items x).
    { eapply Forall2_impl_In_l; [exact Hx|]. cbv beta.
      intros kv m Hin (k & v & _ & Hv & ->). specialize (Hf kv Hin).
      apply andb_true_iff in Hf. destruct Hf as [_ Hf].
      specialize (IH kv Hin v Hv Hf). rewrite !length_app. lia. }
    specialize (Hlen Hall). lia.
Qed.

Theorem json_loads_canonical depth_left t json :
  canonicalJSON t = Ok json -> json_faithful t = true -> distinct_keys t = true ->
  (tree_depth t <= S depth_left)%nat ->
  json_loads depth_left json = Some (json_view t).
Proof.
  intros H Hf Hd Hdepth. unfold json_loads.
  pose proof (parse_canonical t json H Hf Hd (length json) (S depth_left) []
                (tree_size_le_length _ _ H Hf) Hdepth eq_refl) as Hp.
  rewrite app_nil_r in Hp. now rewrite Hp.
Qed.

Lemma json_view_native t : json_native t = true -> json_view t = t.
Proof.
  induction t as [a|items IH|items IH|items IH] using pytree_induction; intros Hn.
  - reflexivity.
  - cbn [json_native] in Hn. rewrite forallb_forall in Hn. rewrite Forall_forall in IH.
    cbn [json_view]. f_equal. rewrite <- (map_id items) at 2.
    apply map_ext_in. auto.
  - discriminate.
  - cbn [json_native] in Hn. rewrite forallb_forall in Hn. rewrite Forall_forall in IH.
    cbn [json_view]. f_equal. rewrite <- (map_id items) at 2.
    apply map_ext_in. intros [k v] Hin. specialize (Hn _ Hin). specialize (IH _ Hin).
    cbn [fst snd] in *. destruct k; try discriminate. now rewrite (IH Hn).
Qed.

(** C6 (as stated) fails: a str that holds a high and a low surrogate as
    two code points is written as two escapes, which a reader takes for one
    supplementary character; the payload read back differs from the
    original in the value of a str, not in a type. *)
Lemma C6_surrogate_pair_merges :
  unfolds pair_heap (Ref 0) pair_tree /\
  json_native pair_tree = true /\
  generate_upload_signature example_depth pair_heap (Ref 0) (lit "k") = Ok pair_token /\
  (exists text,
     urlsafe_b64decode (restore_padding (hd [] (split_on 46 pair_token))) = Some text /\
     bytes_decode text = Ok text /\
     json_loads example_depth text = Some pair_read) /\
  pair_read <> pair_tree.
Proof.
  split; [eapply unfolds_dict; [reflexivity | repeat constructor]|].
  split; [reflexivity|]. split; [vm_compute; reflexivity|].
  split; [|discriminate].
  eexists. split; [vm_compute; reflexivity|]. split; vm_compute; reflexivity.
Qed.

(** C6 (amended). Take a serializable payload in which no str (value or
    key) holds a high surrogate directly followed by a low surrogate, no
    float is NaN, and no two keys of one mapping are written under the same
    name, and a secret that can be encoded.  Then the signer returns a
    token; splitting it on '.', decoding the first segment as base64url
    with the padding restored and decoding the bytes gives the serialized
    text, and parsing that text as JSON (with the recursion room the signer
    had) gives the payload up to JSON's types: tuples come back as lists
    and keys that are no str come back as the str they were written as.
    A payload of lists and str-keyed mappings comes back equal. *)
Theorem C6_round_trip depth_left h payload t secret_key :
  serializable depth_left h payload -> unfolds h payload t ->
  json_faithful t = true -> distinct_keys t = true ->
  forallb (fun c => negb (is_surrogate c)) secret_key = true ->
  exists token json,
    generate_upload_signature depth_left h payload secret_key = Ok token /\
    json_dumps depth_left h payload (lit ",", lit ":") = Ok json /\
    urlsafe_b64decode (restore_padding (hd [] (split_on 46 token)))
    = Some (ascii_bytes json) /\
    bytes_decode (ascii_bytes json) = Ok json /\
    json_loads depth_left json = Some (json_view t) /\
    (json_native t = true -> json_loads depth_left json = Some t).
Proof.
  intros (t' & Hu' & Hs & Hdepth) Hu Hf Hd Hkey.
  pose proof (unfolds_functional _ _ _ _ Hu' Hu) as ->.
  destruct (canonicalJSON_supported _ Hs) as [json Hjson].
  pose proof (json_dumps_serializable _ _ _ _ _ Hu Hjson Hdepth) as Hj.
  destruct (str_encode_no_surrogates _ Hkey) as [key Hk].
  assert (Ha : forallb is_ascii json = true).
  { eapply forallb_impl; [apply printable_ascii|].
    eapply canonicalJSON_printable; eassumption. }
  pose proof (json_loads_canonical depth_left _ _ Hjson Hf Hd Hdepth) as Hload.
  exists (token_format json key), json.
  split; [rewrite sign_token_format, Hj, Hk; reflexivity|].
  split; [exact Hj|].
  rewrite (token_shape_split _ _ _ (token_format_shape json key Ha)). cbn [hd].
  split; [apply base64url_roundtrip; now apply ascii_is_byte|].
  split; [now apply bytes_decode_ascii|].
  split; [exact Hload|].
  intros Hn. now rewrite Hload, json_view_native.
Qed.

Lemma C6_round_trip_witness :
  serializable example_depth example_heap example_payload /\
  unfolds example_heap example_payload example_tree /\
  json_faithful example_tree = true /\ distinct_keys example_tree = true /\
  json_native example_tree = true /\
  exists token json,
    generate_upload_signature example_depth example_heap example_payload example_secret
    = Ok token /\
    urlsafe_b64decode (restore_padding (hd [] (split_on 46 token)))
    = Some (ascii_bytes json) /\
    json_loads example_depth json = Some example_tree.
Proof.
  split; [exact example_serializable|]. split; [exact example_unfolds|].
  split; [reflexivity|]. split; [reflexivity|]. split; [reflexivity|].
  destruct (C6_round_trip example_depth example_heap example_payload example_tree
              example_secret example_serializable example_unfolds
              eq_refl eq_refl eq_refl)
    as (token & json & Hsign & _ & Hdec & _ & _ & Hnative).
  exists token, json. split; [exact Hsign|]. split; [exact Hdec|].
  exact (Hnative eq_refl).
Defined.
